(** * Sculpt brush-stroke evaluation core: a shallow embedding

    The definitions below follow
    [source/blender/editors/sculpt_paint/sculpt.cc]: the symmetry
    iteration test, the brush inclusion tests, the hardness remap, the
    factor pipeline stages, the node culling predicates, mirror clipping
    of translations, the interior-neighbour query and the
    symmetry / radial / tiling driver; then the symmetry queries on
    vertices and pivots, the arrays gathered and scattered by index, the
    translation helpers, the visibility, face-set and boundary queries of
    the plain mesh, the boundary vertices of the base mesh, the
    nearest-vertex and fake-neighbour searches, the symmetry feather, the
    stroke identifiers and the distances to a cube brush.  The orientation
    of the axis constraints of the mesh filters follows
    [source/blender/editors/sculpt_paint/sculpt_filter_mesh.cc].

    Arithmetic.  The C++ code computes on [float].  Every function that
    touches a [float] is written once, over an interface [FloatOps] of the
    operations the code uses (+, -, *, /, comparisons, [fabsf], the
    int/float conversions).  Two instances are given:
    - [Q_ops]: exact rational arithmetic, the code's formulas read
      without rounding.
    - [B32.ops]: IEEE-754 binary32 ([SpecFloat] at precision 24, emax 128),
      round-to-nearest-even.  It is used to replay concrete inputs with the
      rounding the compiled code has.
    What holds of the code whatever the arithmetic is stated over the
    interface, for every instance; what needs the laws of exact arithmetic
    is proved for [Q_ops] and says so, and where rounding breaks it an input
    is replayed in binary32.

    Integers of C type [int] / [char] are modelled by [Z]; the values that
    occur (pass counters, axis indices, bit masks 0..7) stay far away from
    the wrap-around.

    What the code calls in other modules (the viewport clip test, the
    rotation of a point, the square root, the matrix inverse, the mesh and
    half-edge queries, the tree of nodes) is a parameter of the definitions
    that use it; so is the angle of a radial pass, which the code computes
    in [double].  A parallel reduction is run along a plan, the cut of the
    range into chunks and the order of the joins, which is the scheduler's
    choice: what is proved of it is proved for every plan. *)

From Stdlib Require Import ZArith QArith Qabs Qround Lia Lqa List Bool.
From Stdlib Require Floats.SpecFloat.
Import ListNotations.

Set Implicit Arguments.

(* ------------------------------------------------------------------ *)
(** ** The [float] interface *)

Class FloatOps (F : Type) : Type := {
  fzero : F;
  fone : F;
  fadd : F -> F -> F;
  fsub : F -> F -> F;
  fmul : F -> F -> F;
  fdiv : F -> F -> F;
  fopp : F -> F;
  fabs : F -> F;
  fltb : F -> F -> bool;
  fleb : F -> F -> bool;
  feqb : F -> F -> bool;
  (** [(float)i] for an [int] i *)
  fofZ : Z -> F;
  (** [(int)f]: truncation toward zero *)
  ftrunc : F -> Z
}.

Declare Scope fl_scope.
Delimit Scope fl_scope with fl.
Infix "+" := fadd : fl_scope.
Infix "-" := fsub : fl_scope.
Infix "*" := fmul : fl_scope.
Infix "/" := fdiv : fl_scope.
Notation "- x" := (fopp x) : fl_scope.
Infix "<?" := fltb : fl_scope.
Infix "<=?" := fleb : fl_scope.
Infix "=?" := feqb : fl_scope.
(** [a > b] and [a >= b] of C are the swapped comparisons. *)
Notation "a >? b" := (fltb b a) : fl_scope.
Notation "a >=? b" := (fleb b a) : fl_scope.

(** Exact rationals. *)
Definition Qltb (a b : Q) : bool := negb (Qle_bool b a).

Definition Qtrunc (q : Q) : Z := Z.quot (Qnum q) (Zpos (Qden q)).

#[export] Instance Q_ops : FloatOps Q := {|
  fzero := 0%Q;
  fone := 1%Q;
  fadd := Qplus;
  fsub := Qminus;
  fmul := Qmult;
  fdiv := Qdiv;
  fopp := Qopp;
  fabs := Qabs;
  fltb := Qltb;
  fleb := Qle_bool;
  feqb := Qeq_bool;
  fofZ := inject_Z;
  ftrunc := Qtrunc
|}.

(** IEEE-754 binary32. *)
Module B32.
Import SpecFloat.

Definition prec : Z := 24.
Definition emax : Z := 128.

Definition of_Z (z : Z) : spec_float := binary_normalize prec emax z 0 false.

(** [(int)f] for a finite [f]; the conversion of NaN and infinities is
    undefined in C++, 0 stands for it. *)
Definition trunc (f : spec_float) : Z :=
  match f with
  | S754_finite s m e =>
      let a := if (0 <=? e)%Z then Z.shiftl (Zpos m) e
               else Z.shiftr (Zpos m) (Z.opp e) in
      if s then Z.opp a else a
  | _ => 0%Z
  end.

Definition ops : FloatOps spec_float := {|
  fzero := S754_zero false;
  fone := of_Z 1;
  fadd := SFadd prec emax;
  fsub := SFsub prec emax;
  fmul := SFmul prec emax;
  fdiv := SFdiv prec emax;
  fopp := SFopp;
  fabs := SFabs;
  fltb := SFltb;
  fleb := SFleb;
  feqb := SFeqb;
  fofZ := of_Z;
  ftrunc := trunc
|}.
End B32.

#[export] Existing Instance B32.ops.

(* ------------------------------------------------------------------ *)
(** ** Vectors and matrices ([float3], [float4x4]) *)

Section Vectors.
Context {F : Type} `{FloatOps F}.
Local Open Scope fl_scope.

Record float3 : Type := mk3 { vx : F; vy : F; vz : F }.

(** [v[axis]] *)
Definition v3_get (v : float3) (axis : Z) : F :=
  if (axis =? 0)%Z then vx v else if (axis =? 1)%Z then vy v else vz v.

(** [v[axis] = a] *)
Definition v3_set (v : float3) (axis : Z) (a : F) : float3 :=
  if (axis =? 0)%Z then mk3 a (vy v) (vz v)
  else if (axis =? 1)%Z then mk3 (vx v) a (vz v)
  else mk3 (vx v) (vy v) a.

Definition v3_zero : float3 := mk3 fzero fzero fzero.

Definition v3_add (a b : float3) : float3 :=
  mk3 (vx a + vx b) (vy a + vy b) (vz a + vz b).

Definition v3_sub (a b : float3) : float3 :=
  mk3 (vx a - vx b) (vy a - vy b) (vz a - vz b).

(** [math::dot] *)
Definition dot (a b : float3) : F :=
  vx a * vx b + vy a * vy b + vz a * vz b.

(** [len_squared_v3v3], [math::distance_squared] *)
Definition distance_squared (a b : float3) : F :=
  let d := v3_sub a b in dot d d.

(** [min_ff], [max_ff] of BLI_math_base, [std::max], [std::clamp]. *)
Definition min_ff (a b : F) : F := if a <? b then a else b.
Definition max_ff (a b : F) : F := if a >? b then a else b.
Definition std_max (a b : F) : F := if a <? b then b else a.
Definition clamp1 (v lo hi : F) : F :=
  if v <? lo then lo else if hi <? v then hi else v.

(** [math::clamp] on [float3], component by component *)
Definition v3_clamp (v lo hi : float3) : float3 :=
  mk3 (clamp1 (vx v) (vx lo) (vx hi))
      (clamp1 (vy v) (vy lo) (vy hi))
      (clamp1 (vz v) (vz lo) (vz hi)).

(** A [float4x4] is stored by columns, as in BLI: [col3] is the
    translation. *)
Record float4 : Type := mk4 { qx : F; qy : F; qz : F; qw : F }.
Record float4x4 : Type := mkmat { col0 : float4; col1 : float4; col2 : float4; col3 : float4 }.

Definition identity4x4 : float4x4 :=
  mkmat (mk4 fone fzero fzero fzero) (mk4 fzero fone fzero fzero)
        (mk4 fzero fzero fone fzero) (mk4 fzero fzero fzero fone).

(** [math::transform_point], [mul_m4_v3], [mul_v3_m4v3]: the upper 3x3
    block applied to the point, plus the translation column. *)
Definition transform_point (m : float4x4) (p : float3) : float3 :=
  mk3 (qx (col0 m) * vx p + qx (col1 m) * vy p + qx (col2 m) * vz p + qx (col3 m))
      (qy (col0 m) * vx p + qy (col1 m) * vy p + qy (col2 m) * vz p + qy (col3 m))
      (qz (col0 m) * vx p + qz (col1 m) * vy p + qz (col2 m) * vz p + qz (col3 m)).
End Vectors.

Arguments float3 F : clear implicits.
Arguments float4 F : clear implicits.
Arguments float4x4 F : clear implicits.

(* ------------------------------------------------------------------ *)
(** ** Symmetry *)

(** An [int] used as a condition. *)
Definition truthy (z : Z) : bool := negb (z =? 0)%Z.

(** [ELEM(i, a, b)] *)
Definition ELEM2 (i a b : Z) : bool := (i =? a)%Z || (i =? b)%Z.

(** [bool SCULPT_is_symmetry_iteration_valid(char i, char symm)]; an
    integer used as a condition is true when it is not 0. *)
Definition SCULPT_is_symmetry_iteration_valid (i symm : Z) : bool :=
  (i =? 0)%Z
  || (truthy (Z.land symm i)
      && (negb (symm =? 5)%Z || negb (i =? 3)%Z)
      && (negb (symm =? 6)%Z || negb (ELEM2 i 3 5))).

(** Modelled from the spec: bit 0 is X, bit 1 is Y, bit 2 is Z. *)
Definition PAINT_SYMM_X : Z := 1.
Definition PAINT_SYMM_Y : Z := 2.
Definition PAINT_SYMM_Z : Z := 4.

Section SymmetryFlip.
Context {F : Type} `{FloatOps F}.
Local Open Scope fl_scope.

(** Modelled from the spec: [symmetry_flip] and the flags
    [PAINT_SYMM_X], [PAINT_SYMM_Y], [PAINT_SYMM_Z] are declared in headers
    that are not part of the sources at hand.  The symmetry bitmask has
    bit 0 for X, bit 1 for Y and bit 2 for Z; a set bit mirrors (negates)
    that coordinate, so that with bitmask 1 the point (1,0,0) becomes
    (-1,0,0). *)
Definition symmetry_flip (src : float3 F) (symm : Z) : float3 F :=
  mk3 (if truthy (Z.land symm PAINT_SYMM_X) then - vx src else vx src)
      (if truthy (Z.land symm PAINT_SYMM_Y) then - vy src else vy src)
      (if truthy (Z.land symm PAINT_SYMM_Z) then - vz src else vz src).
End SymmetryFlip.

(* ------------------------------------------------------------------ *)
(** ** Radial rotation matrices

    [symm_rot_mat] and [symm_rot_mat_inv] are only ever the identity or
    [rotate_m4(identity, axis, angle)].  [rotate_m4] needs sine and cosine,
    which the arithmetic interface does not have, so the matrix is kept as
    the expression that built it and its application to a point is a
    parameter of the development. *)

Inductive rot_mat (F : Type) : Type :=
| RotIdentity : rot_mat F
| Rotated (axis : Z) (angle : F) : rot_mat F.

Arguments RotIdentity {F}.

(** The axis a rotation was built about ('X', 'Y', 'Z'), 0 for the identity. *)
Definition rot_axis {F : Type} (m : rot_mat F) : Z :=
  match m with
  | RotIdentity => 0
  | Rotated axis _ => axis
  end.

(** [rotate_m4(mat, axis, angle)] on a matrix that is the identity. *)
Definition rotate_m4 {F : Type} (m : rot_mat F) (axis : Z) (angle : F) : rot_mat F :=
  Rotated axis angle.

(* ------------------------------------------------------------------ *)
(** ** Brush tests *)

(** A division whose divisor is checked: the result of a computation is
    either its value or the report that it divided by zero. *)
Inductive checked (A : Type) : Type :=
| Done (a : A)
| DivisionByZero.

Arguments DivisionByZero {A}.

Section BrushTest.
Context {F : Type} `{FloatOps F}.
Local Open Scope fl_scope.

(** The viewport with its clip planes, and the test of a point against
    them ([ED_view3d_clipping_test(rv3d, co, true)], true when the point
    is clipped away), come from the 3D view editor. *)
Variable RegionView3D : Type.
Variable ED_view3d_clipping_test : RegionView3D -> float3 F -> bool.

(** Application of [rotate_m4(identity, axis, angle)] to a point. *)
Variable rotate_point : Z -> F -> float3 F -> float3 F.

(** [mul_m4_v3], [math::transform_point] with a radial rotation matrix *)
Definition mul_m4_v3 (m : rot_mat F) (p : float3 F) : float3 F :=
  match m with
  | RotIdentity => p
  | Rotated axis angle => rotate_point axis angle p
  end.

(** [struct SculptBrushTest]; [clip_rv3d] is [None] for [nullptr]. *)
Record SculptBrushTest : Type := mkTest {
  test_radius_squared : F;
  test_radius : F;
  test_location : float3 F;
  test_dist : F;
  test_mirror_symmetry_pass : Z;
  test_radial_symmetry_pass : Z;
  test_symm_rot_mat_inv : rot_mat F;
  test_clip_rv3d : option RegionView3D
}.

Definition set_dist (test : SculptBrushTest) (d : F) : SculptBrushTest :=
  mkTest (test_radius_squared test) (test_radius test) (test_location test) d
         (test_mirror_symmetry_pass test) (test_radial_symmetry_pass test)
         (test_symm_rot_mat_inv test) (test_clip_rv3d test).

(** The point a clip test looks at: flipped through the mirror pass and,
    in a radial pass, rotated by the inverse rotation. *)
Definition clip_test_point (mirror_symmetry_pass radial_symmetry_pass : Z)
    (symm_rot_mat_inv : rot_mat F) (co : float3 F) : float3 F :=
  let symm_co := symmetry_flip co mirror_symmetry_pass in
  if negb (radial_symmetry_pass =? 0)%Z
  then mul_m4_v3 symm_rot_mat_inv symm_co
  else symm_co.

(** [sculpt_brush_test_clipping] *)
Definition sculpt_brush_test_clipping (test : SculptBrushTest) (co : float3 F) : bool :=
  match test_clip_rv3d test with
  | None => false
  | Some rv3d =>
      let symm_co := symmetry_flip co (test_mirror_symmetry_pass test) in
      let symm_co :=
        if negb (test_radial_symmetry_pass test =? 0)%Z
        then mul_m4_v3 (test_symm_rot_mat_inv test) symm_co
        else symm_co in
      ED_view3d_clipping_test rv3d symm_co
  end.

(** [SCULPT_brush_test_sphere_sq]: the result and the test after the call *)
Definition SCULPT_brush_test_sphere_sq (test : SculptBrushTest) (co : float3 F)
    : bool * SculptBrushTest :=
  let distsq := distance_squared co (test_location test) in
  if distsq >? test_radius_squared test then (false, test)
  else if sculpt_brush_test_clipping test co then (false, test)
  else (true, set_dist test distsq).

Definition fdiv_checked (a b : F) : checked F :=
  if b =? fzero then DivisionByZero else Done (a / b).

(** [len_v2v2]: the distance of the x,y parts; the square root is a
    parameter. *)
Variable sqrtf : F -> F.

Definition len_v2v2 (a b : float3 F) : F :=
  let dx := vx a - vx b in
  let dy := vy a - vy b in
  sqrtf (dx * dx + dy * dy).

(** [SCULPT_brush_test_cube]; [local] is the brush-local matrix.  Both
    divisions by [falloff_side] are checked. *)
Definition SCULPT_brush_test_cube (test : SculptBrushTest) (co : float3 F)
    (local : float4x4 F) (roundness : F) : checked (bool * SculptBrushTest) :=
  let side := fone in
  if sculpt_brush_test_clipping test co then Done (false, test)
  else
    let local_co := transform_point local co in
    let local_co := mk3 (fabs (vx local_co)) (fabs (vy local_co)) (fabs (vz local_co)) in
    let side := side + (fone - side) * roundness in
    let hardness := fone - roundness in
    let constant_side := hardness * side in
    let falloff_side := roundness * side in
    if negb ((vx local_co <=? side) && (vy local_co <=? side) && (vz local_co <=? side))
    then Done (false, test)
    else if min_ff (vx local_co) (vy local_co) >? constant_side then
      let r_point := mk3 constant_side constant_side constant_side in
      match fdiv_checked (len_v2v2 r_point local_co) falloff_side with
      | Done d => Done (true, set_dist test d)
      | DivisionByZero => DivisionByZero
      end
    else if max_ff (vx local_co) (vy local_co) >? constant_side then
      match fdiv_checked (max_ff (vx local_co) (vy local_co) - constant_side) falloff_side with
      | Done d => Done (true, set_dist test d)
      | DivisionByZero => DivisionByZero
      end
    else Done (true, set_dist test fzero).
End BrushTest.

(* ------------------------------------------------------------------ *)
(** ** Hardness remap *)

Section Hardness.
Context {F : Type} `{FloatOps F}.
Local Open Scope fl_scope.

(** [sculpt_apply_hardness(cache, input_len)], on the two fields of the
    cache it reads: [cache.radius] and [cache.paint_brush.hardness]. *)
Definition sculpt_apply_hardness (cache_radius cache_hardness input_len : F) : F :=
  let hardness := cache_hardness in
  let p := input_len / cache_radius in
  if p <? hardness then fzero
  else if hardness =? fone then cache_radius
  else
    let p := (p - hardness) / (fone - hardness) in
    p * cache_radius.

(** [math::rcp] *)
Definition rcp (a : F) : F := fone / a.

(** [apply_hardness_to_distances(radius, hardness, distances)]: the
    array after the call *)
Definition apply_hardness_to_distances (radius hardness : F) (distances : list F) : list F :=
  if hardness =? fzero then distances
  else if hardness =? fone then map (fun _ => fzero) distances
  else
    let threshold := hardness * radius in
    let radius_inv := rcp radius in
    let hardness_inv_rcp := rcp (fone - hardness) in
    map (fun d =>
           if d <? threshold then fzero
           else
             let radius_factor := (d * radius_inv - hardness) * hardness_inv_rcp in
             radius_factor * radius)
        distances.
End Hardness.

(* ------------------------------------------------------------------ *)
(** ** Stroke cache, session and settings *)

Section Session.
Context {F : Type} `{FloatOps F}.
Local Open Scope fl_scope.

Variable RegionView3D : Type.
Variable View3D : Type.

(** [struct ViewContext], the two pointers read here *)
Record ViewContext : Type := mkVC { vc_rv3d : RegionView3D; vc_v3d : View3D }.

(** [struct StrokeCache], the fields the modelled functions read or
    write.  [flag] holds the [CLIP_X << axis] bits. *)
Record StrokeCache : Type := mkCache {
  true_location : float3 F;
  location : float3 F;
  true_initial_location : float3 F;
  initial_location : float3 F;
  true_view_normal : float3 F;
  view_normal : float3 F;
  grab_delta : float3 F;
  grab_delta_symmetry : float3 F;
  plane_offset : float3 F;
  radius : F;
  radius_squared : F;
  symmetry : Z;
  mirror_symmetry_pass : Z;
  radial_symmetry_pass : Z;
  tile_pass : Z;
  symm_rot_mat : rot_mat F;
  symm_rot_mat_inv : rot_mat F;
  flag : Z;
  clip_tolerance : float3 F;
  clip_mirror_mtx : float4x4 F;
  vc : ViewContext
}.

Definition set_location (cache : StrokeCache) (a : float3 F) : StrokeCache :=
  mkCache (true_location cache) a (true_initial_location cache) (initial_location cache)
    (true_view_normal cache) (view_normal cache) (grab_delta cache)
    (grab_delta_symmetry cache) (plane_offset cache) (radius cache)
    (radius_squared cache) (symmetry cache) (mirror_symmetry_pass cache)
    (radial_symmetry_pass cache) (tile_pass cache) (symm_rot_mat cache)
    (symm_rot_mat_inv cache) (flag cache) (clip_tolerance cache) (clip_mirror_mtx cache)
    (vc cache).

Definition set_initial_location (cache : StrokeCache) (a : float3 F) : StrokeCache :=
  mkCache (true_location cache) (location cache) (true_initial_location cache) a
    (true_view_normal cache) (view_normal cache) (grab_delta cache)
    (grab_delta_symmetry cache) (plane_offset cache) (radius cache)
    (radius_squared cache) (symmetry cache) (mirror_symmetry_pass cache)
    (radial_symmetry_pass cache) (tile_pass cache) (symm_rot_mat cache)
    (symm_rot_mat_inv cache) (flag cache) (clip_tolerance cache) (clip_mirror_mtx cache)
    (vc cache).

Definition set_view_normal (cache : StrokeCache) (a : float3 F) : StrokeCache :=
  mkCache (true_location cache) (location cache) (true_initial_location cache)
    (initial_location cache) (true_view_normal cache) a (grab_delta cache)
    (grab_delta_symmetry cache) (plane_offset cache) (radius cache)
    (radius_squared cache) (symmetry cache) (mirror_symmetry_pass cache)
    (radial_symmetry_pass cache) (tile_pass cache) (symm_rot_mat cache)
    (symm_rot_mat_inv cache) (flag cache) (clip_tolerance cache) (clip_mirror_mtx cache)
    (vc cache).

Definition set_grab_delta_symmetry (cache : StrokeCache) (a : float3 F) : StrokeCache :=
  mkCache (true_location cache) (location cache) (true_initial_location cache)
    (initial_location cache) (true_view_normal cache) (view_normal cache)
    (grab_delta cache) a (plane_offset cache) (radius cache) (radius_squared cache)
    (symmetry cache) (mirror_symmetry_pass cache) (radial_symmetry_pass cache)
    (tile_pass cache) (symm_rot_mat cache) (symm_rot_mat_inv cache) (flag cache)
    (clip_tolerance cache) (clip_mirror_mtx cache) (vc cache).

Definition set_plane_offset (cache : StrokeCache) (a : float3 F) : StrokeCache :=
  mkCache (true_location cache) (location cache) (true_initial_location cache)
    (initial_location cache) (true_view_normal cache) (view_normal cache)
    (grab_delta cache) (grab_delta_symmetry cache) a (radius cache)
    (radius_squared cache) (symmetry cache) (mirror_symmetry_pass cache)
    (radial_symmetry_pass cache) (tile_pass cache) (symm_rot_mat cache)
    (symm_rot_mat_inv cache) (flag cache) (clip_tolerance cache) (clip_mirror_mtx cache)
    (vc cache).

Definition set_symmetry (cache : StrokeCache) (a : Z) : StrokeCache :=
  mkCache (true_location cache) (location cache) (true_initial_location cache)
    (initial_location cache) (true_view_normal cache) (view_normal cache)
    (grab_delta cache) (grab_delta_symmetry cache) (plane_offset cache) (radius cache)
    (radius_squared cache) a (mirror_symmetry_pass cache) (radial_symmetry_pass cache)
    (tile_pass cache) (symm_rot_mat cache) (symm_rot_mat_inv cache) (flag cache)
    (clip_tolerance cache) (clip_mirror_mtx cache) (vc cache).

Definition set_mirror_symmetry_pass (cache : StrokeCache) (a : Z) : StrokeCache :=
  mkCache (true_location cache) (location cache) (true_initial_location cache)
    (initial_location cache) (true_view_normal cache) (view_normal cache)
    (grab_delta cache) (grab_delta_symmetry cache) (plane_offset cache) (radius cache)
    (radius_squared cache) (symmetry cache) a (radial_symmetry_pass cache)
    (tile_pass cache) (symm_rot_mat cache) (symm_rot_mat_inv cache) (flag cache)
    (clip_tolerance cache) (clip_mirror_mtx cache) (vc cache).

Definition set_radial_symmetry_pass (cache : StrokeCache) (a : Z) : StrokeCache :=
  mkCache (true_location cache) (location cache) (true_initial_location cache)
    (initial_location cache) (true_view_normal cache) (view_normal cache)
    (grab_delta cache) (grab_delta_symmetry cache) (plane_offset cache) (radius cache)
    (radius_squared cache) (symmetry cache) (mirror_symmetry_pass cache) a
    (tile_pass cache) (symm_rot_mat cache) (symm_rot_mat_inv cache) (flag cache)
    (clip_tolerance cache) (clip_mirror_mtx cache) (vc cache).

Definition set_tile_pass (cache : StrokeCache) (a : Z) : StrokeCache :=
  mkCache (true_location cache) (location cache) (true_initial_location cache)
    (initial_location cache) (true_view_normal cache) (view_normal cache)
    (grab_delta cache) (grab_delta_symmetry cache) (plane_offset cache) (radius cache)
    (radius_squared cache) (symmetry cache) (mirror_symmetry_pass cache)
    (radial_symmetry_pass cache) a (symm_rot_mat cache) (symm_rot_mat_inv cache)
    (flag cache) (clip_tolerance cache) (clip_mirror_mtx cache) (vc cache).

Definition set_symm_rot_mat (cache : StrokeCache) (a : rot_mat F) : StrokeCache :=
  mkCache (true_location cache) (location cache) (true_initial_location cache)
    (initial_location cache) (true_view_normal cache) (view_normal cache)
    (grab_delta cache) (grab_delta_symmetry cache) (plane_offset cache) (radius cache)
    (radius_squared cache) (symmetry cache) (mirror_symmetry_pass cache)
    (radial_symmetry_pass cache) (tile_pass cache) a (symm_rot_mat_inv cache)
    (flag cache) (clip_tolerance cache) (clip_mirror_mtx cache) (vc cache).

Definition set_symm_rot_mat_inv (cache : StrokeCache) (a : rot_mat F) : StrokeCache :=
  mkCache (true_location cache) (location cache) (true_initial_location cache)
    (initial_location cache) (true_view_normal cache) (view_normal cache)
    (grab_delta cache) (grab_delta_symmetry cache) (plane_offset cache) (radius cache)
    (radius_squared cache) (symmetry cache) (mirror_symmetry_pass cache)
    (radial_symmetry_pass cache) (tile_pass cache) (symm_rot_mat cache) a (flag cache)
    (clip_tolerance cache) (clip_mirror_mtx cache) (vc cache).

(** [struct SculptSession]: the stroke cache ([None] when there is no
    active stroke), the hover-state viewport and the hover cursor. *)
Record SculptSession : Type := mkSession {
  ss_cache : option StrokeCache;
  ss_rv3d : RegionView3D;
  ss_v3d : View3D;
  cursor_location : float3 F;
  cursor_radius : F
}.

(** [int[3]] *)
Record int3 : Type := mkint3 { i0 : Z; i1 : Z; i2 : Z }.

Definition int3_get (v : int3) (k : Z) : Z :=
  if (k =? 0)%Z then i0 v else if (k =? 1)%Z then i1 v else i2 v.

(** [struct Sculpt]: [flags] (axis locks), [paint.symmetry_flags]
    (tiling bits), [paint.tile_offset] and [radial_symm]. *)
Record Sculpt : Type := mkSculpt {
  sd_flags : Z;
  paint_symmetry_flags : Z;
  paint_tile_offset : float3 F;
  radial_symm : int3
}.

(** [struct Object]: the bounding box of [BKE_object_boundbox_get] and
    the mesh symmetry of [SCULPT_mesh_symmetry_xyz_get]. *)
Record Object : Type := mkObject {
  bb_min : float3 F;
  bb_max : float3 F;
  mesh_symmetry_xyz : Z
}.
End Session.

Arguments StrokeCache F RegionView3D View3D : clear implicits.
Arguments SculptSession F RegionView3D View3D : clear implicits.
Arguments Sculpt F : clear implicits.
Arguments Object F : clear implicits.

(** [enum StrokeFlags { CLIP_X = 1, CLIP_Y = 2, CLIP_Z = 4 }] *)
Definition CLIP_X : Z := 1.

(** [a[i]] on an array held as a list; reading outside the array is
    undefined in C++, the default [d] stands for it. *)
Definition at_index {A : Type} (d : A) (a : list A) (i : Z) : A :=
  if (i <? 0)%Z then d else nth (Z.to_nat i) a d.

(** A loop over two arrays of one size, index by index. *)
Fixpoint zip_with {A B C : Type} (f : A -> B -> C) (a : list A) (b : list B) : list C :=
  match a, b with
  | x :: a', y :: b' => f x y :: zip_with f a' b'
  | _, _ => []
  end.

(* ------------------------------------------------------------------ *)
(** ** Factor pipeline stages *)

Section Factors.
Context {F : Type} `{FloatOps F}.
Local Open Scope fl_scope.

Variable RegionView3D : Type.
Variable View3D : Type.
Variable ED_view3d_clipping_test : RegionView3D -> float3 F -> bool.
(** The macro [RV3D_CLIPPING_ENABLED(v3d, rv3d)] *)
Variable RV3D_CLIPPING_ENABLED : View3D -> RegionView3D -> bool.
Variable rotate_point : Z -> F -> float3 F -> float3 F.

Abbreviation StrokeCache := (StrokeCache F RegionView3D View3D).
Abbreviation SculptSession := (SculptSession F RegionView3D View3D).

(** [fill_factor_from_hide_and_mask(mesh, verts, r_factors)]: the
    [".sculpt_mask"] and [".hide_vert"] attributes may be absent. *)
Definition fill_factor_from_hide_and_mask (mask : option (list F))
    (hide_vert : option (list bool)) (verts : list Z) : list F :=
  let r_factors :=
    match mask with
    | Some span => map (fun v => fone - at_index fzero span v) verts
    | None => map (fun _ => fone) verts
    end in
  match hide_vert with
  | Some span =>
      zip_with (fun v f => if at_index false span v then fzero else f) verts r_factors
  | None => r_factors
  end.

(** [calc_front_face(view_normal, vert_normals, verts, factors)] *)
Definition calc_front_face (view_normal : float3 F) (vert_normals : list (float3 F))
    (verts : list Z) (factors : list F) : list F :=
  zip_with (fun v f =>
              let d := dot view_normal (at_index v3_zero vert_normals v) in
              f * std_max d fzero)
           verts factors.

(** [filter_distances_with_radius(radius, distances, factors)] *)
Definition filter_distances_with_radius (radius : F) (distances : list F)
    (factors : list F) : list F :=
  zip_with (fun d f => if d >? radius then fzero else f) distances factors.

(** [filter_region_clip_factors(ss, positions, verts, factors)] *)
Definition filter_region_clip_factors (ss : SculptSession)
    (positions : list (float3 F)) (verts : list Z) (factors : list F) : list F :=
  let rv3d := match ss_cache ss with Some c => vc_rv3d (vc c) | None => ss_rv3d ss end in
  let v3d := match ss_cache ss with Some c => vc_v3d (vc c) | None => ss_v3d ss end in
  if negb (RV3D_CLIPPING_ENABLED v3d rv3d) then factors
  else
    let mirror_symmetry_pass :=
      match ss_cache ss with Some c => mirror_symmetry_pass c | None => 0%Z end in
    let radial_symmetry_pass :=
      match ss_cache ss with Some c => radial_symmetry_pass c | None => 0%Z end in
    let symm_rot_mat_inv :=
      match ss_cache ss with Some c => symm_rot_mat_inv c | None => RotIdentity end in
    zip_with (fun v f =>
                let symm_co :=
                  symmetry_flip (at_index v3_zero positions v) mirror_symmetry_pass in
                let symm_co :=
                  if truthy radial_symmetry_pass
                  then mul_m4_v3 rotate_point symm_rot_mat_inv symm_co
                  else symm_co in
                if ED_view3d_clipping_test rv3d symm_co then fzero else f)
             verts factors.

(** [std::sqrt] *)
Variable sqrtf : F -> F.

(** [SCULPT_brush_test_init(ss, test)]: the test is set up from the
    stroke cache, or from the hover cursor when there is none. *)
Definition SCULPT_brush_test_init (ss : SculptSession) : SculptBrushTest RegionView3D :=
  let rv3d := match ss_cache ss with Some c => vc_rv3d (vc c) | None => ss_rv3d ss end in
  let v3d := match ss_cache ss with Some c => vc_v3d (vc c) | None => ss_v3d ss end in
  let radius_squared :=
    match ss_cache ss with
    | Some c => radius_squared c
    | None => cursor_radius ss * cursor_radius ss
    end in
  mkTest radius_squared (sqrtf radius_squared)
    (match ss_cache ss with Some c => location c | None => cursor_location ss end)
    fzero
    (match ss_cache ss with Some c => mirror_symmetry_pass c | None => 0%Z end)
    (match ss_cache ss with Some c => radial_symmetry_pass c | None => 0%Z end)
    (match ss_cache ss with Some c => symm_rot_mat_inv c | None => RotIdentity end)
    (if RV3D_CLIPPING_ENABLED v3d rv3d then Some rv3d else None).
End Factors.

(* ------------------------------------------------------------------ *)
(** ** Node culling *)

Section Nodes.
Context {F : Type} `{FloatOps F}.
Local Open Scope fl_scope.

(** [Bounds<float3>] *)
Record Bounds : Type := mkBounds { bounds_min : float3 F; bounds_max : float3 F }.

(** [bke::pbvh::Node]: its current and its original bounding box *)
Record Node : Type := mkNode { node_bounds : Bounds; node_original_BB : Bounds }.

(** [node_in_sphere(node, location, radius_sq, original)] *)
Definition node_in_sphere (node : Node) (location : float3 F) (radius_sq : F)
    (original : bool) : bool :=
  let bounds := if original then node_original_BB node else node_bounds node in
  let nearest := v3_clamp location (bounds_min bounds) (bounds_max bounds) in
  distance_squared location nearest <? radius_sq.

(** [DistRayAABB_Precalc] and [dist_squared_ray_to_aabb_v3] belong to
    the math library. *)
Variable DistRayAABB_Precalc : Type.
Variable dist_squared_ray_to_aabb_v3 : DistRayAABB_Precalc -> float3 F -> float3 F -> F.

(** [node_in_cylinder(ray_dist_precalc, node, radius_sq, original)] *)
Definition node_in_cylinder (ray_dist_precalc : DistRayAABB_Precalc) (node : Node)
    (radius_sq : F) (original : bool) : bool :=
  let bounds := if original then node_original_BB node else node_bounds node in
  let dist_sq :=
    dist_squared_ray_to_aabb_v3 ray_dist_precalc (bounds_min bounds) (bounds_max bounds) in
  (dist_sq <? radius_sq) || true.
End Nodes.

Arguments Bounds F : clear implicits.
Arguments Node F : clear implicits.

(* ------------------------------------------------------------------ *)
(** ** Axis locking and mirror clipping of translations *)

Section ClipAndLock.
Context {F : Type} `{FloatOps F}.
Local Open Scope fl_scope.

Variable RegionView3D : Type.
Variable View3D : Type.
Abbreviation SculptSession := (SculptSession F RegionView3D View3D).

(** [math::invert] on a [float4x4] *)
Variable invert : float4x4 F -> float4x4 F.

(** The bit [SCULPT_LOCK_X] of [Sculpt::flags] *)
Variable SCULPT_LOCK_X : Z.

(** The body of the inner loop: one vertex, one clipped axis. *)
Definition clip_translation_axis (mirror mirror_inverse : float4x4 F)
    (clip_tolerance : float3 F) (axis : Z) (position translation : float3 F) : float3 F :=
  let co_mirror := transform_point mirror position in
  if fabs (v3_get co_mirror axis) >? v3_get clip_tolerance axis then translation
  else
    let co_mirror := v3_set co_mirror axis fzero in
    let co_local := transform_point mirror_inverse co_mirror in
    v3_set translation axis (v3_get co_local axis - v3_get position axis).

(** One iteration of [for (const int axis : IndexRange(3))], on the
    vertices listed in [verts]. *)
Definition clip_and_lock_axis (sd : Sculpt F) (cache : StrokeCache F RegionView3D View3D)
    (positions : list (float3 F)) (verts : list Z) (axis : Z)
    (translations : list (float3 F)) : list (float3 F) :=
  if truthy (Z.land (sd_flags sd) (Z.shiftl SCULPT_LOCK_X axis))
  then map (fun translation => v3_set translation axis fzero) translations
  else if negb (truthy (Z.land (flag cache) (Z.shiftl CLIP_X axis)))
  then translations
  else
    let mirror := clip_mirror_mtx cache in
    let mirror_inverse := invert mirror in
    zip_with (fun vert translation =>
                clip_translation_axis mirror mirror_inverse (clip_tolerance cache) axis
                  (at_index v3_zero positions vert) translation)
             verts translations.

(** [clip_and_lock_translations(sd, ss, positions, verts, translations)]:
    the translations after the call *)
Definition clip_and_lock_translations (sd : Sculpt F) (ss : SculptSession)
    (positions : list (float3 F)) (verts : list Z)
    (translations : list (float3 F)) : list (float3 F) :=
  match ss_cache ss with
  | None => translations
  | Some cache =>
      fold_left (fun translations axis =>
                   clip_and_lock_axis sd cache positions verts axis translations)
                [0; 1; 2]%Z translations
  end.

(** The overload without [verts]: [positions] and [translations] run in
    parallel. *)
Definition clip_and_lock_axis_all (sd : Sculpt F) (cache : StrokeCache F RegionView3D View3D)
    (positions : list (float3 F)) (axis : Z)
    (translations : list (float3 F)) : list (float3 F) :=
  if truthy (Z.land (sd_flags sd) (Z.shiftl SCULPT_LOCK_X axis))
  then map (fun translation => v3_set translation axis fzero) translations
  else if negb (truthy (Z.land (flag cache) (Z.shiftl CLIP_X axis)))
  then translations
  else
    let mirror := clip_mirror_mtx cache in
    let mirror_inverse := invert mirror in
    zip_with (fun position translation =>
                clip_translation_axis mirror mirror_inverse (clip_tolerance cache) axis
                  position translation)
             positions translations.

Definition clip_and_lock_translations_all (sd : Sculpt F) (ss : SculptSession)
    (positions : list (float3 F)) (translations : list (float3 F)) : list (float3 F) :=
  match ss_cache ss with
  | None => translations
  | Some cache =>
      fold_left (fun translations axis =>
                   clip_and_lock_axis_all sd cache positions axis translations)
                [0; 1; 2]%Z translations
  end.
End ClipAndLock.

(* ------------------------------------------------------------------ *)
(** ** Vertex neighbours *)

(** [Vector::append_non_duplicates] *)
Definition append_non_duplicates (v : list Z) (x : Z) : list Z :=
  if existsb (Z.eqb x) v then v else v ++ [x].

(** [Vector::remove_if]: the elements the predicate rejects are kept, in
    their order. *)
Definition remove_if {A : Type} (predicate : A -> bool) (v : list A) : list A :=
  filter (fun x => negb (predicate x)) v.

(** [Vector::size] *)
Definition size {A : Type} (v : list A) : Z := Z.of_nat (length v).

Section MeshNeighbors.
(** [IndexRange] *)
Record IndexRange : Type := mkRange { range_start : Z; range_size : Z }.

(** [bke::mesh::face_find_adjacent_verts(face, corner_verts, vert)]:
    the two vertices next to [vert] around the face *)
Variable face_find_adjacent_verts : IndexRange -> list Z -> Z -> Z * Z.

(** [faces[face]] for [OffsetIndices<int> faces] *)
Definition face_range (faces : list Z) (face : Z) : IndexRange :=
  let start := at_index 0%Z faces face in
  mkRange start (at_index 0%Z faces (face + 1) - start).

(** [vert_neighbors_get_mesh]: [r_neighbors] after the call (it is
    cleared first) *)
Definition vert_neighbors_get_mesh (vert : Z) (faces : list Z) (corner_verts : list Z)
    (vert_to_face : list (list Z)) (hide_poly : list bool) : list Z :=
  fold_left (fun r_neighbors face =>
               if negb (size hide_poly =? 0)%Z && at_index false hide_poly face
               then r_neighbors
               else
                 let verts :=
                   face_find_adjacent_verts (face_range faces face) corner_verts vert in
                 append_non_duplicates (append_non_duplicates r_neighbors (fst verts))
                                       (snd verts))
            (at_index [] vert_to_face vert) [].

(** [calc_vert_neighbors_interior], plain mesh: [result], one vector per
    entry of [verts] *)
Definition calc_vert_neighbors_interior (faces : list Z) (corner_verts : list Z)
    (vert_to_face : list (list Z)) (boundary_verts : list bool) (hide_poly : list bool)
    (verts : list Z) : list (list Z) :=
  map (fun vert =>
         let neighbors :=
           vert_neighbors_get_mesh vert faces corner_verts vert_to_face hide_poly in
         if at_index false boundary_verts vert then
           if (size neighbors =? 2)%Z then []
           else remove_if (fun vert => negb (at_index false boundary_verts vert)) neighbors
         else neighbors)
      verts.
End MeshNeighbors.

Section BMeshNeighbors.
(** The half-edge mesh: vertices and loops are pointers; a vertex
    gives the loops around it ([BM_LOOPS_OF_VERT]), a loop the vertices
    of its neighbours [l->prev->v] and [l->next->v]. *)
Variable BMVert : Type.
Variable BMLoop : Type.
Variable BMVert_eqb : BMVert -> BMVert -> bool.
Variable loops_of_vert : BMVert -> list BMLoop.
Variable loop_prev_v : BMLoop -> BMVert.
Variable loop_next_v : BMLoop -> BMVert.
Variable BM_vert_is_boundary : BMVert -> bool.

(** The loop shared by [vert_neighbors_get_bmesh] and
    [vert_neighbors_get_interior_bmesh]: the vertices are appended to the
    vector the caller passes, repeats included. *)
Definition append_loop_neighbors (vert : BMVert) (neighbors : list BMVert) : list BMVert :=
  fold_left (fun neighbors l =>
               fold_left (fun neighbors other_vert =>
                            if negb (BMVert_eqb other_vert vert)
                            then neighbors ++ [other_vert]
                            else neighbors)
                         [loop_prev_v l; loop_next_v l] neighbors)
            (loops_of_vert vert) neighbors.

(** [vert_neighbors_get_bmesh] *)
Definition vert_neighbors_get_bmesh (vert : BMVert) (neighbors : list BMVert) : list BMVert :=
  append_loop_neighbors vert neighbors.

(** [vert_neighbors_get_interior_bmesh] *)
Definition vert_neighbors_get_interior_bmesh (vert : BMVert) (neighbors : list BMVert)
    : list BMVert :=
  let neighbors := append_loop_neighbors vert neighbors in
  if BM_vert_is_boundary vert then
    if (size neighbors =? 2)%Z then []
    else remove_if (fun vert => negb (BM_vert_is_boundary vert)) neighbors
  else neighbors.

(** [calc_vert_neighbors_interior], dynamic topology: [neighbor_data] is
    cleared before every vertex. *)
Definition calc_vert_neighbors_interior_bmesh (verts : list BMVert) : list (list BMVert) :=
  map (fun vert => vert_neighbors_get_interior_bmesh vert []) verts.
End BMeshNeighbors.

(* ------------------------------------------------------------------ *)
(** ** The symmetry, radial and tiling driver *)

(** [for (k = first; k <= last; k++)] *)
Definition for_range {St : Type} (first last : Z) (body : Z -> St -> St) (s : St) : St :=
  fold_left (fun s k => body (first + Z.of_nat k)%Z s)
            (seq 0 (Z.to_nat (last - first + 1))) s.

Section Driver.
Context {F : Type} `{FloatOps F}.
Local Open Scope fl_scope.

Variable RegionView3D : Type.
Variable View3D : Type.
Abbreviation StrokeCache := (StrokeCache F RegionView3D View3D).

Variable rotate_point : Z -> F -> float3 F -> float3 F.
(** The angle of radial pass [i] of [count],
    [2.0f * M_PI * i / sd.radial_symm[axis - 'X']]: [M_PI] is a [double]
    constant, so C++ evaluates the expression in [double] and converts the
    result to [float] once.  Double arithmetic is not part of the [float]
    interface: the angle is a parameter, applied to [i] and [count]. *)
Variable radial_angle : Z -> Z -> F.
(** The bit [PAINT_TILE_X] of [Paint::symmetry_flags] *)
Variable PAINT_TILE_X : Z.

(** The state the driver threads through: the stroke cache and the log
    of brush-action invocations, oldest first.  An invocation is logged
    as the stroke cache the action was called with. *)
Record DriverState : Type := mkDriver { cache : StrokeCache; trace : list StrokeCache }.

(** [action(scene, sd, ob, brush, ups, paint_mode_settings)]: the brush
    action reads the pass identifiers of the cache and leaves them as
    they are. *)
Definition action (st : DriverState) : DriverState :=
  mkDriver (cache st) (trace st ++ [cache st]).

(** [SCULPT_cache_calc_brushdata_symm(cache, symm, axis, angle)] on the
    modelled fields; [last_location], [initial_normal], the gravity
    direction and the rake rotation, which it flips in the same way, are
    left out. *)
Definition SCULPT_cache_calc_brushdata_symm (cache : StrokeCache) (symm : Z) (axis : Z)
    (angle : F) : StrokeCache :=
  let cache := set_location cache (symmetry_flip (true_location cache) symm) in
  let cache := set_grab_delta_symmetry cache (symmetry_flip (grab_delta cache) symm) in
  let cache := set_view_normal cache (symmetry_flip (true_view_normal cache) symm) in
  let cache :=
    set_initial_location cache (symmetry_flip (true_initial_location cache) symm) in
  let cache := set_symm_rot_mat cache RotIdentity in
  let cache := set_symm_rot_mat_inv cache RotIdentity in
  let cache := set_plane_offset cache v3_zero in
  let cache :=
    if truthy axis then
      let cache := set_symm_rot_mat cache (rotate_m4 (symm_rot_mat cache) axis angle) in
      set_symm_rot_mat_inv cache (rotate_m4 (symm_rot_mat_inv cache) axis (- angle))
    else cache in
  let cache :=
    set_location cache (mul_m4_v3 rotate_point (symm_rot_mat cache) (location cache)) in
  set_grab_delta_symmetry cache
    (mul_m4_v3 rotate_point (symm_rot_mat cache) (grab_delta_symmetry cache)).

(** [start[dim]] and [end[dim]] of [do_tiled] *)
Definition tile_bounds (sd : Sculpt F) (ob : Object F) (orgLoc : float3 F) (radius : F)
    (dim : Z) : Z * Z :=
  let step := paint_tile_offset sd in
  if truthy (Z.land (paint_symmetry_flags sd) (Z.shiftl PAINT_TILE_X dim))
     && (v3_get step dim >? fzero)
  then (ftrunc ((v3_get (bb_min ob) dim - v3_get orgLoc dim - radius) / v3_get step dim),
        ftrunc ((v3_get (bb_max ob) dim - v3_get orgLoc dim + radius) / v3_get step dim))
  else (0%Z, 0%Z).

(** The body of the innermost tile loop, at tile [cur]. *)
Definition do_tile (sd : Sculpt F) (orgLoc original_initial_location : float3 F)
    (cur0 cur1 cur2 : Z) (st : DriverState) : DriverState :=
  if (cur0 =? 0)%Z && (cur1 =? 0)%Z && (cur2 =? 0)%Z then st
  else
    let step := paint_tile_offset sd in
    let c := cache st in
    let c := set_tile_pass c (tile_pass c + 1)%Z in
    let offset := mk3 (fofZ cur0 * vx step) (fofZ cur1 * vy step) (fofZ cur2 * vz step) in
    let c := set_location c (v3_add offset orgLoc) in
    let c := set_plane_offset c offset in
    let c := set_initial_location c (v3_add offset original_initial_location) in
    action (mkDriver c (trace st)).

(** [do_tiled] *)
Definition do_tiled (sd : Sculpt F) (ob : Object F) (st : DriverState) : DriverState :=
  let radius := radius (cache st) in
  let orgLoc := location (cache st) in
  let original_initial_location := initial_location (cache st) in
  let b0 := tile_bounds sd ob orgLoc radius 0 in
  let b1 := tile_bounds sd ob orgLoc radius 1 in
  let b2 := tile_bounds sd ob orgLoc radius 2 in
  let st := action (mkDriver (set_tile_pass (cache st) 0%Z) (trace st)) in
  for_range (fst b0) (snd b0) (fun cur0 =>
    for_range (fst b1) (snd b1) (fun cur1 =>
      for_range (fst b2) (snd b2) (fun cur2 =>
        do_tile sd orgLoc original_initial_location cur0 cur1 cur2))) st.

(** The characters 'X', 'Y', 'Z' *)
Definition char_X : Z := 88.
Definition char_Y : Z := 89.
Definition char_Z : Z := 90.

(** [do_radial_symmetry] *)
Definition do_radial_symmetry (sd : Sculpt F) (ob : Object F) (symm : Z) (axis : Z)
    (st : DriverState) : DriverState :=
  let count := int3_get (radial_symm sd) (axis - char_X) in
  for_range 1 (count - 1) (fun i st =>
    let angle := radial_angle i count in
    let c := set_radial_symmetry_pass (cache st) i in
    let c := SCULPT_cache_calc_brushdata_symm c symm axis angle in
    do_tiled sd ob (mkDriver c (trace st))) st.

(** One iteration of the loop over the mirror combinations in
    [do_symmetrical_brush_actions]. *)
Definition mirror_iteration (sd : Sculpt F) (ob : Object F) (symm i : Z)
    (st : DriverState) : DriverState :=
  if negb (SCULPT_is_symmetry_iteration_valid i symm) then st
  else
    let c := set_mirror_symmetry_pass (cache st) i in
    let c := set_radial_symmetry_pass c 0%Z in
    let c := SCULPT_cache_calc_brushdata_symm c i 0%Z fzero in
    let st := do_tiled sd ob (mkDriver c (trace st)) in
    let st := do_radial_symmetry sd ob i char_X st in
    let st := do_radial_symmetry sd ob i char_Y st in
    do_radial_symmetry sd ob i char_Z st.

(** [do_symmetrical_brush_actions]; the feather and the brush strength,
    computed before the loop, do not take part in the enumeration. *)
Definition do_symmetrical_brush_actions (sd : Sculpt F) (ob : Object F)
    (st : DriverState) : DriverState :=
  let symm := mesh_symmetry_xyz ob in
  let st := mkDriver (set_symmetry (cache st) symm) (trace st) in
  for_range 0 symm (mirror_iteration sd ob symm) st.
End Driver.

(* ------------------------------------------------------------------ *)
(** ** A concrete matrix inverse *)

Section Inverse.
Context {F : Type} `{FloatOps F}.
Local Open Scope fl_scope.

(** The list without its [j]-th element. *)
Fixpoint drop_nth {A : Type} (j : nat) (l : list A) : list A :=
  match l, j with
  | [], _ => []
  | _ :: l', O => l'
  | x :: l', S j' => x :: drop_nth j' l'
  end.

Definition sign (j : nat) (a : F) : F := if Nat.even j then a else - a.

(** Laplace expansion along the first row of an [n] x [n] matrix held
    as a list of rows. *)
Fixpoint det (n : nat) (m : list (list F)) : F :=
  match n, m with
  | S n', row :: rest =>
      fold_left fadd
        (map (fun j => sign j (nth j row fzero * det n' (map (drop_nth j) rest)))
             (seq 0 (S n')))
        fzero
  | _, _ => fone
  end.

Definition rows_of (m : float4x4 F) : list (list F) :=
  [ [qx (col0 m); qx (col1 m); qx (col2 m); qx (col3 m)];
    [qy (col0 m); qy (col1 m); qy (col2 m); qy (col3 m)];
    [qz (col0 m); qz (col1 m); qz (col2 m); qz (col3 m)];
    [qw (col0 m); qw (col1 m); qw (col2 m); qw (col3 m)] ].

(** The cofactor of row [i], column [j]. *)
Definition cofactor (m : list (list F)) (i j : nat) : F :=
  sign (i + j) (det 3 (map (drop_nth j) (drop_nth i m))).

(** Modelled from the spec: [math::invert] belongs to the math library
    and is not part of the sources at hand; the spec only says that a point
    is transformed into mirror space and back.  The inverse is computed
    as the adjugate over the determinant: entry (row [i], column [j]) is
    the cofactor (j, i) divided by the determinant. *)
Definition invert_adjugate (m : float4x4 F) : float4x4 F :=
  let r := rows_of m in
  let d := det 4 r in
  let e i j := cofactor r j i / d in
  mkmat (mk4 (e 0 0) (e 1 0) (e 2 0) (e 3 0))%nat
        (mk4 (e 0 1) (e 1 1) (e 2 1) (e 3 1))%nat
        (mk4 (e 0 2) (e 1 2) (e 2 2) (e 3 2))%nat
        (mk4 (e 0 3) (e 1 3) (e 2 3) (e 3 3))%nat.
End Inverse.

(* ------------------------------------------------------------------ *)
(** ** Symmetry queries *)

Section SymmetryQueries.
Context {F : Type} `{FloatOps F}.
Local Open Scope fl_scope.

(** [SCULPT_stroke_is_main_symmetry_pass] *)
Definition SCULPT_stroke_is_main_symmetry_pass {RegionView3D View3D : Type}
    (cache : StrokeCache F RegionView3D View3D) : bool :=
  (mirror_symmetry_pass cache =? 0)%Z && (radial_symmetry_pass cache =? 0)%Z
  && (tile_pass cache =? 0)%Z.

(** [SCULPT_check_vertex_pivot_symmetry]: the loop over the three axes,
    [symm_it = 1 << i]. *)
Definition SCULPT_check_vertex_pivot_symmetry (vco pco : float3 F) (symm : Z) : bool :=
  for_range 0 2 (fun i (is_in_symmetry_area : bool) =>
    let symm_it := Z.shiftl 1 i in
    if truthy (Z.land symm symm_it) then
      let is_in_symmetry_area :=
        if v3_get pco i =? fzero then
          if v3_get vco i >? fzero then false else is_in_symmetry_area
        else is_in_symmetry_area in
      if v3_get vco i * v3_get pco i <? fzero then false else is_in_symmetry_area
    else is_in_symmetry_area) true.

(** [SCULPT_is_vertex_inside_brush_radius_symm]: the loop over the
    combinations [0 .. symm]; the state of the loop is whether it has been
    left by [return true]. *)
Definition SCULPT_is_vertex_inside_brush_radius_symm (vertex br_co : float3 F) (radius : F)
    (symm : Z) : bool :=
  for_range 0 symm (fun i (returned : bool) =>
    if returned then true
    else if negb (SCULPT_is_symmetry_iteration_valid i symm) then false
    else
      let location := symmetry_flip br_co i in
      distance_squared location vertex <? radius * radius) false.

(** [SCULPT_flip_v3_by_symm_area]; [symmarea] is tested with the bits
    [1 << i] of the symmetry flags. *)
Definition SCULPT_flip_v3_by_symm_area (vector : float3 F) (symm symmarea : Z)
    (pivot : float3 F) : float3 F :=
  for_range 0 2 (fun i (result : float3 F) =>
    let symm_it := Z.shiftl 1 i in
    if negb (truthy (Z.land symm symm_it)) then result
    else
      let result :=
        if truthy (Z.land symmarea symm_it) then symmetry_flip result symm_it else result in
      if v3_get pivot i <? fzero then symmetry_flip result symm_it else result) vector.
End SymmetryQueries.

(* ------------------------------------------------------------------ *)
(** ** Arrays written by index *)

(** [a[i] = x] on an array held as a list; writing outside the array is
    undefined in C++, here the array is left as it is. *)
Fixpoint set_nth {A : Type} (n : nat) (a : list A) (x : A) : list A :=
  match a, n with
  | [], _ => []
  | _ :: a', O => x :: a'
  | y :: a', S n' => y :: set_nth n' a' x
  end.

Definition set_index {A : Type} (a : list A) (i : Z) (x : A) : list A :=
  if (i <? 0)%Z then a else set_nth (Z.to_nat i) a x.

Section GatherScatter.
Context {T : Type}.
(** What a read outside [src] yields (undefined in C++). *)
Variable outside : T.

(** [gather_data_mesh(src, indices, dst)]: [dst] after the call; all of
    [dst] is written, its size being that of [indices]. *)
Definition gather_data_mesh (src : list T) (indices : list Z) : list T :=
  map (fun index => at_index outside src index) indices.

(** [scatter_data_mesh(src, indices, dst)]: [dst] after the call;
    [indices] and [src] run in parallel. *)
Definition scatter_data_mesh (src : list T) (indices : list Z) (dst : list T) : list T :=
  fold_left (fun dst p => set_index dst (fst p) (snd p)) (combine indices src) dst.
End GatherScatter.

Section Translations.
Context {F : Type} `{FloatOps F}.
Local Open Scope fl_scope.

(** [float3 * float] *)
Definition v3_scale (v : float3 F) (s : F) : float3 F :=
  mk3 (vx v * s) (vy v * s) (vz v * s).

(** [std::numeric_limits<float>::epsilon()], 2^-23 *)
Definition FLT_EPSILON : F := fone / fofZ 8388608.

(** [apply_translations(translations, verts, positions)]: [positions]
    after the call *)
Definition apply_translations (translations : list (float3 F)) (verts : list Z)
    (positions : list (float3 F)) : list (float3 F) :=
  fold_left (fun positions p =>
               let vert := fst p in
               set_index positions vert
                 (v3_add (at_index v3_zero positions vert) (snd p)))
            (combine verts translations) positions.

(** [translations_from_new_positions(new_positions, verts, old_positions,
    translations)]: [translations] after the call *)
Definition translations_from_new_positions (new_positions : list (float3 F))
    (verts : list Z) (old_positions : list (float3 F)) : list (float3 F) :=
  zip_with (fun new_position vert =>
              v3_sub new_position (at_index v3_zero old_positions vert))
           new_positions verts.

(** [project_translations(translations, plane)]: [translations] after
    the call *)
Definition project_translations (translations : list (float3 F)) (plane : float3 F)
    : list (float3 F) :=
  let len_sq := dot plane plane in
  if len_sq <? FLT_EPSILON then translations
  else
    let dot_factor := - rcp len_sq in
    map (fun translation =>
           v3_add translation (v3_scale (v3_scale plane (dot translation plane)) dot_factor))
        translations.

(** [plane_point_side_v3(plane, co)] of BLI_math_geom *)
Variable plane_point_side_v3 : float4 F -> float3 F -> F.

(** [filter_below_plane_factors(vert_positions, verts, plane, factors)] *)
Definition filter_below_plane_factors (vert_positions : list (float3 F)) (verts : list Z)
    (plane : float4 F) (factors : list F) : list F :=
  zip_with (fun vert factor =>
              if plane_point_side_v3 plane (at_index v3_zero vert_positions vert) <=? fzero
              then fzero else factor)
           verts factors.

(** [filter_above_plane_factors(vert_positions, verts, plane, factors)] *)
Definition filter_above_plane_factors (vert_positions : list (float3 F)) (verts : list Z)
    (plane : float4 F) (factors : list F) : list F :=
  zip_with (fun vert factor =>
              if plane_point_side_v3 plane (at_index v3_zero vert_positions vert) >? fzero
              then fzero else factor)
           verts factors.
End Translations.

(* ------------------------------------------------------------------ *)
(** ** Visibility, face sets and boundaries of the plain mesh *)

Section MeshQueries.
(** [BKE_subdiv_ccg_grid_to_face_index(subdiv_ccg, grid_index)] and the
    constant [SCULPT_FACE_SET_NONE] *)
Variable grid_to_face_index : Z -> Z.
Variable SCULPT_FACE_SET_NONE : Z.

(** [hide::vert_any_face_visible_get(ss, vertex)], case [Type::Mesh];
    [hide_poly] is [None] for the null pointer. *)
Definition vert_any_face_visible_get (hide_poly : option (list bool))
    (vert_to_face_map : list (list Z)) (vertex : Z) : bool :=
  match hide_poly with
  | None => true
  | Some hide_poly =>
      existsb (fun face => negb (at_index false hide_poly face))
              (at_index [] vert_to_face_map vertex)
  end.

(** [hide::vert_all_faces_visible_get(ss, vertex)], case [Type::Mesh] *)
Definition vert_all_faces_visible_get_mesh (hide_poly : option (list bool))
    (vert_to_face_map : list (list Z)) (vertex : Z) : bool :=
  match hide_poly with
  | None => true
  | Some hide_poly =>
      forallb (fun face => negb (at_index false hide_poly face))
              (at_index [] vert_to_face_map vertex)
  end.

(** [hide::vert_all_faces_visible_get(ss, vertex)], case [Type::Grids];
    [vertex.i / key.grid_area] is the division of C. *)
Definition vert_all_faces_visible_get_grids (hide_poly : option (list bool))
    (grid_area : Z) (vertex : Z) : bool :=
  match hide_poly with
  | None => true
  | Some hide_poly =>
      let grid_index := Z.quot vertex grid_area in
      let face_index := grid_to_face_index grid_index in
      negb (at_index false hide_poly face_index)
  end.

(** [hide::vert_all_faces_visible_get(hide_poly, vert_to_face_map,
    vert)] *)
Definition vert_all_faces_visible_get (hide_poly : list bool)
    (vert_to_face_map : list (list Z)) (vert : Z) : bool :=
  if (size hide_poly =? 0)%Z then true
  else forallb (fun face => negb (at_index false hide_poly face))
               (at_index [] vert_to_face_map vert).

(** [hide::vert_all_faces_visible_get(hide_poly, subdiv_ccg, vert)],
    [vert_grid_index] being [vert.grid_index] *)
Definition vert_all_faces_visible_get_ccg (hide_poly : list bool) (vert_grid_index : Z)
    : bool :=
  let face_index := grid_to_face_index vert_grid_index in
  at_index false hide_poly face_index.

(** [boundary::vert_is_boundary(hide_poly, vert_to_face_map, boundary,
    vert)] *)
Definition vert_is_boundary (hide_poly : list bool) (vert_to_face_map : list (list Z))
    (boundary : list bool) (vert : Z) : bool :=
  if negb (vert_all_faces_visible_get hide_poly vert_to_face_map vert) then true
  else at_index false boundary vert.

(** [face_set::vert_face_set_get(ss, vertex)], case [Type::Mesh] *)
Definition vert_face_set_get (face_sets : option (list Z))
    (vert_to_face_map : list (list Z)) (vertex : Z) : Z :=
  match face_sets with
  | None => SCULPT_FACE_SET_NONE
  | Some face_sets =>
      fold_left (fun face_set face_index =>
                   if (at_index 0 face_sets face_index >? face_set)%Z
                   then at_index 0%Z face_sets face_index
                   else face_set)
                (at_index [] vert_to_face_map vertex) 0%Z
  end.

(** [face_set::vert_has_face_set(vert_to_face_map, face_sets, vert,
    face_set)], which is also the case [Type::Mesh] of
    [vert_has_face_set(ss, vertex, face_set)] *)
Definition vert_has_face_set (vert_to_face_map : list (list Z))
    (face_sets : option (list Z)) (vert face_set : Z) : bool :=
  match face_sets with
  | None => (face_set =? SCULPT_FACE_SET_NONE)%Z
  | Some face_sets =>
      existsb (fun face => (at_index 0 face_sets face =? face_set)%Z)
              (at_index [] vert_to_face_map vert)
  end.

(** [face_set::vert_has_unique_face_set(vert_to_face_map, face_sets,
    vert)]: the state of the loop is the local [face_set] and whether the
    loop has been left by [return false]. *)
Definition vert_has_unique_face_set (vert_to_face_map : list (list Z))
    (face_sets : option (list Z)) (vert : Z) : bool :=
  match face_sets with
  | None => true
  | Some face_sets =>
      negb (snd (fold_left
                   (fun (st : Z * bool) face_index =>
                      let (face_set, returned_false) := st in
                      if returned_false then st
                      else if (face_set =? -1)%Z
                      then (at_index 0%Z face_sets face_index, false)
                      else if negb (at_index 0 face_sets face_index =? face_set)%Z
                      then (face_set, true)
                      else st)
                   (at_index [] vert_to_face_map vert) (-1, false)%Z))
  end.
End MeshQueries.

(* ------------------------------------------------------------------ *)
(** ** The nearest vertex *)

(** [threading::parallel_reduce(range, grain_size, identity, func,
    reduction)]: the scheduler cuts the range into consecutive chunks, runs
    [func] on every chunk from the identity and joins the results of
    neighbouring chunks with [reduction].  How the range is cut and in
    which order the results are joined is the scheduler's choice, kept here
    as a plan. *)
Inductive reduction_plan (A : Type) : Type :=
| Run (chunk : list A)
| Join (lhs rhs : reduction_plan A).

Fixpoint plan_range {A : Type} (plan : reduction_plan A) : list A :=
  match plan with
  | Run chunk => chunk
  | Join lhs rhs => plan_range lhs ++ plan_range rhs
  end.

Fixpoint parallel_reduce {A St : Type} (plan : reduction_plan A) (identity : St)
    (func : list A -> St -> St) (reduction : St -> St -> St) : St :=
  match plan with
  | Run chunk => func chunk identity
  | Join lhs rhs =>
      reduction (parallel_reduce lhs identity func reduction)
                (parallel_reduce rhs identity func reduction)
  end.

Section NearestVertex.
Context {F : Type} `{FloatOps F}.
Local Open Scope fl_scope.

(** [std::numeric_limits<float>::max()] *)
Variable FLT_MAX : F.

(** [bke::pbvh::Tree], [bke::pbvh::search_gather] and
    [bke::pbvh::node_unique_verts] belong to the tree library. *)
Variable Tree : Type.
Variable search_gather : Tree -> (Node F -> bool) -> list (Node F).
Variable node_unique_verts : Node F -> list Z.

(** [struct NearestData] *)
Record NearestData : Type := mkNearest { nearest_vert : Z; nearest_distance_sq : F }.

(** The function given to [parallel_reduce] *)
Definition nearest_in_range (vert_positions : list (float3 F)) (hide_vert : list bool)
    (location : float3 F) (range : list (Node F)) (nearest : NearestData) : NearestData :=
  fold_left (fun nearest node =>
    fold_left (fun nearest vert =>
      if negb (size hide_vert =? 0)%Z && at_index false hide_vert vert then nearest
      else
        let distance_sq :=
          distance_squared (at_index v3_zero vert_positions vert) location in
        if distance_sq <? nearest_distance_sq nearest
        then mkNearest vert distance_sq
        else nearest)
      (node_unique_verts node) nearest)
    range nearest.

(** The reduction given to [parallel_reduce] *)
Definition nearest_join (a b : NearestData) : NearestData :=
  if nearest_distance_sq a <? nearest_distance_sq b then a else b.

(** [nearest_vert_calc_mesh(pbvh, vert_positions, hide_vert, location,
    max_distance, use_original)]; [schedule] is the plan the scheduler
    makes for a range. *)
Definition nearest_vert_calc_mesh (schedule : list (Node F) -> reduction_plan (Node F))
    (pbvh : Tree) (vert_positions : list (float3 F)) (hide_vert : list bool)
    (location : float3 F) (max_distance : F) (use_original : bool) : option Z :=
  let max_distance_sq := max_distance * max_distance in
  let nodes :=
    search_gather pbvh
      (fun node => node_in_sphere node location max_distance_sq use_original) in
  if (size nodes =? 0)%Z then None
  else
    let nearest :=
      parallel_reduce (schedule nodes) (mkNearest (-1) FLT_MAX)
        (nearest_in_range vert_positions hide_vert location) nearest_join in
    Some (nearest_vert nearest).
End NearestVertex.

Arguments Run {A} chunk.
Arguments Join {A} lhs rhs.

(* ------------------------------------------------------------------ *)
(** ** The symmetry feather *)

Section Feather.
Context {F : Type} `{FloatOps F}.
Local Open Scope fl_scope.

Variable RegionView3D : Type.
Variable View3D : Type.
Abbreviation StrokeCache := (StrokeCache F RegionView3D View3D).

(** [axis_angle_to_mat3_single(mat, axis, angle)] followed by
    [mul_m3_v3(mat, v)]: the rotation of a point about an axis *)
Variable rotate_point : Z -> F -> float3 F -> float3 F.
Variable sqrtf : F -> F.
(** [2.0f * M_PI * i / sd.radial_symm[axis - 'X']], evaluated in [double]
    and converted to [float] once: the angle of radial pass [i] of [count] *)
Variable radial_angle : Z -> Z -> F.
(** The bit [PAINT_SYMMETRY_FEATHER] of [Paint::symmetry_flags] *)
Variable PAINT_SYMMETRY_FEATHER : Z.

(** [calc_overlap(cache, symm, axis, angle)] *)
Definition calc_overlap (cache : StrokeCache) (symm axis : Z) (angle : F) : F :=
  let mirror := symmetry_flip (true_location cache) symm in
  let mirror := if negb (axis =? 0)%Z then rotate_point axis angle mirror else mirror in
  let distsq := distance_squared mirror (true_location cache) in
  if distsq <=? fofZ 4 * radius_squared cache
  then (fofZ 2 * radius cache - sqrtf distsq) / (fofZ 2 * radius cache)
  else fzero.

(** [calc_radial_symmetry_feather(sd, cache, symm, axis)] *)
Definition calc_radial_symmetry_feather (sd : Sculpt F) (cache : StrokeCache)
    (symm axis : Z) : F :=
  let count := int3_get (radial_symm sd) (axis - char_X) in
  for_range 1 (count - 1) (fun i (overlap : F) =>
    let angle := radial_angle i count in
    overlap + calc_overlap cache symm axis angle) fzero.

(** [calc_symmetry_feather(sd, cache)] *)
Definition calc_symmetry_feather (sd : Sculpt F) (cache : StrokeCache) : F :=
  if negb (truthy (Z.land (paint_symmetry_flags sd) PAINT_SYMMETRY_FEATHER)) then fone
  else
    let symm := symmetry cache in
    let overlap :=
      for_range 0 symm (fun i (overlap : F) =>
        if negb (SCULPT_is_symmetry_iteration_valid i symm) then overlap
        else
          let overlap := overlap + calc_overlap cache i 0%Z fzero in
          let overlap := overlap + calc_radial_symmetry_feather sd cache i char_X in
          let overlap := overlap + calc_radial_symmetry_feather sd cache i char_Y in
          overlap + calc_radial_symmetry_feather sd cache i char_Z) fzero in
    fone / overlap.
End Feather.

(* ------------------------------------------------------------------ *)
(** ** Stroke identifiers *)

(** [SCULPT_stroke_id_next(ob)] on the field [ob.sculpt->stroke_id], an
    [unsigned char]: [uchar((int(stroke_id) + 1) & 255)] *)
Definition SCULPT_stroke_id_next (stroke_id : Z) : Z :=
  Z.land (stroke_id + 1) 255.

(* ------------------------------------------------------------------ *)
(** ** Mesh filters: the orientation of the axis constraints *)

(** [enum class FilterOrientation { Local, World, View }] *)
Inductive FilterOrientation : Type :=
| Orientation_Local
| Orientation_World
| Orientation_View.

Section FilterOrientationSpace.
Context {F : Type} `{FloatOps F}.
Local Open Scope fl_scope.

(** [math::transform_point(float3x3(m), v)]: the upper 3x3 block of the
    matrix applied to the vector *)
Definition transform_point_3x3 (m : float4x4 F) (v : float3 F) : float3 F :=
  mk3 (qx (col0 m) * vx v + qx (col1 m) * vy v + qx (col2 m) * vz v)
      (qy (col0 m) * vx v + qy (col1 m) * vy v + qy (col2 m) * vz v)
      (qz (col0 m) * vx v + qz (col1 m) * vy v + qz (col2 m) * vz v).

(** [struct filter::Cache], the fields of the orientation *)
Record FilterCache : Type := mkFilterCache {
  orientation : FilterOrientation;
  obmat : float4x4 F;
  obmat_inv : float4x4 F;
  viewmat : float4x4 F;
  viewmat_inv : float4x4 F;
  enabled_force_axis : list bool
}.

(** [filter::to_orientation_space(filter_cache, vector)] *)
Definition to_orientation_space (filter_cache : FilterCache) (vector : float3 F)
    : float3 F :=
  match orientation filter_cache with
  | Orientation_Local => vector
  | Orientation_World => transform_point_3x3 (obmat filter_cache) vector
  | Orientation_View =>
      let world_space := transform_point_3x3 (obmat filter_cache) vector in
      transform_point_3x3 (viewmat filter_cache) world_space
  end.

(** [filter::to_object_space(filter_cache, vector)] *)
Definition to_object_space (filter_cache : FilterCache) (vector : float3 F) : float3 F :=
  match orientation filter_cache with
  | Orientation_Local => vector
  | Orientation_World => transform_point_3x3 (obmat_inv filter_cache) vector
  | Orientation_View =>
      let world_space := transform_point_3x3 (viewmat_inv filter_cache) vector in
      transform_point_3x3 (obmat_inv filter_cache) world_space
  end.

(** [filter::zero_disabled_axis_components(filter_cache, vector)] *)
Definition zero_disabled_axis_components (filter_cache : FilterCache) (vector : float3 F)
    : float3 F :=
  let v := to_orientation_space filter_cache vector in
  let v :=
    for_range 0 2 (fun axis (v : float3 F) =>
      if negb (at_index false (enabled_force_axis filter_cache) axis)
      then v3_set v axis fzero
      else v) v in
  to_object_space filter_cache v.
End FilterOrientationSpace.

Arguments FilterCache F : clear implicits.

(* ------------------------------------------------------------------ *)
(** ** Fake neighbours *)

Section FakeNeighbors.
Context {F : Type} `{FloatOps F}.
Local Open Scope fl_scope.

(** The constants [FLT_MAX], [PBVH_REF_NONE] and [FAKE_NEIGHBOR_NONE] *)
Variable FLT_MAX : F.
Variable PBVH_REF_NONE : Z.
Variable FAKE_NEIGHBOR_NONE : Z.

(** The tree library, as for the nearest vertex, and
    [islands::vert_id_get(ss, vertex)], the island of a vertex *)
Variable Tree : Type.
Variable search_gather : Tree -> (Node F -> bool) -> list (Node F).
Variable node_unique_verts : Node F -> list Z.
Variable vert_id_get : Z -> Z.

(** [struct NearestVertexFakeNeighborData] *)
Record NearestVertexFakeNeighborData : Type := mkFakeNearest {
  nearest_vertex : Z;
  nearest_vertex_distance_sq : F;
  current_topology_id : Z
}.

(** [ss.fake_neighbors]: [fake_neighbor_index] is [None] for the null
    pointer. *)
Record FakeNeighbors : Type := mkFakeNeighbors {
  fake_neighbor_index : option (list Z);
  current_max_distance : F
}.

(** [do_fake_neighbor_search_task(ss, nearest_vertex_search_co,
    max_distance_sq, node, nvtd)] on the vertices of a plain mesh, where
    the index of a vertex is the vertex *)
Definition do_fake_neighbor_search_task (index : list Z) (positions : list (float3 F))
    (nearest_vertex_search_co : float3 F) (max_distance_sq : F) (node : Node F)
    (nvtd : NearestVertexFakeNeighborData) : NearestVertexFakeNeighborData :=
  fold_left (fun nvtd vd =>
    let vd_topology_id := vert_id_get vd in
    if negb (vd_topology_id =? current_topology_id nvtd)%Z
       && (at_index 0 index vd =? FAKE_NEIGHBOR_NONE)%Z
    then
      let distance_squared :=
        distance_squared (at_index v3_zero positions vd) nearest_vertex_search_co in
      if (distance_squared <? nearest_vertex_distance_sq nvtd)
         && (distance_squared <? max_distance_sq)
      then mkFakeNearest vd distance_squared (current_topology_id nvtd)
      else nvtd
    else nvtd)
    (node_unique_verts node) nvtd.

(** The reduction of [fake_neighbor_search] *)
Definition fake_neighbor_join (a b : NearestVertexFakeNeighborData)
    : NearestVertexFakeNeighborData :=
  if (nearest_vertex a =? PBVH_REF_NONE)%Z
  then mkFakeNearest (nearest_vertex b) (nearest_vertex_distance_sq b)
         (current_topology_id a)
  else if nearest_vertex_distance_sq b <? nearest_vertex_distance_sq a
  then mkFakeNearest (nearest_vertex b) (nearest_vertex_distance_sq b)
         (current_topology_id a)
  else a.

(** [fake_neighbor_search(ob, vertex, max_distance)] *)
Definition fake_neighbor_search (schedule : list (Node F) -> reduction_plan (Node F))
    (pbvh : Tree) (positions : list (float3 F)) (index : list Z) (vertex : Z)
    (max_distance : F) : Z :=
  let center := at_index v3_zero positions vertex in
  let max_distance_sq := max_distance * max_distance in
  let nodes :=
    search_gather pbvh (fun node => node_in_sphere node center max_distance_sq false) in
  if (size nodes =? 0)%Z then PBVH_REF_NONE
  else
    let nearest_vertex_search_co := at_index v3_zero positions vertex in
    let nvtd := mkFakeNearest (-1) FLT_MAX (vert_id_get vertex) in
    let nvtd :=
      parallel_reduce (schedule nodes) nvtd
        (fun range nvtd =>
           fold_left (fun nvtd node =>
                        do_fake_neighbor_search_task index positions
                          nearest_vertex_search_co max_distance_sq node nvtd)
                     range nvtd)
        fake_neighbor_join in
    nearest_vertex nvtd.

(** [fake_neighbor_add(ss, v_a, v_b)] on the array of fake neighbours *)
Definition fake_neighbor_add (index : list Z) (v_index_a v_index_b : Z) : list Z :=
  if (at_index 0 index v_index_a =? FAKE_NEIGHBOR_NONE)%Z
  then set_index (set_index index v_index_a v_index_b) v_index_b v_index_a
  else index.

(** [SCULPT_fake_neighbors_ensure(ob, max_dist)] on [ss.fake_neighbors],
    [totvert] being [SCULPT_vertex_count_get(ss)] *)
Definition SCULPT_fake_neighbors_ensure
    (schedule : list (Node F) -> reduction_plan (Node F)) (pbvh : Tree)
    (positions : list (float3 F)) (totvert : Z) (fake_neighbors : FakeNeighbors)
    (max_dist : F) : FakeNeighbors :=
  if match fake_neighbor_index fake_neighbors with Some _ => true | None => false end
     && (current_max_distance fake_neighbors =? max_dist)
  then fake_neighbors
  else
    let index := repeat FAKE_NEIGHBOR_NONE (Z.to_nat totvert) in
    let index :=
      for_range 0 (totvert - 1) (fun i (index : list Z) =>
        let from_v := i in
        if (at_index 0 index i =? FAKE_NEIGHBOR_NONE)%Z then
          let to_v := fake_neighbor_search schedule pbvh positions index from_v max_dist in
          if negb (to_v =? PBVH_REF_NONE)%Z
          then fake_neighbor_add index from_v to_v
          else index
        else index) index in
    mkFakeNeighbors (Some index) max_dist.
End FakeNeighbors.

(* ------------------------------------------------------------------ *)
(** ** Distances to a cube brush *)

Section CubeDistances.
Context {F : Type} `{FloatOps F}.
Local Open Scope fl_scope.

Variable RegionView3D : Type.
Variable View3D : Type.
Variable ED_view3d_clipping_test : RegionView3D -> float3 F -> bool.
Variable RV3D_CLIPPING_ENABLED : View3D -> RegionView3D -> bool.
Variable rotate_point : Z -> F -> float3 F -> float3 F.
Variable sqrtf : F -> F.
Variable FLT_MAX : F.

(** One vertex of the loop of [calc_brush_cube_distances]: the test, and
    the distances and factors written so far. *)
Definition cube_distance_step
    (mat : float4x4 F) (tip_roundness : F) (positions : list (float3 F))
    (st : checked (SculptBrushTest RegionView3D * list F * list F)) (p : Z * F)
    : checked (SculptBrushTest RegionView3D * list F * list F) :=
  match st with
  | DivisionByZero => DivisionByZero
  | Done (test, r_distances, factors) =>
      let vert := fst p in
      let factor := snd p in
      if factor =? fzero
      then Done (test, r_distances ++ [FLT_MAX], factors ++ [factor])
      else
        match SCULPT_brush_test_cube ED_view3d_clipping_test rotate_point sqrtf test
                (at_index v3_zero positions vert) mat tip_roundness with
        | DivisionByZero => DivisionByZero
        | Done (inside, test) =>
            let factor := if inside then factor else fzero in
            Done (test, r_distances ++ [test_dist test], factors ++ [factor])
        end
  end.

(** [calc_brush_cube_distances(ss, brush, mat, positions, verts,
    r_distances, factors)]: [r_distances] and [factors] after the call.
    The test is shared by all the vertices; after a failed test the
    distance written last is [test.dist], not [FLT_MAX]. *)
Definition calc_brush_cube_distances (ss : SculptSession F RegionView3D View3D)
    (tip_roundness : F) (mat : float4x4 F) (positions : list (float3 F))
    (verts : list Z) (factors : list F) : checked (list F * list F) :=
  let test := SCULPT_brush_test_init RV3D_CLIPPING_ENABLED sqrtf ss in
  match fold_left (cube_distance_step mat tip_roundness positions)
                  (combine verts factors) (Done (test, [], [])) with
  | Done (_, r_distances, factors) => Done (r_distances, factors)
  | DivisionByZero => DivisionByZero
  end.
End CubeDistances.

(* ------------------------------------------------------------------ *)
(** ** Boundary vertices of the base mesh *)

Section BoundaryInfo.
(** [array_utils::count_indices(indices, counts)] belongs to the
    array utilities. *)
Variable count_indices : list Z -> list Z -> list Z.

(** [boundary::ensure_boundary_info(object)] on
    [ss.vertex_info.boundary], a bit vector, with the base mesh given by its
    number of vertices, its edges and the edge of every face corner; the
    number of edges is the size of [edges]. *)
Definition ensure_boundary_info (boundary : list bool) (verts_num : Z)
    (edges : list (Z * Z)) (corner_edges : list Z) : list bool :=
  if negb (size boundary =? 0)%Z then boundary
  else
    let boundary := repeat false (Z.to_nat verts_num) in
    let adjacent_faces_edge_count :=
      count_indices corner_edges (repeat 0%Z (length edges)) in
    for_range 0 (size edges - 1) (fun e (boundary : list bool) =>
      if (at_index 0 adjacent_faces_edge_count e <? 2)%Z then
        let edge := at_index (0, 0)%Z edges e in
        let boundary := set_index boundary (fst edge) true in
        set_index boundary (snd edge) true
      else boundary) boundary.
End BoundaryInfo.

(* ================================================================== *)
(** * Vocabulary of the properties *)

(** ** The hardness remap *)

(** What the remap yields at raw distance [d] for a hardness strictly
    between 0 and 1. *)
Definition hardness_remapped (r h d y : Q) : Prop :=
  ((d < h * r)%Q -> (y == 0)%Q) /\
  ((h * r <= d)%Q -> (y == (d / r - h) / (1 - h) * r)%Q).

(** ** The cube test *)

(** The point in brush-local space with its coordinates made
    non-negative, as the cube test computes it. *)
Definition cube_local_co (local : float4x4 Q) (co : float3 Q) : float3 Q :=
  let l := transform_point local co in
  mk3 (Qabs (vx l)) (Qabs (vy l)) (Qabs (vz l)).

(** Inside the cube of side 1. *)
Definition in_unit_cube (p : float3 Q) : bool :=
  Qle_bool (vx p) 1 && Qle_bool (vy p) 1 && Qle_bool (vz p) 1.

(** ** Sessions *)

(** The viewport, the view and the symmetry state a session works with:
    those of the stroke cache when there is one. *)
Definition session_rv3d {F RegionView3D View3D : Type}
    (ss : SculptSession F RegionView3D View3D) : RegionView3D :=
  match ss_cache ss with Some c => vc_rv3d (vc c) | None => ss_rv3d ss end.

Definition session_v3d {F RegionView3D View3D : Type}
    (ss : SculptSession F RegionView3D View3D) : View3D :=
  match ss_cache ss with Some c => vc_v3d (vc c) | None => ss_v3d ss end.

Definition session_mirror_pass {F RegionView3D View3D : Type}
    (ss : SculptSession F RegionView3D View3D) : Z :=
  match ss_cache ss with Some c => mirror_symmetry_pass c | None => 0%Z end.

Definition session_radial_pass {F RegionView3D View3D : Type}
    (ss : SculptSession F RegionView3D View3D) : Z :=
  match ss_cache ss with Some c => radial_symmetry_pass c | None => 0%Z end.

Definition session_rot_inv {F RegionView3D View3D : Type}
    (ss : SculptSession F RegionView3D View3D) : rot_mat F :=
  match ss_cache ss with Some c => symm_rot_mat_inv c | None => RotIdentity end.

(** ** Normals *)

(** Unit length, by the squared length. *)
Definition unit_length (v : float3 Q) : Prop := (dot v v == 1)%Q.

(** ** Mirror clipping *)

(** The coordinate the clipped axis is moved to: the current position
    taken into mirror space, that axis set to 0, taken back. *)
Definition clipped_coordinate {F : Type} `{FloatOps F} {RegionView3D View3D : Type}
    (invert : float4x4 F -> float4x4 F) (cache : StrokeCache F RegionView3D View3D)
    (position : float3 F) (axis : Z) : F :=
  v3_get (transform_point (invert (clip_mirror_mtx cache))
            (v3_set (transform_point (clip_mirror_mtx cache) position) axis fzero))
         axis.

(** An arithmetic in which adding a difference back is exact, up to the
    equality [eqv]: [a + (b - a)] is [b]. *)
Definition add_sub_exact {F : Type} `{FloatOps F} (eqv : F -> F -> Prop) : Prop :=
  forall a b : F, eqv (fadd a (fsub b a)) b.

(** ** Invocation logs *)

(** The mirror/radial combination an invocation belongs to: the mirror
    pass, the axis of the radial rotation (0 without rotation) and the
    radial pass. *)
Definition pass_key {F RegionView3D View3D : Type} (c : StrokeCache F RegionView3D View3D)
    : Z * Z * Z :=
  (mirror_symmetry_pass c, rot_axis (symm_rot_mat c), radial_symmetry_pass c).

(** The mirror passes of the un-tiled invocations of a trace, in order. *)
Definition untiled_mirror_passes {F RegionView3D View3D : Type}
    (tr : list (StrokeCache F RegionView3D View3D)) : list Z :=
  map (@mirror_symmetry_pass F RegionView3D View3D)
      (filter (fun e => (tile_pass e =? 0)%Z) tr).

(** What [do_tiled] has appended so far: the un-tiled invocation [c0],
    then tiled ones of the same combination. *)
Definition tiled_so_far {F RegionView3D View3D : Type}
    (tr0 : list (StrokeCache F RegionView3D View3D))
    (c0 : StrokeCache F RegionView3D View3D) (st : @DriverState F RegionView3D View3D)
    : Prop :=
  exists tiles,
    trace st = tr0 ++ c0 :: tiles /\
    Forall (fun e => pass_key e = pass_key c0 /\ (0 < tile_pass e)%Z) tiles /\
    pass_key (cache st) = pass_key c0 /\
    (0 <= tile_pass (cache st))%Z.

Section PassVocabulary.
Context {F : Type}.
Variable RegionView3D : Type.
Variable View3D : Type.

Abbreviation event := (StrokeCache F RegionView3D View3D).

(** The axis of the radial rotation of an invocation, 0 without one. *)
Definition axis_of (e : event) : Z := rot_axis (symm_rot_mat e).

(** Two invocations of one mirror/radial combination. *)
Definition same_combination (e' e : event) : Prop :=
  mirror_symmetry_pass e' = mirror_symmetry_pass e /\
  axis_of e' = axis_of e /\
  radial_symmetry_pass e' = radial_symmetry_pass e.

(** The combination (mirror [m'], axis [x'], radial pass [r']) comes
    before (m, x, r) in the enumeration. *)
Definition key_before (m' x' r' m x r : Z) : Prop :=
  (m' < m \/ (m' = m /\ (x' < x \/ (x' = x /\ r' < r))))%Z.

Definition combination_before (e' e : event) : Prop :=
  key_before (mirror_symmetry_pass e') (axis_of e') (radial_symmetry_pass e')
             (mirror_symmetry_pass e) (axis_of e) (radial_symmetry_pass e).

(** Every invocation so far belongs to a combination before (m, x, r). *)
Definition below (tr : list event) (m x r : Z) : Prop :=
  forall e', In e' tr ->
    key_before (mirror_symmetry_pass e') (axis_of e') (radial_symmetry_pass e') m x r.

(** The un-tiled zero-rotation pass of mirror combination [m] is in the
    log. *)
Definition has_base_pass (tr : list event) (m : Z) : Prop :=
  exists e0, In e0 tr /\ mirror_symmetry_pass e0 = m /\
             radial_symmetry_pass e0 = 0%Z /\ tile_pass e0 = 0%Z.

(** Radial passes count from 1 and come with a rotation axis. *)
Definition well_formed (e : event) : Prop :=
  (0 <= axis_of e)%Z /\ (0 <= radial_symmetry_pass e)%Z /\
  (radial_symmetry_pass e = 0%Z -> axis_of e = 0%Z).

(** What holds of an invocation [e] given the invocations [l1] before
    it. *)
Definition event_ok (l1 : list event) (e : event) : Prop :=
  (tile_pass e = 0%Z -> forall e', In e' l1 -> combination_before e' e) /\
  (tile_pass e <> 0%Z ->
   exists e0, In e0 l1 /\ same_combination e0 e /\ tile_pass e0 = 0%Z) /\
  (forall e', In e' l1 -> combination_before e' e \/ same_combination e' e) /\
  well_formed e /\
  (radial_symmetry_pass e <> 0%Z -> has_base_pass l1 (mirror_symmetry_pass e)).

(** A log all of whose invocations are in order. *)
Definition trace_ok (tr : list event) : Prop :=
  forall l1 e l2, tr = l1 ++ e :: l2 -> event_ok l1 e.
End PassVocabulary.

Arguments axis_of {F RegionView3D View3D} e.
Arguments same_combination {F RegionView3D View3D} e' e.
Arguments combination_before {F RegionView3D View3D} e' e.
Arguments below {F RegionView3D View3D} tr m x r.
Arguments has_base_pass {F RegionView3D View3D} tr m.
Arguments well_formed {F RegionView3D View3D} e.
Arguments event_ok {F RegionView3D View3D} l1 e.
Arguments trace_ok {F RegionView3D View3D} tr.

(* ================================================================== *)
(** * Data of the examples *)

(** Rational and binary32 literals for the examples. *)
Definition q3 (a b c : Q) : float3 Q := mk3 a b c.
Definition b32 (z : Z) : SpecFloat.spec_float := B32.of_Z z.
Definition b3 (a b c : Z) : float3 SpecFloat.spec_float := mk3 (b32 a) (b32 b) (b32 c).

(** [m * 2^-k] in binary32; the division by a power of two is exact. *)
Definition b32_frac (m k : Z) : SpecFloat.spec_float := fdiv (b32 m) (b32 (2 ^ k)).

(** The rational number a finite binary32 value stands for. *)
Definition b32_value (f : SpecFloat.spec_float) : Q :=
  match f with
  | SpecFloat.S754_finite s m e =>
      let v := if (0 <=? e)%Z then inject_Z (Zpos m * 2 ^ e)
               else (Zpos m # Pos.pow 2 (Z.to_pos (- e))) in
      if s then Qopp v else v
  | _ => 0%Q
  end.

(** The mirror object of the examples is turned a quarter about Z:
    mirror-space x is local -y, mirror-space y is local x. *)
Definition quarter_turn {F : Type} `{FloatOps F} : float4x4 F :=
  mkmat (mk4 fzero fone fzero fzero)
        (mk4 (fopp fone) fzero fzero fzero)
        (mk4 fzero fzero fone fzero)
        (mk4 fzero fzero fzero fone).

(** A node whose bounding boxes are the single point [p]. *)
Definition point_node {F : Type} `{FloatOps F} (p : float3 F) : Node F :=
  mkNode (mkBounds p p) (mkBounds p p).

(** A brush test of radius 1 at the origin, in mirror pass [mirror],
    with viewport clipping on or off. *)
Definition origin_test {F : Type} `{FloatOps F} (mirror : Z) (clipping : bool)
    : SculptBrushTest unit :=
  mkTest fone fone v3_zero fzero mirror 0 RotIdentity (if clipping then Some tt else None).

Definition unit_test : SculptBrushTest unit := origin_test (F := Q) 0 false.

(** A viewport that clips the half-space x < 0, as a plane at x = 0
    does. *)
Definition clips_negative_x {F : Type} `{FloatOps F} (_ : unit) (p : float3 F) : bool :=
  fltb (vx p) fzero.

(** A stroke cache at rest at the origin, with the given mirror pass,
    clip flags, clip tolerance and mirror matrix. *)
Definition plain_cache {F : Type} `{FloatOps F} (mirror flag : Z) (tolerance : float3 F)
    (mirror_mtx : float4x4 F) : StrokeCache F unit unit :=
  mkCache v3_zero v3_zero v3_zero v3_zero (mk3 fzero fzero fone) (mk3 fzero fzero fone)
          v3_zero v3_zero v3_zero fone fone 0 mirror 0 0
          RotIdentity RotIdentity flag tolerance mirror_mtx (mkVC tt tt).

Definition hover_cache (mirror : Z) : StrokeCache Q unit unit :=
  plain_cache mirror 0 v3_zero identity4x4.

(** A session in the middle of a stroke, in mirror pass 1 (X). *)
Definition mirror_x_session : SculptSession Q unit unit :=
  mkSession (Some (hover_cache 1)) tt tt (q3 0 0 0) 1%Q.

(** A concrete corner lookup to stand for
    [bke::mesh::face_find_adjacent_verts]: the vertices before and after
    [vert] around the face, the face being the corners
    [start .. start + size - 1] of [corner_verts]. *)
Definition adjacent_in_face (face : IndexRange) (corner_verts : list Z) (vert : Z) : Z * Z :=
  let corners := firstn (Z.to_nat (range_size face))
                        (skipn (Z.to_nat (range_start face)) corner_verts) in
  let n := length corners in
  let k := fold_right (fun c found => if (fst c =? vert)%Z then snd c else found) 0%nat
                      (combine corners (seq 0 n)) in
  (nth ((k + n - 1) mod n) corners 0%Z, nth ((k + 1) mod n) corners 0%Z).

(** The loops around vertex 0 of a dynamic mesh, between the triangles
    (0,1,2) and (0,2,3): each loop as the pair of its previous and its next
    vertex. *)
Definition fan_loops (v : Z) : list (Z * Z) :=
  if (v =? 0)%Z then [(2, 1); (3, 2)]%Z else [].

(** A session with mirror clipping on X, the mirror object turned a
    quarter about Z. *)
Definition clip_x_session {F : Type} `{FloatOps F} (tolerance : F)
    : SculptSession F unit unit :=
  mkSession (Some (plain_cache 0 CLIP_X (mk3 tolerance fzero fzero) quarter_turn))
            tt tt v3_zero fone.

(** A mirror object moved along X by [s], and a session with mirror
    clipping on X about it. *)
Definition shifted_x {F : Type} `{FloatOps F} (s : F) : float4x4 F :=
  mkmat (mk4 fone fzero fzero fzero) (mk4 fzero fone fzero fzero)
        (mk4 fzero fzero fone fzero) (mk4 s fzero fzero fone).

Definition shifted_x_session {F : Type} `{FloatOps F} (s tolerance : F)
    : SculptSession F unit unit :=
  mkSession (Some (plain_cache 0 CLIP_X (mk3 tolerance fzero fzero) (shifted_x s)))
            tt tt v3_zero fone.

(** A session outside a stroke, the cursor at the origin. *)
Definition hover_session {F : Type} `{FloatOps F} : SculptSession F unit unit :=
  mkSession None tt tt v3_zero fone.

(** Settings without axis locks, tiling or radial repeats. *)
Definition unlocked {F : Type} `{FloatOps F} : Sculpt F :=
  mkSculpt 0 0 v3_zero (mkint3 1 1 1).

(** Tiling along X ([PAINT_TILE_X] is bit 4), tiles 2 apart, with the
    given radial counts; an object spanning [-1,1] on every axis. *)
Definition tiled_x_settings (counts : int3) : Sculpt Q :=
  mkSculpt 0 16 (q3 2 0 0) counts.

Definition mirrored_object (symm : Z) : Object Q :=
  mkObject (q3 (-1) (-1) (-1)) (q3 1 1 1) symm.

(** One step with X mirrored, two radial passes about X and tiling along
    X: twelve invocations, in four blocks of an un-tiled pass and its two
    tiled repeats. *)
(** The radial angles of the examples, with 355/113 for pi. *)
Definition demo_angle (i count : Z) : Q :=
  2 * (355 # 113) * inject_Z i / inject_Z count.


Definition demo_trace : list (StrokeCache Q unit unit) :=
  trace (do_symmetrical_brush_actions (fun _ _ p => p) demo_angle 16
           (tiled_x_settings (mkint3 2 1 1)) (mirrored_object 1)
           (mkDriver (hover_cache 0) [])).

(* ================================================================== *)
(** * Vocabulary and examples of the further properties *)

(** ** The symmetry area of a pivot *)

(** What [SCULPT_check_vertex_pivot_symmetry] asks of one enabled axis,
    for the coordinate [v] of the vertex and [p] of the pivot. *)
Definition axis_in_area (v p : Q) : bool :=
  negb (Qeq_bool p 0 && Qltb 0 v) && negb (Qltb (v * p) 0).

(** Bit [axis] of a symmetry bitmask. *)
Definition axis_enabled (symm axis : Z) : bool := truthy (Z.land symm (Z.shiftl 1 axis)).

(** ** Vectors up to the equality of rationals *)

(** Two rational vectors with equal components. *)
Definition v3_eq (a b : float3 Q) : Prop :=
  (vx a == vx b)%Q /\ (vy a == vy b)%Q /\ (vz a == vz b)%Q.

(** ** The nearest vertex *)

(** A vertex the search looks at: not hidden by [hide_vert]. *)
Definition vert_shown (hide_vert : list bool) (vert : Z) : bool :=
  negb (negb (size hide_vert =? 0)%Z && at_index false hide_vert vert).

(** The vertices of a list of nodes. *)
Definition verts_of_nodes {F : Type} (node_unique_verts : Node F -> list Z)
    (nodes : list (Node F)) : list Z :=
  flat_map node_unique_verts nodes.

(** What holds of the candidate [n] once the vertices [seen] have been
    looked at: no shown vertex among them is nearer, and the candidate is
    the initial one or one of them. *)
Definition nearest_so_far (FLT_MAX : Q) (vert_positions : list (float3 Q))
    (hide_vert : list bool) (location : float3 Q) (seen : list Z) (n : NearestData)
    : Prop :=
  (forall w, In w seen -> vert_shown hide_vert w = true ->
             (nearest_distance_sq n
              <= distance_squared (at_index v3_zero vert_positions w) location)%Q) /\
  ((nearest_vert n = (-1)%Z /\ nearest_distance_sq n = FLT_MAX) \/
   (In (nearest_vert n) seen /\ vert_shown hide_vert (nearest_vert n) = true /\
    nearest_distance_sq n
    = distance_squared (at_index v3_zero vert_positions (nearest_vert n)) location /\
    (nearest_distance_sq n < FLT_MAX)%Q)).

(** ** Square roots for the examples *)

(** The integer square root of the integer part, a lower approximation
    of the square root. *)
Definition floor_sqrt (x : Q) : Q := inject_Z (Z.sqrt (Qfloor x)).

(** ** The enumeration of the passes *)

(** The integers [first .. last], in order. *)
Definition Zrange (first last : Z) : list Z :=
  map (fun k => (first + Z.of_nat k)%Z) (seq 0 (Z.to_nat (last - first + 1))).

(** The combinations of the un-tiled invocations of a log, in order. *)
Definition untiled_keys {F RegionView3D View3D : Type}
    (tr : list (StrokeCache F RegionView3D View3D)) : list (Z * Z * Z) :=
  map (@pass_key F RegionView3D View3D) (filter (fun e => (tile_pass e =? 0)%Z) tr).

(** The radial passes of mirror combination [m] about [axis]:
    [1 .. count - 1]. *)
Definition radial_keys (m axis count : Z) : list (Z * Z * Z) :=
  map (fun k => (m, axis, k)) (Zrange 1 (count - 1)).

(** The passes of mirror combination [m]: the one without rotation, then
    the radial passes about 'X', about 'Y' and about 'Z'. *)
Definition combination_keys (counts : int3) (m : Z) : list (Z * Z * Z) :=
  (m, 0%Z, 0%Z) :: radial_keys m char_X (i0 counts) ++ radial_keys m char_Y (i1 counts)
                ++ radial_keys m char_Z (i2 counts).

(** The mirror combinations of [0 .. symm] the validity test accepts. *)
Definition valid_combinations (symm : Z) : list Z :=
  filter (fun i => SCULPT_is_symmetry_iteration_valid i symm) (Zrange 0 symm).

(** ** Tile passes *)

(** The tile passes of a log count up: the first invocation is un-tiled
    and every other one is un-tiled or has the tile pass after that of the
    invocation before it. *)
Definition tile_passes_count_up {F RegionView3D View3D : Type}
    (tr : list (StrokeCache F RegionView3D View3D)) : Prop :=
  (forall e l, tr = e :: l -> tile_pass e = 0%Z) /\
  (forall l1 e1 e2 l2, tr = l1 ++ e1 :: e2 :: l2 ->
     tile_pass e2 = 0%Z \/ tile_pass e2 = (tile_pass e1 + 1)%Z).

(** The log counts up and the cache carries the tile pass of the last
    invocation. *)
Definition counted {F RegionView3D View3D : Type}
    (s : @DriverState F RegionView3D View3D) : Prop :=
  tile_passes_count_up (trace s) /\
  (forall l e, trace s = l ++ [e] -> tile_pass (cache s) = tile_pass e).

(** ** Matrices that undo each other *)

(** The upper 3x3 blocks of [m] and [mi] are inverse to each other. *)
Definition inverse_3x3 (m mi : float4x4 Q) : Prop :=
  forall v, v3_eq (transform_point_3x3 m (transform_point_3x3 mi v)) v /\
            v3_eq (transform_point_3x3 mi (transform_point_3x3 m v)) v.

(** A filter cache in view orientation whose object and view matrices are
    the quarter turn about Z, with X and Z enabled. *)
Definition quarter_turn_filter_cache : FilterCache Q :=
  mkFilterCache Orientation_View quarter_turn (invert_adjugate quarter_turn)
    quarter_turn (invert_adjugate quarter_turn) [true; false; true].

(** What the loop of [zero_disabled_axis_components] leaves of a vector
    in orientation space. *)
Definition zero_disabled (enabled : list bool) (v : float3 Q) : float3 Q :=
  mk3 (if at_index false enabled 0 then vx v else 0%Q)
      (if at_index false enabled 1 then vy v else 0%Q)
      (if at_index false enabled 2 then vz v else 0%Q).

(** ** Fake neighbours *)

(** The fake neighbours come in pairs: the array has one entry per
    vertex, and a vertex [a] whose entry is a vertex [b] (not the marker -1)
    is itself the entry of [b], which lies in another island. *)
Definition fake_neighbors_paired (vert_id_get : Z -> Z) (totvert : Z) (index : list Z)
    : Prop :=
  size index = totvert /\
  forall a, (0 <= a < totvert)%Z ->
    let b := at_index 0%Z index a in
    b <> (-1)%Z ->
    (0 <= b < totvert)%Z /\ at_index 0%Z index b = a /\ vert_id_get b <> vert_id_get a.

(** ** The geometry of a pass *)

(** What a brush-action invocation [e] sees, in terms of the stroke cache
    [c] the input step started from: the view normal and the grab delta
    mirrored by the mirror pass (the grab delta rotated as well), the
    rotation and its inverse built from one axis and opposite angles, and the
    location and the initial location mirrored (the location rotated as well)
    and, in a tiled repeat, shifted by the plane offset of the tile. *)
Definition pass_geometry {F : Type} `{FloatOps F} {RegionView3D View3D : Type}
    (rotate_point : Z -> F -> float3 F -> float3 F)
    (c e : StrokeCache F RegionView3D View3D) : Prop :=
  let m := mirror_symmetry_pass e in
  let base := mul_m4_v3 rotate_point (symm_rot_mat e) (symmetry_flip (true_location c) m) in
  let initial := symmetry_flip (true_initial_location c) m in
  view_normal e = symmetry_flip (true_view_normal c) m /\
  grab_delta_symmetry e
  = mul_m4_v3 rotate_point (symm_rot_mat e) (symmetry_flip (grab_delta c) m) /\
  symm_rot_mat_inv e
  = match symm_rot_mat e with
    | RotIdentity => RotIdentity
    | Rotated axis angle => Rotated axis (fopp angle)
    end /\
  (tile_pass e = 0%Z ->
   location e = base /\ initial_location e = initial /\ plane_offset e = v3_zero) /\
  (tile_pass e <> 0%Z ->
   location e = v3_add (plane_offset e) base /\
   initial_location e = v3_add (plane_offset e) initial).

(** The fields of the cache a pass is identified and placed by; the
    tiles of a pass leave them as they are. *)
Definition pass_fields {F RegionView3D View3D : Type}
    (c : StrokeCache F RegionView3D View3D) :=
  (mirror_symmetry_pass c, symm_rot_mat c, symm_rot_mat_inv c, view_normal c,
   grab_delta_symmetry c,
   (true_location c, true_initial_location c, true_view_normal c, grab_delta c)).

(** The fields the driver reads and never writes. *)
Definition true_fields {F RegionView3D View3D : Type}
    (c : StrokeCache F RegionView3D View3D) :=
  (true_location c, true_initial_location c, true_view_normal c, grab_delta c).

(** The cache right after [SCULPT_cache_calc_brushdata_symm]: placed as
    the un-tiled invocation of its pass. *)
Definition at_pass_start {F : Type} `{FloatOps F} {RegionView3D View3D : Type}
    (rotate_point : Z -> F -> float3 F -> float3 F)
    (c0 c : StrokeCache F RegionView3D View3D) : Prop :=
  true_fields c = true_fields c0 /\
  pass_geometry rotate_point c0 (set_tile_pass c 0).

(** A stroke away from the origin, and one input step of it with X
    mirrored, two radial passes about X, where a rotation stands for a
    quarter turn about X, and tiling along X: eight invocations, in four
    blocks of an un-tiled pass and its tiled repeat. *)
Definition placed_cache : StrokeCache Q unit unit :=
  mkCache (q3 (1 # 2) (1 # 4) 0) v3_zero (q3 (1 # 4) (1 # 4) 0) v3_zero
          (q3 0 0 1) (q3 0 0 1) (q3 (1 # 8) 0 0) v3_zero v3_zero 1 1 0 0 0 0
          RotIdentity RotIdentity 0 v3_zero identity4x4 (mkVC tt tt).

Definition quarter_turn_x (axis : Z) (angle : Q) (p : float3 Q) : float3 Q :=
  mk3 (vx p) (- vz p) (vy p).

Definition placed_trace : list (StrokeCache Q unit unit) :=
  trace (do_symmetrical_brush_actions quarter_turn_x demo_angle 16
           (tiled_x_settings (mkint3 2 1 1)) (mirrored_object 1)
           (mkDriver placed_cache [])).

(** What [array_utils::count_indices] does, for the examples. *)
Definition count_occurrences (indices : list Z) (counts : list Z) : list Z :=
  fold_left (fun counts i => set_index counts i (at_index 0 counts i + 1)%Z) indices counts.

(** A tetrahedron without its base: the vertices 0, 1, 2 of the open
    base and the apex 3, the three edges of the base and the three to the
    apex, and the edges of the corners of the three faces at the apex. *)
Definition open_tetrahedron_edges : list (Z * Z) :=
  [(0, 1); (1, 2); (2, 0); (0, 3); (1, 3); (2, 3)]%Z.

Definition open_tetrahedron_corner_edges : list Z := [0; 4; 3; 1; 5; 4; 2; 3; 5]%Z.

(* ================================================================== *)
(** * Properties *)

Unset Implicit Arguments.

(** ** Comparisons of the rational instance *)

Lemma Qltb_lt (a b : Q) : Qltb a b = true <-> (a < b)%Q.
Proof.
  unfold Qltb. rewrite negb_true_iff. split.
  - intros Hle. apply Qnot_le_lt. intros Hba.
    apply Qle_bool_iff in Hba. congruence.
  - intros Hlt. destruct (Qle_bool b a) eqn:E; [|reflexivity].
    apply Qle_bool_iff in E. exfalso. apply (Qlt_not_le _ _ Hlt E).
Qed.

Lemma Qltb_ge (a b : Q) : Qltb a b = false <-> (b <= a)%Q.
Proof.
  unfold Qltb. rewrite negb_false_iff. apply Qle_bool_iff.
Qed.

Lemma Qle_bool_gt (a b : Q) : Qle_bool a b = false <-> (b < a)%Q.
Proof.
  rewrite <- Qltb_lt. unfold Qltb. rewrite negb_true_iff. reflexivity.
Qed.

Lemma Qeq_bool_false (a b : Q) : Qeq_bool a b = false <-> ~ (a == b)%Q.
Proof.
  split.
  - intros E Heq. apply Qeq_bool_iff in Heq. congruence.
  - intros Hne. destruct (Qeq_bool a b) eqn:E; [|reflexivity].
    apply Qeq_bool_iff in E. contradiction.
Qed.

(** Case analysis on the three comparisons, leaving the order facts in
    the context. *)
Ltac case_cmp :=
  match goal with
  | |- context [Qltb ?a ?b] =>
      let E := fresh "Hcmp" in
      destruct (Qltb a b) eqn:E;
      [apply Qltb_lt in E | apply Qltb_ge in E]
  | |- context [Qle_bool ?a ?b] =>
      let E := fresh "Hcmp" in
      destruct (Qle_bool a b) eqn:E;
      [apply Qle_bool_iff in E | apply Qle_bool_gt in E]
  | |- context [Qeq_bool ?a ?b] =>
      let E := fresh "Hcmp" in
      destruct (Qeq_bool a b) eqn:E;
      [apply Qeq_bool_iff in E | apply Qeq_bool_false in E]
  end.

(** Unfold the arithmetic interface at the rational instance. *)
Ltac q_ops :=
  cbn [fzero fone fadd fsub fmul fdiv fopp fabs fltb fleb feqb fofZ ftrunc Q_ops] in *.

(** ** C9: the cylinder test *)

(** C9. [node_in_cylinder] answers true for every node, radius and ray,
    whatever the distance between the ray and the bounding box: the
    comparison of that distance with the radius is or-ed with [true].
    This holds for any arithmetic, the binary32 one included. *)
Theorem node_in_cylinder_always_true :
  forall (F : Type) (ops : FloatOps F) (DistRayAABB_Precalc : Type)
         (dist_squared_ray_to_aabb_v3 : DistRayAABB_Precalc -> float3 F -> float3 F -> F)
         (ray_dist_precalc : DistRayAABB_Precalc) (node : Node F) (radius_sq : F)
         (original : bool),
    node_in_cylinder dist_squared_ray_to_aabb_v3 ray_dist_precalc node radius_sq original
    = true.
Proof.
  intros. unfold node_in_cylinder. apply orb_true_r.
Qed.

(** ** C1: the symmetry iteration test at bitmask 7 *)

(** At bitmask 7 the accepted combinations are not just 0, 1, 2 and 4:
    combination 3 (X and Y mirrored together) is accepted. *)
Lemma symmetry_7_accepts_3 :
  ~ (forall i : Z, (0 <= i <= 7)%Z ->
       (SCULPT_is_symmetry_iteration_valid i 7 = true <-> In i [0; 1; 2; 4]%Z)).
Proof.
  intros Hclaim.
  destruct (Hclaim 3%Z ltac:(lia)) as [Hin _].
  specialize (Hin eq_refl). simpl in Hin.
  repeat (destruct Hin as [Hin | Hin]; [discriminate Hin|]). exact Hin.
Qed.

(** The exclusions only act at bitmasks 5 and 6. *)
Lemma symmetry_valid_5 :
  map (fun i => SCULPT_is_symmetry_iteration_valid i 5) [0; 1; 2; 3; 4; 5]%Z
  = [true; true; false; false; true; true].
Proof. reflexivity. Qed.

Lemma symmetry_valid_6 :
  map (fun i => SCULPT_is_symmetry_iteration_valid i 6) [0; 1; 2; 3; 4; 5; 6]%Z
  = [true; false; true; false; true; false; true].
Proof. reflexivity. Qed.

Lemma symmetry_valid_7 (i : Z) :
  (0 <= i <= 7)%Z -> SCULPT_is_symmetry_iteration_valid i 7 = true.
Proof.
  intros Hi.
  assert (Hcases : (i = 0 \/ i = 1 \/ i = 2 \/ i = 3 \/ i = 4 \/ i = 5 \/ i = 6 \/ i = 7)%Z)
    by lia.
  repeat (destruct Hcases as [-> | Hcases]; [reflexivity|]). subst i. reflexivity.
Qed.

(** ** C2: the hardness remap *)

Lemma Qdiv_lt_iff (d r h : Q) : (0 < r)%Q -> (d / r < h)%Q <-> (d < h * r)%Q.
Proof.
  intros Hr.
  assert (Hd : (d / r * r == d)%Q) by (field; lra).
  rewrite <- (Qmult_lt_r (d / r) h r Hr). rewrite Hd. reflexivity.
Qed.

Lemma sculpt_apply_hardness_mid (r h d : Q) :
  (0 < r)%Q -> (0 < h)%Q -> (h < 1)%Q ->
  hardness_remapped r h d (sculpt_apply_hardness r h d).
Proof.
  intros Hr H0 H1. unfold hardness_remapped, sculpt_apply_hardness. q_ops.
  case_cmp.
  - apply Qdiv_lt_iff in Hcmp; [|exact Hr]. split; intros; [reflexivity | lra].
  - assert (Hge : (h * r <= d)%Q).
    { apply Qnot_lt_le. intros Hlt. apply Qdiv_lt_iff in Hlt; [|exact Hr]. lra. }
    case_cmp; [lra|]. split; intros; [lra | reflexivity].
Qed.

Lemma apply_hardness_mid (r h : Q) (ds : list Q) :
  (0 < r)%Q -> (0 < h)%Q -> (h < 1)%Q ->
  Forall2 (hardness_remapped r h) ds (apply_hardness_to_distances r h ds).
Proof.
  intros Hr H0 H1. unfold apply_hardness_to_distances. q_ops.
  case_cmp; [lra|]. case_cmp; [lra|].
  clear Hcmp Hcmp0. induction ds as [|d ds IH]; simpl; constructor; [|exact IH].
  unfold hardness_remapped, rcp. q_ops. case_cmp.
  - split; intros; [reflexivity | lra].
  - split; intros; [lra | field; lra].
Qed.

Lemma sculpt_apply_hardness_zero (r h d : Q) :
  (0 < r)%Q -> (h == 0)%Q -> (0 <= d)%Q -> (sculpt_apply_hardness r h d == d)%Q.
Proof.
  intros Hr Hh Hd. unfold sculpt_apply_hardness. q_ops. case_cmp.
  - apply Qdiv_lt_iff in Hcmp; [|exact Hr]. rewrite Hh in Hcmp. lra.
  - case_cmp; [lra|]. rewrite Hh. field. lra.
Qed.

Lemma sculpt_apply_hardness_one (r h d : Q) :
  (0 < r)%Q -> (h == 1)%Q ->
  ((d < r)%Q -> (sculpt_apply_hardness r h d == 0)%Q) /\
  ((r <= d)%Q -> (sculpt_apply_hardness r h d == r)%Q).
Proof.
  intros Hr Hh. unfold sculpt_apply_hardness. q_ops. case_cmp.
  - apply Qdiv_lt_iff in Hcmp; [|exact Hr]. rewrite Hh in Hcmp.
    split; intros; [reflexivity | lra].
  - assert (Hge : (r <= d)%Q).
    { apply Qnot_lt_le. intros Hlt.
      assert (Hlt' : (d / r < h)%Q) by (apply Qdiv_lt_iff; [exact Hr | rewrite Hh; lra]).
      lra. }
    case_cmp; [|contradiction]. split; intros; [lra | reflexivity].
Qed.

(** The scalar remap at hardness 1 does not give 0 for every [d <= r]: at
    [d = r = 2] it gives the radius. *)
Lemma hardness_one_at_radius :
  (2 <= 2)%Q /\ ~ (sculpt_apply_hardness (F := Q) 2 1 2 == 0)%Q.
Proof.
  split; [lra|]. vm_compute. discriminate.
Qed.

(** The same input in binary32: the result is 2.0f, while the array
    version gives 0.0f. *)
Lemma binary32_hardness_one :
  sculpt_apply_hardness (b32 2) (b32 1) (b32 2) = b32 2 /\
  apply_hardness_to_distances (b32 2) (b32 1) [b32 2] = [fzero].
Proof. split; vm_compute; reflexivity. Qed.

(** At hardness 0 the scalar remap computes [(d/r)*r]: in binary32 this
    can differ from [d] in the last bit (here d = 7, r = 13), while the
    array version returns the distances untouched. *)
Lemma binary32_hardness_zero_rounds :
  feqb (sculpt_apply_hardness (b32 13) fzero (b32 7)) (b32 7) = false /\
  apply_hardness_to_distances (b32 13) fzero [b32 7] = [b32 7].
Proof. split; vm_compute; reflexivity. Qed.

(** The cases of the two remaps as the code decides them, by its own
    tests on the computed values: this holds for any arithmetic. *)
Lemma hardness_remap_tests {F : Type} `{FloatOps F} (r h d : F) (ds : list F) :
  (feqb h fzero = true -> apply_hardness_to_distances r h ds = ds) /\
  (feqb h fzero = false -> feqb h fone = true ->
   apply_hardness_to_distances r h ds = map (fun _ => fzero) ds) /\
  (feqb h fzero = false -> feqb h fone = false ->
   apply_hardness_to_distances r h ds
   = map (fun d => if d <? h * r then fzero
                   else (d * rcp r - h) * rcp (fone - h) * r)%fl ds) /\
  (fltb (fdiv d r) h = true -> sculpt_apply_hardness r h d = fzero) /\
  (fltb (fdiv d r) h = false -> feqb h fone = true -> sculpt_apply_hardness r h d = r) /\
  (fltb (fdiv d r) h = false -> feqb h fone = false ->
   sculpt_apply_hardness r h d = ((d / r - h) / (fone - h) * r)%fl).
Proof.
  unfold apply_hardness_to_distances, sculpt_apply_hardness.
  split; [intros ->; reflexivity|].
  split; [intros -> ->; reflexivity|].
  split; [intros -> ->; reflexivity|].
  split; [intros ->; reflexivity|].
  split; intros -> ->; reflexivity.
Qed.

(** In exact arithmetic the tests are the comparisons of the distance
    with [h*r]. *)
Lemma hardness_remap_exact (r h d : Q) (ds : list Q) :
  (0 < r)%Q ->
  ((h == 0)%Q ->
     ((0 <= d)%Q -> (sculpt_apply_hardness r h d == d)%Q) /\
     apply_hardness_to_distances r h ds = ds) /\
  ((0 < h)%Q -> (h < 1)%Q ->
     hardness_remapped r h d (sculpt_apply_hardness r h d) /\
     Forall2 (hardness_remapped r h) ds (apply_hardness_to_distances r h ds)) /\
  ((h == 1)%Q ->
     ((d < r)%Q -> (sculpt_apply_hardness r h d == 0)%Q) /\
     ((r <= d)%Q -> (sculpt_apply_hardness r h d == r)%Q) /\
     apply_hardness_to_distances r h ds = map (fun _ => 0%Q) ds).
Proof.
  intros Hr. repeat split.
  - intros Hd. apply sculpt_apply_hardness_zero; assumption.
  - unfold apply_hardness_to_distances. q_ops. case_cmp; [reflexivity | contradiction].
  - apply sculpt_apply_hardness_mid; assumption.
  - apply sculpt_apply_hardness_mid; assumption.
  - apply apply_hardness_mid; assumption.
  - apply sculpt_apply_hardness_one; assumption.
  - apply sculpt_apply_hardness_one; assumption.
  - unfold apply_hardness_to_distances. q_ops.
    case_cmp; [lra|]. case_cmp; [reflexivity | contradiction].
Qed.

(** In binary32 the rounded tests can disagree with the comparison of
    the distance with [h*r], and with each other: at [r = 5],
    [h = 15947764 * 2^-26] and [d = 9967352 * 2^-23] the distance is below
    [h*r], the product [h*r] rounds to [d], the quotient [d/r] rounds below
    [h]; the scalar remap gives 0, the array remap takes its second branch and
    gives a negative number, [-13754345 * 2^-47]. *)
Lemma binary32_hardness_threshold :
  let r := b32 5 in
  let h := b32_frac 15947764 26 in
  let d := b32_frac 9967352 23 in
  (b32_value d < b32_value h * b32_value r)%Q /\
  fmul h r = d /\
  fltb (fdiv d r) h = true /\
  sculpt_apply_hardness r h d = fzero /\
  apply_hardness_to_distances r h [d] = [fopp (b32_frac 13754345 47)].
Proof.
  cbv zeta. split; [vm_compute; reflexivity|].
  repeat split; vm_compute; reflexivity.
Qed.

(** C2, as the code has it.
    In any arithmetic the cases are those of the code's own tests on the
    computed values: the array remap returns the distances as they are
    when [hardness == 0], zeroes when [hardness == 1], and otherwise 0
    where [d < hardness * radius] as computed and
    [(d * (1/r) - h) * (1/(1 - h)) * r] elsewhere; the scalar remap returns
    0 where the computed [d / r] is below the hardness, else the radius
    when [hardness == 1], else [((d/r - h)/(1 - h)) * r].
    In exact arithmetic, for a radius [r > 0]:
    - hardness 0: the array remap leaves every distance as it is, the
      scalar remap gives [d] for every [d >= 0];
    - hardness [h] strictly between 0 and 1: both give 0 below [h*r] and
      [((d/r - h)/(1 - h))*r] from [h*r] on;
    - hardness 1: the array remap gives 0 for every distance; the scalar
      remap gives 0 for [d < r] and the radius [r] for [d >= r]. *)
Theorem hardness_remap_by_cases :
  (forall (F : Type) (ops : FloatOps F) (r h d : F) (ds : list F),
     (feqb h fzero = true -> apply_hardness_to_distances r h ds = ds) /\
     (feqb h fzero = false -> feqb h fone = true ->
      apply_hardness_to_distances r h ds = map (fun _ => fzero) ds) /\
     (feqb h fzero = false -> feqb h fone = false ->
      apply_hardness_to_distances r h ds
      = map (fun d => if d <? h * r then fzero
                      else (d * rcp r - h) * rcp (fone - h) * r)%fl ds) /\
     (fltb (fdiv d r) h = true -> sculpt_apply_hardness r h d = fzero) /\
     (fltb (fdiv d r) h = false -> feqb h fone = true ->
      sculpt_apply_hardness r h d = r) /\
     (fltb (fdiv d r) h = false -> feqb h fone = false ->
      sculpt_apply_hardness r h d = ((d / r - h) / (fone - h) * r)%fl)) /\
  (forall (r h d : Q) (ds : list Q),
     (0 < r)%Q ->
     ((h == 0)%Q ->
        ((0 <= d)%Q -> (sculpt_apply_hardness r h d == d)%Q) /\
        apply_hardness_to_distances r h ds = ds) /\
     ((0 < h)%Q -> (h < 1)%Q ->
        hardness_remapped r h d (sculpt_apply_hardness r h d) /\
        Forall2 (hardness_remapped r h) ds (apply_hardness_to_distances r h ds)) /\
     ((h == 1)%Q ->
        ((d < r)%Q -> (sculpt_apply_hardness r h d == 0)%Q) /\
        ((r <= d)%Q -> (sculpt_apply_hardness r h d == r)%Q) /\
        apply_hardness_to_distances r h ds = map (fun _ => 0%Q) ds)).
Proof.
  split.
  - intros F ops r h d ds. apply hardness_remap_tests.
  - intros r h d ds. apply hardness_remap_exact.
Qed.

(** In exact arithmetic: radius 2, hardness 1/2, distances 1 and 2.  In
    binary32: the scalar remap at the threshold of
    [binary32_hardness_threshold]. *)
Lemma hardness_remap_by_cases_witness :
  (hardness_remapped 2 (1 # 2) 1 (sculpt_apply_hardness 2 (1 # 2) 1) /\
   Forall2 (hardness_remapped 2 (1 # 2)) [1%Q; 2%Q]
           (apply_hardness_to_distances 2 (1 # 2) [1%Q; 2%Q])) /\
  sculpt_apply_hardness (b32 5) (b32_frac 15947764 26) (b32_frac 9967352 23) = fzero.
Proof.
  split.
  - apply (proj2 hardness_remap_by_cases 2 (1 # 2) 1 [1%Q; 2%Q]); reflexivity.
  - apply (proj1 hardness_remap_by_cases SpecFloat.spec_float B32.ops (b32 5)
             (b32_frac 15947764 26) (b32_frac 9967352 23) []).
    vm_compute. reflexivity.
Defined.

(** The scenario of the spec: radius 2, distance 1, hardness 1/2 remaps
    to distance 0, with exact and with binary32 arithmetic. *)
Lemma hardness_scenario :
  (sculpt_apply_hardness (F := Q) 2 (1 # 2) 1 == 0)%Q /\
  Forall2 Qeq (apply_hardness_to_distances (F := Q) 2 (1 # 2) [1%Q]) [0%Q] /\
  feqb (sculpt_apply_hardness (b32 2) (fdiv (b32 1) (b32 2)) (b32 1)) fzero = true /\
  map (fun y => feqb y fzero)
      (apply_hardness_to_distances (b32 2) (fdiv (b32 1) (b32 2)) [b32 1]) = [true].
Proof.
  repeat split; try (vm_compute; reflexivity).
  constructor; [vm_compute; reflexivity | constructor].
Qed.

(** ** Loops over parallel arrays *)

Lemma zip_with_nth_error {A B C : Type} (f : A -> B -> C) (a : list A) (b : list B) (i : nat) :
  nth_error (zip_with f a b) i =
  match nth_error a i, nth_error b i with
  | Some x, Some y => Some (f x y)
  | _, _ => None
  end.
Proof.
  revert b i. induction a as [|x a IH]; intros [|y b] [|i]; simpl; try reflexivity.
  - destruct (nth_error a i); reflexivity.
  - apply IH.
Qed.

Lemma zip_with_length {A B C : Type} (f : A -> B -> C) (a : list A) (b : list B) :
  length (zip_with f a b) = Nat.min (length a) (length b).
Proof.
  revert b. induction a as [|x a IH]; intros [|y b]; simpl; try reflexivity.
  rewrite IH. reflexivity.
Qed.

(** ** C6: distances exactly at the threshold *)

Section Thresholds.
Variable RegionView3D : Type.
Variable ED_view3d_clipping_test : RegionView3D -> float3 Q -> bool.
Variable rotate_point : Z -> Q -> float3 Q -> float3 Q.

Lemma sphere_sq_at_threshold (test : SculptBrushTest RegionView3D) (co : float3 Q) :
  (distance_squared co (test_location test) == test_radius_squared test)%Q ->
  sculpt_brush_test_clipping ED_view3d_clipping_test rotate_point test co = false ->
  SCULPT_brush_test_sphere_sq ED_view3d_clipping_test rotate_point test co
  = (true, set_dist test (distance_squared co (test_location test))).
Proof.
  intros Heq Hclip. unfold SCULPT_brush_test_sphere_sq. q_ops.
  case_cmp; [lra|]. rewrite Hclip. reflexivity.
Qed.

Lemma filter_distances_at_threshold (radius : Q) (distances factors : list Q)
    (i : nat) (d f : Q) :
  nth_error distances i = Some d -> nth_error factors i = Some f ->
  (d == radius)%Q ->
  nth_error (filter_distances_with_radius radius distances factors) i = Some f.
Proof.
  intros Hd Hf Heq. unfold filter_distances_with_radius.
  rewrite zip_with_nth_error, Hd, Hf. q_ops. case_cmp; [lra | reflexivity].
Qed.

Lemma node_in_sphere_at_threshold (node : Node Q) (location : float3 Q) (radius_sq : Q)
    (original : bool) :
  let bounds := if original then node_original_BB node else node_bounds node in
  (distance_squared location (v3_clamp location (bounds_min bounds) (bounds_max bounds))
   == radius_sq)%Q ->
  node_in_sphere node location radius_sq original = false.
Proof.
  intros bounds Heq. unfold node_in_sphere. fold bounds. q_ops.
  case_cmp; [lra | reflexivity].
Qed.
End Thresholds.

(** A node that is the single point (1,0,0), seen from the origin with
    squared radius 1: its nearest point is exactly at squared distance 1
    and the node is rejected. *)
Lemma node_in_sphere_rejects_equality :
  (distance_squared (q3 0 0 0) (v3_clamp (q3 0 0 0) (q3 1 0 0) (q3 1 0 0)) == 1)%Q /\
  node_in_sphere (point_node (q3 1 0 0)) (q3 0 0 0) 1 false = false.
Proof. split; vm_compute; reflexivity. Qed.

(** The same node in binary32. *)
Lemma binary32_node_at_threshold :
  feqb (distance_squared (b3 0 0 0) (v3_clamp (b3 0 0 0) (b3 1 0 0) (b3 1 0 0))) (b32 1) = true /\
  node_in_sphere (point_node (b3 1 0 0)) (b3 0 0 0) (b32 1) false = false.
Proof. split; vm_compute; reflexivity. Qed.

(** C6, as the code has it.  At equality with the threshold the vertex
    tests take the inside branch and the node test does not:
    [SCULPT_brush_test_sphere_sq] returns true when the squared distance
    equals [radius_squared] (and the point is not clipped away),
    [filter_distances_with_radius] leaves the factor as it is when the
    distance equals the radius, and [node_in_sphere], which compares with
    [<], rejects a node whose nearest bounding-box point is exactly at
    squared distance [radius_sq]. *)
Theorem threshold_equality
    (RegionView3D : Type) (ED_view3d_clipping_test : RegionView3D -> float3 Q -> bool)
    (rotate_point : Z -> Q -> float3 Q -> float3 Q)
    (test : SculptBrushTest RegionView3D) (co : float3 Q)
    (radius : Q) (distances factors : list Q) (i : nat) (d f : Q)
    (node : Node Q) (location : float3 Q) (radius_sq : Q) (original : bool) :
  (distance_squared co (test_location test) == test_radius_squared test)%Q ->
  sculpt_brush_test_clipping ED_view3d_clipping_test rotate_point test co = false ->
  nth_error distances i = Some d -> nth_error factors i = Some f -> (d == radius)%Q ->
  (distance_squared location
     (v3_clamp location
        (bounds_min (if original then node_original_BB node else node_bounds node))
        (bounds_max (if original then node_original_BB node else node_bounds node)))
   == radius_sq)%Q ->
  fst (SCULPT_brush_test_sphere_sq ED_view3d_clipping_test rotate_point test co) = true /\
  nth_error (filter_distances_with_radius radius distances factors) i = Some f /\
  node_in_sphere node location radius_sq original = false.
Proof.
  intros Hs Hclip Hd Hf Heq Hn. repeat split.
  - rewrite sphere_sq_at_threshold by assumption. reflexivity.
  - eapply filter_distances_at_threshold; eassumption.
  - apply node_in_sphere_at_threshold. exact Hn.
Qed.

(** A test of radius 1 at the origin with clipping off and the point
    (1,0,0); the distance 1 against the radius 1; the one-point node at
    (1,0,0) against the squared radius 1. *)
Lemma threshold_equality_witness :
  fst (SCULPT_brush_test_sphere_sq (fun _ _ => true) (fun _ _ p => p) unit_test (q3 1 0 0))
  = true /\
  nth_error (filter_distances_with_radius 1%Q [1%Q] [1 # 2]) 0 = Some (1 # 2) /\
  node_in_sphere (point_node (q3 1 0 0)) (q3 0 0 0) 1 false = false.
Proof.
  apply (threshold_equality unit (fun _ _ => true) (fun _ _ p => p) unit_test (q3 1 0 0)
           1%Q [1%Q] [1 # 2] 0%nat 1%Q (1 # 2)
           (point_node (q3 1 0 0)) (q3 0 0 0) 1%Q false); reflexivity.
Defined.

(** ** C10: the cube test at roundness 0 *)

Section CubeTest.
Variable RegionView3D : Type.
Variable ED_view3d_clipping_test : RegionView3D -> float3 Q -> bool.
Variable rotate_point : Z -> Q -> float3 Q -> float3 Q.
Variable sqrtf : Q -> Q.

Lemma min_ff_le (a b c : Q) : (a <= c)%Q -> (b <= c)%Q -> (min_ff a b <= c)%Q.
Proof. intros Ha Hb. unfold min_ff. q_ops. case_cmp; assumption. Qed.

Lemma max_ff_le (a b c : Q) : (a <= c)%Q -> (b <= c)%Q -> (max_ff a b <= c)%Q.
Proof. intros Ha Hb. unfold max_ff. q_ops. case_cmp; assumption. Qed.

(** C10. With roundness 0 the cube test never divides by
    [falloff_side = 0]: a clipped point and a point outside the cube are
    rejected before any division, and a point inside the cube fails the
    corner and the edge condition (both compare with [constant_side],
    which is the side 1), so that the flat-interior branch runs, which
    sets [test.dist] to 0 and returns true. *)
Theorem cube_test_roundness_zero (test : SculptBrushTest RegionView3D)
    (co : float3 Q) (local : float4x4 Q) (roundness : Q) :
  (roundness == 0)%Q ->
  SCULPT_brush_test_cube ED_view3d_clipping_test rotate_point sqrtf test co local roundness
  = if sculpt_brush_test_clipping ED_view3d_clipping_test rotate_point test co
    then Done (false, test)
    else if in_unit_cube (cube_local_co local co)
         then Done (true, set_dist test 0%Q)
         else Done (false, test).
Proof.
  intros Hr. unfold SCULPT_brush_test_cube.
  destruct (sculpt_brush_test_clipping _ _ test co); [reflexivity|].
  q_ops. fold (cube_local_co local co).
  set (p := cube_local_co local co).
  assert (Hside : (1 + (1 - 1) * roundness == 1)%Q) by (rewrite Hr; reflexivity).
  assert (Hconst : ((1 - roundness) * (1 + (1 - 1) * roundness) == 1)%Q)
    by (rewrite Hr; reflexivity).
  unfold in_unit_cube. cbn [vx vy vz].
  rewrite !(Qleb_comp _ _ (Qeq_refl _) _ _ Hside).
  destruct (Qle_bool (vx p) 1) eqn:Ex; [|reflexivity].
  destruct (Qle_bool (vy p) 1) eqn:Ey; [|reflexivity].
  destruct (Qle_bool (vz p) 1) eqn:Ez; [|reflexivity].
  cbn [andb negb].
  apply Qle_bool_iff in Ex. apply Qle_bool_iff in Ey.
  assert (Hmin : Qltb ((1 - roundness) * (1 + (1 - 1) * roundness))
                      (min_ff (vx p) (vy p)) = false).
  { apply Qltb_ge. rewrite Hconst. apply min_ff_le; assumption. }
  assert (Hmax : Qltb ((1 - roundness) * (1 + (1 - 1) * roundness))
                      (max_ff (vx p) (vy p)) = false).
  { apply Qltb_ge. rewrite Hconst. apply max_ff_le; assumption. }
  rewrite Hmin, Hmax. reflexivity.
Qed.
End CubeTest.

(** The point (1/2, 1/2, 0) under the identity matrix, roundness 0: inside
    the cube, distance 0. *)
Lemma cube_test_roundness_zero_witness :
  SCULPT_brush_test_cube (fun _ _ => true) (fun _ _ p => p) (fun a => a)
    unit_test (q3 (1 # 2) (1 # 2) 0) identity4x4 0%Q
  = Done (true, set_dist unit_test 0%Q).
Proof.
  exact (cube_test_roundness_zero unit (fun _ _ => true) (fun _ _ p => p) (fun a => a)
           unit_test (q3 (1 # 2) (1 # 2) 0) identity4x4 0%Q (Qeq_refl 0)).
Defined.

(** The checked division reports a divisor that is 0: this is what the
    corner and the edge branch would run into at roundness 0. *)
Lemma fdiv_checked_zero (a : Q) : fdiv_checked a 0%Q = DivisionByZero.
Proof. reflexivity. Qed.

(** Roundness 0 in binary32: side and [constant_side] are exactly 1.0f,
    [falloff_side] is 0.0f; the point (1/2, 1/2, 0) and the corner point
    (1, 1, 0) are inside, with distance 0, and (2, 0, 0) is outside. *)
Lemma binary32_cube_flat :
  map (fun co =>
         match SCULPT_brush_test_cube (fun _ _ => true) (fun _ _ p => p) (fun a => a)
                 (origin_test 0 false) co identity4x4 fzero with
         | Done (inside, test) => Some (inside, feqb (test_dist test) fzero)
         | DivisionByZero => None
         end)
      [mk3 (fdiv (b32 1) (b32 2)) (fdiv (b32 1) (b32 2)) fzero; b3 1 1 0; b3 2 0 0]
  = [Some (true, true); Some (true, true); Some (false, true)].
Proof. vm_compute. reflexivity. Qed.

(** ** C4: the clip test looks at the mirrored point *)

(** C4. The viewport clip rejection is evaluated on the point flipped
    through the current mirror pass and, in a radial pass, rotated by the
    inverse radial rotation: [sculpt_brush_test_clipping] hands that point
    to the clip test of the viewport, [filter_region_clip_factors] zeroes
    the factor of a vertex exactly when that point is clipped, and the test
    set up by [SCULPT_brush_test_init] carries the passes of the stroke
    cache.  With mirror bitmask 1 the vertex (1,0,0) is tested at
    (-1,0,0).  This holds for any arithmetic. *)
Theorem clip_test_on_mirrored_point
    (F : Type) (ops : FloatOps F) (RegionView3D View3D : Type)
    (ED_view3d_clipping_test : RegionView3D -> float3 F -> bool)
    (RV3D_CLIPPING_ENABLED : View3D -> RegionView3D -> bool)
    (rotate_point : Z -> F -> float3 F -> float3 F) (sqrtf : F -> F)
    (test : SculptBrushTest RegionView3D) (co : float3 F)
    (ss : SculptSession F RegionView3D View3D)
    (positions : list (float3 F)) (verts : list Z) (factors : list F)
    (i : nat) (vert : Z) (f : F) :
  nth_error verts i = Some vert ->
  nth_error factors i = Some f ->
  RV3D_CLIPPING_ENABLED (session_v3d ss) (session_rv3d ss) = true ->
  sculpt_brush_test_clipping ED_view3d_clipping_test rotate_point test co
  = match test_clip_rv3d test with
    | None => false
    | Some rv3d =>
        ED_view3d_clipping_test rv3d
          (clip_test_point rotate_point (test_mirror_symmetry_pass test)
             (test_radial_symmetry_pass test) (test_symm_rot_mat_inv test) co)
    end
  /\ nth_error
       (filter_region_clip_factors ED_view3d_clipping_test RV3D_CLIPPING_ENABLED
          rotate_point ss positions verts factors) i
     = Some (if ED_view3d_clipping_test (session_rv3d ss)
                  (clip_test_point rotate_point (session_mirror_pass ss)
                     (session_radial_pass ss) (session_rot_inv ss)
                     (at_index v3_zero positions vert))
             then fzero else f)
  /\ (let t := SCULPT_brush_test_init RV3D_CLIPPING_ENABLED sqrtf ss in
      test_mirror_symmetry_pass t = session_mirror_pass ss /\
      test_radial_symmetry_pass t = session_radial_pass ss /\
      test_symm_rot_mat_inv t = session_rot_inv ss /\
      test_clip_rv3d t = Some (session_rv3d ss))
  /\ clip_test_point rotate_point 1 0 RotIdentity (mk3 fone fzero fzero)
     = mk3 (fopp fone) fzero fzero.
Proof.
  intros Hv Hf Hen. split; [|split; [|split]].
  - unfold sculpt_brush_test_clipping, clip_test_point.
    destruct (test_clip_rv3d test); reflexivity.
  - unfold filter_region_clip_factors.
    fold (session_rv3d ss) (session_v3d ss) (session_mirror_pass ss)
         (session_radial_pass ss) (session_rot_inv ss).
    rewrite Hen. cbn [negb]. rewrite zip_with_nth_error, Hv, Hf. reflexivity.
  - unfold SCULPT_brush_test_init. cbn.
    fold (session_rv3d ss) (session_v3d ss). rewrite Hen. repeat split.
  - reflexivity.
Qed.

(** Mirror pass 1, the vertex (1,0,0), the half-space viewport: the
    vertex itself is not clipped, its mirror image (-1,0,0) is, and both
    the brush test and the factor stage reject it. *)
Lemma clip_test_on_mirrored_point_witness :
  clips_negative_x tt (q3 1 0 0) = false /\
  sculpt_brush_test_clipping clips_negative_x (fun _ _ p => p)
    (origin_test 1 true) (q3 1 0 0) = true /\
  nth_error
    (filter_region_clip_factors clips_negative_x (fun _ _ => true) (fun _ _ p => p)
       mirror_x_session [q3 1 0 0] [0%Z] [1%Q]) 0
  = Some 0%Q.
Proof.
  split; [reflexivity|].
  pose proof (clip_test_on_mirrored_point Q Q_ops unit unit clips_negative_x
                (fun _ _ => true) (fun _ _ p => p) (fun a => a)
                (origin_test 1 true) (q3 1 0 0)
                mirror_x_session [q3 1 0 0] [0%Z] [1%Q] 0%nat 0%Z 1%Q
                eq_refl eq_refl eq_refl) as [Htest [Hfilter _]].
  split; [exact Htest | exact Hfilter].
Defined.

(** The same scenario in binary32. *)
Lemma binary32_clip_mirrored :
  clips_negative_x tt (b3 1 0 0) = false /\
  sculpt_brush_test_clipping clips_negative_x (fun _ _ p => p)
    (origin_test 1 true) (b3 1 0 0) = true.
Proof. split; vm_compute; reflexivity. Qed.

(** ** C5: interior neighbours of boundary vertices *)

Lemma remove_if_not_boundary {A : Type} (is_boundary : A -> bool) (v : list A) (x : A) :
  In x (remove_if (fun y => negb (is_boundary y)) v) <-> In x v /\ is_boundary x = true.
Proof.
  unfold remove_if. rewrite filter_In, negb_involutive. reflexivity.
Qed.

Lemma append_non_duplicates_NoDup (v : list Z) (x : Z) :
  NoDup v -> NoDup (append_non_duplicates v x).
Proof.
  intros Hv. unfold append_non_duplicates.
  destruct (existsb (Z.eqb x) v) eqn:E; [exact Hv|].
  apply NoDup_app; [exact Hv | repeat constructor; intros [] | ].
  intros y Hy [<- | []].
  assert (Hex : existsb (Z.eqb x) v = true).
  { apply existsb_exists. exists x. split; [exact Hy | apply Z.eqb_refl]. }
  congruence.
Qed.

Section MeshNeighborProps.
Variable face_find_adjacent_verts : IndexRange -> list Z -> Z -> Z * Z.
Variables (faces corner_verts : list Z) (vert_to_face : list (list Z)).
Variables (boundary_verts hide_poly : list bool).

(** The neighbour vector of the plain mesh holds every neighbour once,
    so that its size is the number of neighbours. *)
Lemma vert_neighbors_get_mesh_NoDup (vert : Z) :
  NoDup (vert_neighbors_get_mesh face_find_adjacent_verts vert faces corner_verts
           vert_to_face hide_poly).
Proof.
  unfold vert_neighbors_get_mesh.
  generalize (at_index [] vert_to_face vert) as fs.
  assert (Hnil : NoDup (@nil Z)) by constructor. revert Hnil.
  generalize (@nil Z) as acc. intros acc Hacc fs. revert acc Hacc.
  induction fs as [|face fs IH]; intros acc Hacc; simpl; [exact Hacc|].
  apply IH.
  destruct (negb (size hide_poly =? 0)%Z && at_index false hide_poly face);
    [exact Hacc|].
  apply append_non_duplicates_NoDup, append_non_duplicates_NoDup, Hacc.
Qed.
End MeshNeighborProps.

(** C5. A vertex queried through the interior-neighbours operation gets,
    on the plain mesh and on the dynamic-topology mesh alike:
    - its full neighbour vector when it is not a boundary vertex;
    - the empty vector when it is a boundary vertex with exactly two
      neighbours (the vector gathered for it has size 2);
    - otherwise its neighbour vector with the non-boundary vertices
      removed, the boundary ones kept in their order.
    On the plain mesh the gathered vector has no repeats. *)
Theorem interior_neighbors_of_boundary
    (face_find_adjacent_verts : IndexRange -> list Z -> Z -> Z * Z)
    (faces corner_verts : list Z) (vert_to_face : list (list Z))
    (boundary_verts hide_poly : list bool) (verts : list Z) (i : nat) (vert : Z)
    (BMVert BMLoop : Type) (BMVert_eqb : BMVert -> BMVert -> bool)
    (loops_of_vert : BMVert -> list BMLoop) (loop_prev_v loop_next_v : BMLoop -> BMVert)
    (BM_vert_is_boundary : BMVert -> bool) (bm_verts : list BMVert) (j : nat)
    (bm_vert : BMVert) :
  nth_error verts i = Some vert ->
  nth_error bm_verts j = Some bm_vert ->
  let neighbors :=
    vert_neighbors_get_mesh face_find_adjacent_verts vert faces corner_verts
      vert_to_face hide_poly in
  let bm_neighbors :=
    vert_neighbors_get_bmesh BMVert_eqb loops_of_vert loop_prev_v loop_next_v bm_vert [] in
  (exists result,
     nth_error (calc_vert_neighbors_interior face_find_adjacent_verts faces corner_verts
                  vert_to_face boundary_verts hide_poly verts) i = Some result /\
     NoDup neighbors /\
     (at_index false boundary_verts vert = false -> result = neighbors) /\
     (at_index false boundary_verts vert = true -> length neighbors = 2%nat ->
      result = []) /\
     (at_index false boundary_verts vert = true -> length neighbors <> 2%nat ->
      result = filter (at_index false boundary_verts) neighbors /\
      forall v, In v result <-> In v neighbors /\ at_index false boundary_verts v = true))
  /\
  (exists result,
     nth_error (calc_vert_neighbors_interior_bmesh BMVert_eqb loops_of_vert loop_prev_v
                  loop_next_v BM_vert_is_boundary bm_verts) j = Some result /\
     (BM_vert_is_boundary bm_vert = false -> result = bm_neighbors) /\
     (BM_vert_is_boundary bm_vert = true -> length bm_neighbors = 2%nat -> result = []) /\
     (BM_vert_is_boundary bm_vert = true -> length bm_neighbors <> 2%nat ->
      result = filter BM_vert_is_boundary bm_neighbors /\
      forall v, In v result <-> In v bm_neighbors /\ BM_vert_is_boundary v = true)).
Proof.
  intros Hv Hbm neighbors bm_neighbors. split.
  - unfold calc_vert_neighbors_interior.
    rewrite nth_error_map, Hv. cbn [option_map]. fold neighbors.
    eexists. split; [reflexivity|].
    split; [apply vert_neighbors_get_mesh_NoDup|].
    destruct (at_index false boundary_verts vert).
    + split; [discriminate|]. unfold size.
      split.
      * intros _ Hlen. rewrite Hlen. reflexivity.
      * intros _ Hlen.
        destruct (Z.of_nat (length neighbors) =? 2)%Z eqn:E; [apply Z.eqb_eq in E; lia|].
        split.
        -- unfold remove_if. apply filter_ext. intros a. apply negb_involutive.
        -- intros v. apply remove_if_not_boundary.
    + split; [reflexivity|]. split; discriminate.
  - unfold calc_vert_neighbors_interior_bmesh.
    rewrite nth_error_map, Hbm. cbn [option_map].
    unfold vert_neighbors_get_interior_bmesh.
    change (append_loop_neighbors BMVert_eqb loops_of_vert loop_prev_v loop_next_v bm_vert [])
      with bm_neighbors.
    eexists. split; [reflexivity|].
    destruct (BM_vert_is_boundary bm_vert).
    + split; [discriminate|]. unfold size.
      split.
      * intros _ Hlen. rewrite Hlen. reflexivity.
      * intros _ Hlen.
        destruct (Z.of_nat (length bm_neighbors) =? 2)%Z eqn:E; [apply Z.eqb_eq in E; lia|].
        split.
        -- unfold remove_if. apply filter_ext. intros a. apply negb_involutive.
        -- intros v. apply remove_if_not_boundary.
    + split; [reflexivity|]. split; discriminate.
Qed.

(** One triangle 0-1-2, all of its vertices on the boundary: vertex 0
    has two neighbours and gets none.  And vertex 0 of a dynamic mesh
    between the triangles (0,1,2) and (0,2,3), with 1 and 3 on the boundary
    and 2 taken as interior: its loops give 2, 1, 3, 2, of which 1 and 3
    stay. *)
Lemma interior_neighbors_of_boundary_witness :
  nth_error (calc_vert_neighbors_interior adjacent_in_face [0; 3]%Z [0; 1; 2]%Z
               [[0]; [0]; [0]]%Z [true; true; true] [] [0]%Z) 0 = Some [] /\
  nth_error (calc_vert_neighbors_interior_bmesh Z.eqb fan_loops fst snd
               (fun v => negb (v =? 2)%Z) [0%Z]) 0 = Some [1; 3]%Z.
Proof.
  destruct (interior_neighbors_of_boundary adjacent_in_face [0; 3]%Z [0; 1; 2]%Z
              [[0]; [0]; [0]]%Z [true; true; true] [] [0]%Z 0%nat 0%Z
              Z (Z * Z)%type Z.eqb fan_loops fst snd (fun v => negb (v =? 2)%Z)
              [0%Z] 0%nat 0%Z eq_refl eq_refl)
    as [[r1 [Hr1 [_ [_ [Hcorner _]]]]] [r2 [Hr2 [_ [_ Hfilter]]]]].
  split.
  - rewrite Hr1, (Hcorner eq_refl eq_refl). reflexivity.
  - rewrite Hr2.
    destruct (Hfilter eq_refl ltac:(vm_compute; discriminate)) as [-> _]. reflexivity.
Defined.

(** ** C8: the factor never grows after the seed stage *)

Lemma at_index_Forall {A : Type} (P : A -> Prop) (d : A) (l : list A) (i : Z) :
  P d -> Forall P l -> P (at_index d l i).
Proof.
  intros Hd Hl. unfold at_index. destruct (i <? 0)%Z; [exact Hd|].
  destruct (nth_in_or_default (Z.to_nat i) l d) as [Hin | ->]; [|exact Hd].
  rewrite Forall_forall in Hl. apply Hl, Hin.
Qed.

Lemma Qsquare_nonneg (a : Q) : (0 <= a * a)%Q.
Proof.
  destruct a as [n d]. unfold Qle, Qmult. simpl. rewrite Z.mul_1_r.
  apply Z.square_nonneg.
Qed.

Lemma dot_unit_le_1 (a b : float3 Q) : unit_length a -> unit_length b -> (dot a b <= 1)%Q.
Proof.
  unfold unit_length, dot. destruct a as [ax ay az], b as [bx b_y bz]. q_ops.
  cbn [vx vy vz]. intros Ha Hb.
  pose proof (Qsquare_nonneg (ax - bx)) as Hx.
  pose proof (Qsquare_nonneg (ay - b_y)) as Hy.
  pose proof (Qsquare_nonneg (az - bz)) as Hz.
  lra.
Qed.

Lemma dot_zero_r (a : float3 Q) : (dot a v3_zero == 0)%Q.
Proof. unfold dot, v3_zero. q_ops. cbn [vx vy vz]. ring. Qed.

(** The front-face term lies between 0 and 1. *)
Lemma front_face_term (view_normal : float3 Q) (vert_normals : list (float3 Q)) (v : Z) :
  unit_length view_normal -> Forall unit_length vert_normals ->
  (0 <= std_max (dot view_normal (at_index v3_zero vert_normals v)) 0 <= 1)%Q.
Proof.
  intros Hview Hnormals.
  assert (Hdot : (dot view_normal (at_index v3_zero vert_normals v) <= 1)%Q).
  { apply (at_index_Forall (fun n => (dot view_normal n <= 1)%Q)).
    - rewrite dot_zero_r. lra.
    - eapply Forall_impl; [|exact Hnormals]. intros n Hn.
      apply dot_unit_le_1; assumption. }
  unfold std_max. q_ops. case_cmp; lra.
Qed.

Lemma fill_factor_range (mask : option (list Q)) (hide_vert : option (list bool))
    (verts : list Z) (i : nat) (s : Q) :
  match mask with Some span => Forall (fun m => (0 <= m <= 1)%Q) span | None => True end ->
  nth_error (fill_factor_from_hide_and_mask mask hide_vert verts) i = Some s ->
  (0 <= s <= 1)%Q.
Proof.
  intros Hmask. unfold fill_factor_from_hide_and_mask.
  set (seeded := match mask with
                 | Some span => map (fun v => fone - at_index fzero span v)%fl verts
                 | None => map (fun _ => fone) verts
                 end).
  assert (Hseeded : forall k x, nth_error seeded k = Some x -> (0 <= x <= 1)%Q).
  { intros k x. subst seeded. destruct mask as [span|]; rewrite nth_error_map;
      destruct (nth_error verts k) as [v|]; cbn [option_map]; try discriminate;
      intros [= <-]; q_ops; [|lra].
    pose proof (at_index_Forall (fun m => (0 <= m <= 1)%Q) 0%Q span v
                  ltac:(cbv beta; lra) Hmask) as Hm.
    cbv beta in Hm. lra. }
  destruct hide_vert as [span|]; [|apply Hseeded].
  rewrite zip_with_nth_error.
  destruct (nth_error verts i) as [v|]; [|discriminate].
  destruct (nth_error seeded i) as [x|] eqn:Ex; [|discriminate].
  intros [= <-]. destruct (at_index false span v); q_ops; [lra | eapply Hseeded, Ex].
Qed.

(** The three stages in any arithmetic: the front-face stage multiplies
    the seed by its term, the radius cutoff and the region-clip stage keep
    the factor or set it to 0. *)
Lemma factor_stages_by_cases {F : Type} `{FloatOps F}
    (RegionView3D View3D : Type)
    (ED_view3d_clipping_test : RegionView3D -> float3 F -> bool)
    (RV3D_CLIPPING_ENABLED : View3D -> RegionView3D -> bool)
    (rotate_point : Z -> F -> float3 F -> float3 F)
    (ss : SculptSession F RegionView3D View3D)
    (verts : list Z) (view_normal : float3 F) (vert_normals positions : list (float3 F))
    (radius : F) (distances : list F) (seeds : list F) (i : nat) (f : F) :
  nth_error
    (filter_region_clip_factors ED_view3d_clipping_test RV3D_CLIPPING_ENABLED rotate_point
       ss positions verts
       (filter_distances_with_radius radius distances
          (calc_front_face view_normal vert_normals verts seeds))) i = Some f ->
  exists seed v,
    nth_error seeds i = Some seed /\
    nth_error verts i = Some v /\
    (f = fzero \/
     f = fmul seed (std_max (dot view_normal (at_index v3_zero vert_normals v)) fzero)).
Proof.
  assert (Hfront : forall f1,
             nth_error (calc_front_face view_normal vert_normals verts seeds) i = Some f1 ->
             exists seed v,
               nth_error seeds i = Some seed /\ nth_error verts i = Some v /\
               f1 = fmul seed
                      (std_max (dot view_normal (at_index v3_zero vert_normals v)) fzero)).
  { intros f1. unfold calc_front_face. rewrite zip_with_nth_error.
    destruct (nth_error verts i) as [v|]; [|discriminate].
    destruct (nth_error seeds i) as [s|]; [|discriminate].
    intros [= <-]. exists s, v. repeat split. }
  assert (Hradius : forall f2,
             nth_error (filter_distances_with_radius radius distances
                          (calc_front_face view_normal vert_normals verts seeds)) i
             = Some f2 ->
             exists seed v,
               nth_error seeds i = Some seed /\ nth_error verts i = Some v /\
               (f2 = fzero \/
                f2 = fmul seed
                       (std_max (dot view_normal (at_index v3_zero vert_normals v))
                                fzero))).
  { intros f2. unfold filter_distances_with_radius. rewrite zip_with_nth_error.
    destruct (nth_error distances i) as [d|]; [|discriminate].
    destruct (nth_error (calc_front_face view_normal vert_normals verts seeds) i)
      as [f1|] eqn:E1; [|discriminate].
    destruct (Hfront f1 eq_refl) as [s [v [Hs [Hv Hf1]]]].
    intros [= <-]. exists s, v. split; [exact Hs|]. split; [exact Hv|].
    destruct (fltb radius d); [left; reflexivity | right; exact Hf1]. }
  unfold filter_region_clip_factors.
  destruct (negb (RV3D_CLIPPING_ENABLED _ _)); [apply Hradius|].
  rewrite zip_with_nth_error.
  destruct (nth_error verts i) as [v0|]; [|discriminate].
  destruct (nth_error (filter_distances_with_radius radius distances
                         (calc_front_face view_normal vert_normals verts seeds)) i)
    as [f2|] eqn:E2; [|discriminate].
  destruct (Hradius f2 eq_refl) as [s [v [Hs [Hv Hf2]]]].
  intros [= <-]. exists s, v. split; [exact Hs|]. split; [exact Hv|].
  match goal with |- context [if ?c then _ else _] => destruct c end;
    [left; reflexivity | exact Hf2].
Qed.

(** In exact arithmetic, with view and vertex normals of unit length
    and mask values in [0,1], the factor after the three stages lies between
    0 and the seed. *)
Lemma seed_bounds_factor
    (RegionView3D View3D : Type)
    (ED_view3d_clipping_test : RegionView3D -> float3 Q -> bool)
    (RV3D_CLIPPING_ENABLED : View3D -> RegionView3D -> bool)
    (rotate_point : Z -> Q -> float3 Q -> float3 Q)
    (ss : SculptSession Q RegionView3D View3D)
    (mask : option (list Q)) (hide_vert : option (list bool)) (verts : list Z)
    (view_normal : float3 Q) (vert_normals positions : list (float3 Q))
    (radius : Q) (distances : list Q) (i : nat) (f : Q) :
  match mask with Some span => Forall (fun m => (0 <= m <= 1)%Q) span | None => True end ->
  unit_length view_normal ->
  Forall unit_length vert_normals ->
  nth_error
    (filter_region_clip_factors ED_view3d_clipping_test RV3D_CLIPPING_ENABLED rotate_point
       ss positions verts
       (filter_distances_with_radius radius distances
          (calc_front_face view_normal vert_normals verts
             (fill_factor_from_hide_and_mask mask hide_vert verts)))) i = Some f ->
  exists seed,
    nth_error (fill_factor_from_hide_and_mask mask hide_vert verts) i = Some seed /\
    (0 <= f <= seed)%Q.
Proof.
  intros Hmask Hview Hnormals.
  set (seeds := fill_factor_from_hide_and_mask mask hide_vert verts).
  assert (Hfront : forall f1,
             nth_error (calc_front_face view_normal vert_normals verts seeds) i = Some f1 ->
             exists seed, nth_error seeds i = Some seed /\ (0 <= f1 <= seed)%Q).
  { intros f1. unfold calc_front_face. rewrite zip_with_nth_error.
    destruct (nth_error verts i) as [v|]; [|discriminate].
    destruct (nth_error seeds i) as [s|] eqn:Es; [|discriminate].
    intros [= <-]. exists s. split; [reflexivity|].
    pose proof (fill_factor_range mask hide_vert verts i s Hmask Es) as Hs.
    pose proof (front_face_term view_normal vert_normals v Hview Hnormals) as Ht.
    set (t := std_max _ _) in *. q_ops.
    assert (H0 : (0 <= s * t)%Q) by (apply Qmult_le_0_compat; lra).
    assert (H1 : (0 <= s * (1 - t))%Q) by (apply Qmult_le_0_compat; lra).
    lra. }
  assert (Hradius : forall f2,
             nth_error (filter_distances_with_radius radius distances
                          (calc_front_face view_normal vert_normals verts seeds)) i
             = Some f2 ->
             exists seed, nth_error seeds i = Some seed /\ (0 <= f2 <= seed)%Q).
  { intros f2. unfold filter_distances_with_radius. rewrite zip_with_nth_error.
    destruct (nth_error distances i) as [d|]; [|discriminate].
    destruct (nth_error (calc_front_face view_normal vert_normals verts seeds) i)
      as [f1|] eqn:E1; [|discriminate].
    destruct (Hfront f1 eq_refl) as [s [Hs Hb]].
    intros [= <-]. exists s. split; [exact Hs|].
    q_ops. case_cmp; lra. }
  unfold filter_region_clip_factors.
  destruct (negb (RV3D_CLIPPING_ENABLED _ _)); [apply Hradius|].
  rewrite zip_with_nth_error.
  destruct (nth_error verts i) as [v|]; [|discriminate].
  destruct (nth_error (filter_distances_with_radius radius distances
                         (calc_front_face view_normal vert_normals verts seeds)) i)
    as [f2|] eqn:E2; [|discriminate].
  destruct (Hradius f2 eq_refl) as [s [Hs Hb]].
  intros [= <-]. exists s. split; [exact Hs|].
  match goal with |- context [if ?c then _ else _] => destruct c end; q_ops; lra.
Qed.

(** After the seed stage the factor can grow.
    In exact arithmetic, a mask value of 2 seeds the factor with -1, and
    the front-face term 4/5 of a unit normal takes it to -4/5, above the seed.
    In binary32, with mask values in [0,1]: the view normal
    [(12343351, 11362952, 0) * 2^-24] and the vertex normal
    [(12343353, 11362950, 0) * 2^-24] both have the computed squared length
    1, their computed dot product is [1 + 2^-23], and [calc_front_face],
    which does not clamp the term at 1, takes the seed 1 to [1 + 2^-23]. *)
Lemma factor_grows_after_seed :
  (unit_length (q3 0 0 1) /\ unit_length (q3 (3 # 5) 0 (4 # 5)) /\
   exists seed f,
     nth_error (fill_factor_from_hide_and_mask (Some [2%Q]) None [0%Z]) 0 = Some seed /\
     nth_error
       (filter_region_clip_factors clips_negative_x (fun _ _ => false) (fun _ _ p => p)
          mirror_x_session [q3 0 0 0] [0%Z]
          (filter_distances_with_radius 1%Q [1 # 2]
             (calc_front_face (q3 0 0 1) [q3 (3 # 5) 0 (4 # 5)] [0%Z]
                (fill_factor_from_hide_and_mask (Some [2%Q]) None [0%Z])))) 0 = Some f /\
     (seed == -1)%Q /\ (f == - (4 # 5))%Q /\ (seed < f)%Q) /\
  (let view_normal := mk3 (b32_frac 12343351 24) (b32_frac 11362952 24) fzero in
   let normal := mk3 (b32_frac 12343353 24) (b32_frac 11362950 24) fzero in
   dot view_normal view_normal = fone /\ dot normal normal = fone /\
   dot view_normal normal = b32_frac 8388609 23 /\
   fill_factor_from_hide_and_mask (Some [fzero]) None [0%Z] = [fone] /\
   filter_region_clip_factors clips_negative_x (fun _ _ => false) (fun _ _ p => p)
     hover_session [b3 0 0 0] [0%Z]
     (filter_distances_with_radius (b32 1) [fzero]
        (calc_front_face view_normal [normal] [0%Z]
           (fill_factor_from_hide_and_mask (Some [fzero]) None [0%Z])))
   = [b32_frac 8388609 23] /\
   fltb fone (b32_frac 8388609 23) = true).
Proof.
  split.
  - split; [reflexivity|]. split; [reflexivity|].
    eexists. eexists. split; [vm_compute; reflexivity|].
    split; [vm_compute; reflexivity|].
    split; [reflexivity|]. split; reflexivity.
  - cbv zeta. repeat split; vm_compute; reflexivity.
Qed.

(** C8, as the code has it.
    In any arithmetic, the factor of a vertex after the front-face stage,
    the radius cutoff and the region-clip stage is 0 or the seed factor
    multiplied by the front-face term [max(dot(view_normal, normal), 0)]:
    the front-face stage multiplies by the term, the two others keep the
    factor or set it to 0.
    In exact arithmetic, with view and vertex normals of unit length the
    term lies in [0,1], and with mask values in [0,1] the seed is not
    negative, so that the final factor lies between 0 and its value right
    after the seed stage. *)
Theorem factor_never_grows :
  (forall (F : Type) (ops : FloatOps F) (RegionView3D View3D : Type)
          (ED_view3d_clipping_test : RegionView3D -> float3 F -> bool)
          (RV3D_CLIPPING_ENABLED : View3D -> RegionView3D -> bool)
          (rotate_point : Z -> F -> float3 F -> float3 F)
          (ss : SculptSession F RegionView3D View3D)
          (mask : option (list F)) (hide_vert : option (list bool)) (verts : list Z)
          (view_normal : float3 F) (vert_normals positions : list (float3 F))
          (radius : F) (distances : list F) (i : nat) (f : F),
     nth_error
       (filter_region_clip_factors ED_view3d_clipping_test RV3D_CLIPPING_ENABLED
          rotate_point ss positions verts
          (filter_distances_with_radius radius distances
             (calc_front_face view_normal vert_normals verts
                (fill_factor_from_hide_and_mask mask hide_vert verts)))) i = Some f ->
     exists seed v,
       nth_error (fill_factor_from_hide_and_mask mask hide_vert verts) i = Some seed /\
       nth_error verts i = Some v /\
       (f = fzero \/
        f = fmul seed
              (std_max (dot view_normal (at_index v3_zero vert_normals v)) fzero))) /\
  (forall (RegionView3D View3D : Type)
          (ED_view3d_clipping_test : RegionView3D -> float3 Q -> bool)
          (RV3D_CLIPPING_ENABLED : View3D -> RegionView3D -> bool)
          (rotate_point : Z -> Q -> float3 Q -> float3 Q)
          (ss : SculptSession Q RegionView3D View3D)
          (mask : option (list Q)) (hide_vert : option (list bool)) (verts : list Z)
          (view_normal : float3 Q) (vert_normals positions : list (float3 Q))
          (radius : Q) (distances : list Q) (i : nat) (f : Q),
     match mask with
     | Some span => Forall (fun m => (0 <= m <= 1)%Q) span
     | None => True
     end ->
     unit_length view_normal ->
     Forall unit_length vert_normals ->
     (forall v, (0 <= std_max (dot view_normal (at_index v3_zero vert_normals v)) 0 <= 1)%Q) /\
     (nth_error
        (filter_region_clip_factors ED_view3d_clipping_test RV3D_CLIPPING_ENABLED
           rotate_point ss positions verts
           (filter_distances_with_radius radius distances
              (calc_front_face view_normal vert_normals verts
                 (fill_factor_from_hide_and_mask mask hide_vert verts)))) i = Some f ->
      exists seed,
        nth_error (fill_factor_from_hide_and_mask mask hide_vert verts) i = Some seed /\
        (0 <= f <= seed)%Q)).
Proof.
  split.
  - intros F ops RegionView3D View3D clipping_test enabled rotate_point ss mask hide_vert
           verts view_normal vert_normals positions radius distances i f.
    apply factor_stages_by_cases.
  - intros RegionView3D View3D clipping_test enabled rotate_point ss mask hide_vert
           verts view_normal vert_normals positions radius distances i f
           Hmask Hview Hnormals.
    split.
    + intros v. apply front_face_term; assumption.
    + apply seed_bounds_factor; assumption.
Qed.

(** One vertex with mask 1/2 and normal (3/5, 0, 4/5), seen along
    (0,0,1), at distance 1/2 from a brush of radius 1: the seed is 1/2, the
    final factor 20/50. *)
Lemma factor_never_grows_witness :
  exists seed,
    nth_error (fill_factor_from_hide_and_mask (Some [1 # 2]) None [0%Z]) 0 = Some seed /\
    (0 <= 20 # 50 <= seed)%Q.
Proof.
  apply (proj2 (proj2 factor_never_grows unit unit clips_negative_x (fun _ _ => true)
                  (fun _ _ p => p) mirror_x_session (Some [1 # 2]) None [0%Z]
                  (q3 0 0 1) [q3 (3 # 5) 0 (4 # 5)] [q3 (-1) 0 0] 1%Q [1 # 2] 0%nat
                  (20 # 50)
                  ltac:(repeat constructor; discriminate) eq_refl
                  ltac:(repeat constructor))).
  reflexivity.
Defined.

(** ** C3: mirror clipping of a translation *)

Lemma v3_get_set {F : Type} `{FloatOps F} (v : float3 F) (a b : Z) (x : F) :
  (0 <= a <= 2)%Z -> (0 <= b <= 2)%Z ->
  v3_get (v3_set v a x) b = if (a =? b)%Z then x else v3_get v b.
Proof.
  intros Ha Hb.
  assert (Hcases : (a = 0 \/ a = 1 \/ a = 2)%Z) by lia.
  assert (Hcases' : (b = 0 \/ b = 1 \/ b = 2)%Z) by lia.
  destruct Hcases as [-> | [-> | ->]], Hcases' as [-> | [-> | ->]]; reflexivity.
Qed.

Section ClipProps.
Context {F : Type} `{FloatOps F}.
Variable RegionView3D : Type.
Variable View3D : Type.
Variable invert : float4x4 F -> float4x4 F.
Variable SCULPT_LOCK_X : Z.
Variable sd : Sculpt F.
Variable cache : StrokeCache F RegionView3D View3D.
Variable positions : list (float3 F).
Variable verts : list Z.

(** One axis of the loop leaves the other components of a translation
    alone. *)
Lemma clip_and_lock_axis_others (translations : list (float3 F)) (axis : Z) (i : nat)
    (vert : Z) (translation : float3 F) :
  (0 <= axis <= 2)%Z ->
  nth_error verts i = Some vert ->
  nth_error translations i = Some translation ->
  exists translation',
    nth_error (clip_and_lock_axis invert SCULPT_LOCK_X sd cache positions verts axis
                 translations) i = Some translation' /\
    forall b, (0 <= b <= 2)%Z -> b <> axis -> v3_get translation' b = v3_get translation b.
Proof.
  intros Ha Hv Ht. unfold clip_and_lock_axis.
  assert (Hset : forall x b, (0 <= b <= 2)%Z -> b <> axis ->
                   v3_get (v3_set translation axis x) b = v3_get translation b).
  { intros x b Hb Hne. rewrite v3_get_set by assumption.
    destruct (axis =? b)%Z eqn:E; [apply Z.eqb_eq in E; congruence | reflexivity]. }
  destruct (truthy (Z.land (sd_flags sd) (Z.shiftl SCULPT_LOCK_X axis))).
  { rewrite nth_error_map, Ht. cbn [option_map]. eexists. split; [reflexivity|].
    apply Hset. }
  destruct (negb (truthy (Z.land (flag cache) (Z.shiftl CLIP_X axis)))).
  { exists translation. split; [exact Ht | reflexivity]. }
  rewrite zip_with_nth_error, Hv, Ht. eexists. split; [reflexivity|].
  unfold clip_translation_axis.
  match goal with |- context [if ?c then _ else _] => destruct c end;
    [reflexivity | apply Hset].
Qed.

(** The clipped axis of a vertex within tolerance. *)
Lemma clip_and_lock_axis_clipped (translations : list (float3 F)) (axis : Z) (i : nat)
    (vert : Z) (translation : float3 F) :
  (0 <= axis <= 2)%Z ->
  truthy (Z.land (sd_flags sd) (Z.shiftl SCULPT_LOCK_X axis)) = false ->
  truthy (Z.land (flag cache) (Z.shiftl CLIP_X axis)) = true ->
  nth_error verts i = Some vert ->
  nth_error translations i = Some translation ->
  fltb (v3_get (clip_tolerance cache) axis)
       (fabs (v3_get (transform_point (clip_mirror_mtx cache)
                        (at_index v3_zero positions vert)) axis)) = false ->
  exists translation',
    nth_error (clip_and_lock_axis invert SCULPT_LOCK_X sd cache positions verts axis
                 translations) i = Some translation' /\
    v3_get translation' axis
    = fsub (clipped_coordinate invert cache (at_index v3_zero positions vert) axis)
           (v3_get (at_index v3_zero positions vert) axis).
Proof.
  intros Ha Hlock Hclip Hv Ht Htol. unfold clip_and_lock_axis.
  rewrite Hlock, Hclip. cbn [negb].
  rewrite zip_with_nth_error, Hv, Ht. eexists. split; [reflexivity|].
  unfold clip_translation_axis. rewrite Htol.
  rewrite v3_get_set by assumption. rewrite Z.eqb_refl. reflexivity.
Qed.

(** After the three axes. *)
Lemma clip_and_lock_translations_clipped (ss : SculptSession F RegionView3D View3D)
    (translations : list (float3 F)) (axis : Z) (i : nat) (vert : Z)
    (translation : float3 F) :
  ss_cache ss = Some cache ->
  (0 <= axis <= 2)%Z ->
  truthy (Z.land (sd_flags sd) (Z.shiftl SCULPT_LOCK_X axis)) = false ->
  truthy (Z.land (flag cache) (Z.shiftl CLIP_X axis)) = true ->
  nth_error verts i = Some vert ->
  nth_error translations i = Some translation ->
  fltb (v3_get (clip_tolerance cache) axis)
       (fabs (v3_get (transform_point (clip_mirror_mtx cache)
                        (at_index v3_zero positions vert)) axis)) = false ->
  exists translation',
    nth_error (clip_and_lock_translations invert SCULPT_LOCK_X sd ss positions verts
                 translations) i = Some translation' /\
    v3_get translation' axis
    = fsub (clipped_coordinate invert cache (at_index v3_zero positions vert) axis)
           (v3_get (at_index v3_zero positions vert) axis).
Proof.
  intros Hss Ha Hlock Hclip Hv Ht Htol.
  unfold clip_and_lock_translations. rewrite Hss. cbn [fold_left].
  set (step := clip_and_lock_axis invert SCULPT_LOCK_X sd cache positions verts).
  assert (Hcases : (axis = 0 \/ axis = 1 \/ axis = 2)%Z) by lia.
  destruct Hcases as [-> | [-> | ->]].
  - destruct (clip_and_lock_axis_clipped translations 0 i vert translation
                Ha Hlock Hclip Hv Ht Htol) as [t1 [H1 E1]].
    destruct (clip_and_lock_axis_others (step 0%Z translations) 1 i vert t1
                ltac:(lia) Hv H1) as [t2 [H2 E2]].
    destruct (clip_and_lock_axis_others (step 1%Z (step 0%Z translations)) 2 i vert t2
                ltac:(lia) Hv H2) as [t3 [H3 E3]].
    exists t3. split; [exact H3|].
    rewrite E3, E2 by lia. exact E1.
  - destruct (clip_and_lock_axis_others translations 0 i vert translation
                ltac:(lia) Hv Ht) as [t1 [H1 _]].
    destruct (clip_and_lock_axis_clipped (step 0%Z translations) 1 i vert t1
                Ha Hlock Hclip Hv H1 Htol) as [t2 [H2 E2]].
    destruct (clip_and_lock_axis_others (step 1%Z (step 0%Z translations)) 2 i vert t2
                ltac:(lia) Hv H2) as [t3 [H3 E3]].
    exists t3. split; [exact H3|].
    rewrite E3 by lia. exact E2.
  - destruct (clip_and_lock_axis_others translations 0 i vert translation
                ltac:(lia) Hv Ht) as [t1 [H1 _]].
    destruct (clip_and_lock_axis_others (step 0%Z translations) 1 i vert t1
                ltac:(lia) Hv H1) as [t2 [H2 _]].
    destruct (clip_and_lock_axis_clipped (step 1%Z (step 0%Z translations)) 2 i vert t2
                Ha Hlock Hclip Hv H2 Htol) as [t3 [H3 E3]].
    exists t3. split; [exact H3 | exact E3].
Qed.
End ClipProps.

Lemma v3_get_add (a b : float3 Q) (axis : Z) :
  v3_get (v3_add a b) axis = (v3_get a axis + v3_get b axis)%Q.
Proof.
  unfold v3_get, v3_add. cbn [vx vy vz].
  destruct (axis =? 0)%Z; [reflexivity|]. destruct (axis =? 1)%Z; reflexivity.
Qed.

(** The adjugate inverse of the quarter turn takes every point back. *)
Lemma invert_adjugate_quarter_turn (p : float3 Q) :
  let back := transform_point (invert_adjugate quarter_turn) (transform_point quarter_turn p) in
  (vx back == vx p)%Q /\ (vy back == vy p)%Q /\ (vz back == vz p)%Q.
Proof.
  destruct p as [x y z]. cbv zeta.
  replace (invert_adjugate (F := Q) quarter_turn)
    with (mkmat (mk4 0 (-1) 0 0) (mk4 1 0 0 0) (mk4 0 0 1 0) (mk4 0 0 0 1))%Q
    by (vm_compute; reflexivity).
  unfold transform_point, quarter_turn. q_ops. cbn [vx vy vz qx qy qz qw col0 col1 col2 col3].
  repeat split; ring.
Qed.

(** Mirror clipping on X with the mirror object turned a quarter about
    Z, no axis locked ([SCULPT_LOCK_X] is bit 3), the vertex (5,0,0) to be
    moved by (1,1,0).
    The vertex lies on the mirror plane (mirror-space x is 0).  The code
    sets the x translation to 0, so that the vertex ends at x = 5: not at
    x = 6, which is where the target position (6,1,0), taken into mirror
    space, put onto the plane and taken back, has its x; and the vertex
    ends at mirror-space x = -1, off the mirror plane. *)
Lemma clip_uses_current_position :
  (Qabs (vx (transform_point quarter_turn (q3 5 0 0))) <= 1 # 1000)%Q /\
  clip_and_lock_translations invert_adjugate 8 unlocked (clip_x_session (1 # 1000))
    [q3 5 0 0] [0%Z] [q3 1 1 0] = [q3 0 1 0] /\
  transform_point (invert_adjugate quarter_turn)
    (v3_set (transform_point quarter_turn (v3_add (q3 5 0 0) (q3 1 1 0))) 0 0)
  = q3 6 0 0 /\
  ~ (vx (v3_add (q3 5 0 0) (q3 0 1 0)) == 6)%Q /\
  ~ (vx (transform_point quarter_turn (v3_add (q3 5 0 0) (q3 0 1 0))) == 0)%Q.
Proof.
  split; [vm_compute; discriminate|].
  split; [vm_compute; reflexivity|].
  split; [vm_compute; reflexivity|].
  split; vm_compute; discriminate.
Qed.

(** The same in binary32, where all the numbers involved are exact: the
    x translation becomes 0 and the vertex ends at x = 5, the target-based
    position would have x = 6. *)
Lemma binary32_clip_quarter_turn :
  map (fun t => (feqb (vx t) fzero, feqb (vy t) (b32 1)))
      (clip_and_lock_translations invert_adjugate 8 unlocked
         (clip_x_session (fdiv (b32 1) (b32 1000))) [b3 5 0 0] [0%Z] [b3 1 1 0])
  = [(true, true)] /\
  feqb (vx (transform_point (invert_adjugate quarter_turn)
              (v3_set (transform_point quarter_turn (v3_add (b3 5 0 0) (b3 1 1 0)))
                      0 fzero)))
       (b32 6) = true.
Proof. split; vm_compute; reflexivity. Qed.

(** With the mirror object moved along X by [-13421773 * 2^-37] and the
    vertex at [x = 2^-10], within the tolerance 1/1000 of the mirror plane,
    in binary32: the point on the plane has [x = 13421773 * 2^-37], the x
    translation is the rounded difference, and adding it to the position
    gives [x = 13421776 * 2^-37]: the difference is as the code computes it,
    the sum misses the plane by rounding. *)
Lemma binary32_clip_shifted_mirror :
  let s := fopp (b32_frac 13421773 37) in
  let tolerance := fdiv (b32 1) (b32 1000) in
  let position := mk3 (b32_frac 1 10) fzero fzero in
  let cache := plain_cache 0 CLIP_X (mk3 tolerance fzero fzero) (shifted_x s) in
  let clipped := clipped_coordinate invert_adjugate cache position 0 in
  clipped = b32_frac 13421773 37 /\
  map (fun t => (vx t, vx (v3_add position t)))
      (clip_and_lock_translations invert_adjugate 8 unlocked
         (shifted_x_session s tolerance) [position] [0%Z] [b3 1 0 0])
  = [(fsub clipped (vx position), b32_frac 13421776 37)].
Proof. cbv zeta. split; vm_compute; reflexivity. Qed.

Lemma v3_get_add_any {F : Type} `{FloatOps F} (a b : float3 F) (axis : Z) :
  v3_get (v3_add a b) axis = fadd (v3_get a axis) (v3_get b axis).
Proof.
  unfold v3_get, v3_add. cbn [vx vy vz].
  destruct (axis =? 0)%Z; [reflexivity|]. destruct (axis =? 1)%Z; reflexivity.
Qed.

Lemma Q_add_sub_exact : add_sub_exact Qeq.
Proof. intros a b. q_ops. ring. Qed.

(** C3, as the code has it.  For an axis with mirror clipping enabled and not
    locked, and a vertex that the code's test finds within [clip_tolerance]
    of the mirror plane measured in mirror-object space,
    [clip_and_lock_translations] sets that axis's translation component to
    the difference between the coordinate, on that axis, of the point
    obtained by transforming the vertex's current (pre-translation) position
    into mirror space, zeroing that axis and transforming back, and the
    current coordinate of the vertex; the translation component is not zeroed
    directly.  This holds for any arithmetic.  In an arithmetic where adding
    a difference back is exact, as it is with exact numbers, the
    post-translation coordinate on that axis is therefore the coordinate of
    that point. *)
Theorem clip_translation_from_current_position
    (F : Type) (ops : FloatOps F)
    (RegionView3D View3D : Type) (invert : float4x4 F -> float4x4 F) (SCULPT_LOCK_X : Z)
    (sd : Sculpt F) (ss : SculptSession F RegionView3D View3D)
    (cache : StrokeCache F RegionView3D View3D)
    (positions : list (float3 F)) (verts : list Z) (translations : list (float3 F))
    (axis : Z) (i : nat) (vert : Z) (translation : float3 F) :
  ss_cache ss = Some cache ->
  (0 <= axis <= 2)%Z ->
  truthy (Z.land (sd_flags sd) (Z.shiftl SCULPT_LOCK_X axis)) = false ->
  truthy (Z.land (flag cache) (Z.shiftl CLIP_X axis)) = true ->
  nth_error verts i = Some vert ->
  nth_error translations i = Some translation ->
  fltb (v3_get (clip_tolerance cache) axis)
       (fabs (v3_get (transform_point (clip_mirror_mtx cache)
                        (at_index v3_zero positions vert)) axis)) = false ->
  exists translation',
    nth_error (clip_and_lock_translations invert SCULPT_LOCK_X sd ss positions verts
                 translations) i = Some translation' /\
    v3_get translation' axis
    = fsub (clipped_coordinate invert cache (at_index v3_zero positions vert) axis)
           (v3_get (at_index v3_zero positions vert) axis) /\
    forall eqv : F -> F -> Prop,
      add_sub_exact eqv ->
      eqv (v3_get (v3_add (at_index v3_zero positions vert) translation') axis)
          (clipped_coordinate invert cache (at_index v3_zero positions vert) axis).
Proof.
  intros Hss Ha Hlock Hclip Hv Ht Htol.
  destruct (clip_and_lock_translations_clipped RegionView3D View3D invert SCULPT_LOCK_X
              sd cache positions verts ss translations axis i vert translation
              Hss Ha Hlock Hclip Hv Ht Htol) as [t' [Hnth Ht']].
  exists t'. split; [exact Hnth|]. split; [exact Ht'|].
  intros eqv Hexact. rewrite v3_get_add_any, Ht'. apply Hexact.
Qed.

(** Mirror clipping on X with the mirror object turned a quarter about
    Z, no axis locked ([SCULPT_LOCK_X] is bit 3), the vertex (5,0,0) to be
    moved by (1,1,0): the x translation becomes 5 - 5 and the vertex ends at
    x = 5. *)
Lemma clip_translation_from_current_position_witness :
  exists translation',
    nth_error (clip_and_lock_translations invert_adjugate 8 unlocked
                 (clip_x_session (1 # 1000)) [q3 5 0 0] [0%Z] [q3 1 1 0]) 0
    = Some translation' /\
    v3_get translation' 0 = (5 - 5)%Q /\
    (v3_get (v3_add (q3 5 0 0) translation') 0 == 5)%Q.
Proof.
  destruct (clip_translation_from_current_position Q Q_ops unit unit
              (@invert_adjugate Q Q_ops) 8 (@unlocked Q Q_ops)
              (@clip_x_session Q Q_ops (1 # 1000))
              (@plain_cache Q Q_ops 0 CLIP_X (mk3 (1 # 1000) 0 0)%Q (@quarter_turn Q Q_ops))
              [q3 5 0 0] [0%Z] [q3 1 1 0] 0%Z 0%nat 0%Z (q3 1 1 0)
              eq_refl ltac:(lia) eq_refl eq_refl eq_refl eq_refl eq_refl)
    as [translation' [Hnth [Hdiff Hexact]]].
  exists translation'. split; [exact Hnth|]. split.
  - rewrite Hdiff. vm_compute. reflexivity.
  - apply (Hexact Qeq Q_add_sub_exact).
Defined.

(** ** The pass enumeration: loops *)

Lemma for_range_empty {St : Type} (first last : Z) (body : Z -> St -> St) (s : St) :
  (last < first)%Z -> for_range first last body s = s.
Proof.
  intros Hlt. unfold for_range.
  replace (Z.to_nat (last - first + 1)) with 0%nat by lia. reflexivity.
Qed.

(** An invariant that follows the loop counter. *)
Lemma for_range_ind {St : Type} (P : Z -> St -> Prop) (first last : Z)
    (body : Z -> St -> St) (s : St) :
  (first <= last + 1)%Z ->
  P first s ->
  (forall k s, (first <= k <= last)%Z -> P k s -> P (k + 1)%Z (body k s)) ->
  P (last + 1)%Z (for_range first last body s).
Proof.
  intros Hle Hinit Hstep. unfold for_range.
  remember (Z.to_nat (last - first + 1)) as n eqn:En.
  assert (Hlast : (last + 1 = first + Z.of_nat n)%Z) by lia.
  rewrite Hlast. clear Hlast.
  assert (Hn : (Z.of_nat n <= last - first + 1)%Z) by lia. clear En Hle.
  induction n as [|n IH].
  - simpl. rewrite Z.add_0_r. exact Hinit.
  - rewrite seq_S, fold_left_app. cbn [fold_left Nat.add].
    replace (first + Z.of_nat (S n))%Z with (first + Z.of_nat n + 1)%Z by lia.
    apply Hstep; [lia | apply IH; lia].
Qed.

(** An invariant that does not depend on the counter. *)
Lemma for_range_inv {St : Type} (P : St -> Prop) (first last : Z)
    (body : Z -> St -> St) (s : St) :
  P s ->
  (forall k s, (first <= k <= last)%Z -> P s -> P (body k s)) ->
  P (for_range first last body s).
Proof.
  intros Hinit Hstep.
  destruct (Z_lt_le_dec last first) as [Hlt | Hle].
  - rewrite for_range_empty by exact Hlt. exact Hinit.
  - apply (for_range_ind (fun _ => P)); [lia | exact Hinit | exact Hstep].
Qed.

(** ** The pass enumeration: one call of [do_tiled] *)

Section TiledProps.
Context {F : Type} `{FloatOps F}.
Variable RegionView3D : Type.
Variable View3D : Type.
Variable PAINT_TILE_X : Z.
Variable sd : Sculpt F.
Variable ob : Object F.

Abbreviation state := (@DriverState F RegionView3D View3D).

Lemma do_tile_tiled_so_far tr0 c0 orgLoc original_initial_location cur0 cur1 cur2
    (st : state) :
  tiled_so_far tr0 c0 st ->
  tiled_so_far tr0 c0 (do_tile sd orgLoc original_initial_location cur0 cur1 cur2 st).
Proof.
  intros [tiles [Htr [Htiles [Hkey Hpos]]]]. unfold do_tile.
  destruct ((cur0 =? 0)%Z && (cur1 =? 0)%Z && (cur2 =? 0)%Z).
  - exists tiles. repeat split; assumption.
  - match goal with |- tiled_so_far _ _ (action (mkDriver ?c _)) => set (c' := c) end.
    assert (Hkey' : pass_key c' = pass_key c0) by (rewrite <- Hkey; reflexivity).
    assert (Htile' : tile_pass c' = (tile_pass (cache st) + 1)%Z) by reflexivity.
    exists (tiles ++ [c']). unfold action. cbn [trace cache].
    split; [rewrite Htr, <- app_assoc; reflexivity|].
    split; [|split; [exact Hkey' | lia]].
    apply Forall_app. split; [exact Htiles|].
    constructor; [|constructor]. split; [exact Hkey' | lia].
Qed.

(** [do_tiled] invokes the action at the un-tiled position first, once,
    and then at tiles whose [tile_pass] is positive; all of them belong
    to the combination the cache had at the call. *)
Lemma do_tiled_trace (st : state) :
  tiled_so_far (trace st) (set_tile_pass (cache st) 0) (do_tiled PAINT_TILE_X sd ob st).
Proof.
  unfold do_tiled. apply for_range_inv.
  - exists []. unfold action. cbn [trace cache].
    split; [reflexivity|]. split; [constructor|]. split; [reflexivity | cbn; lia].
  - intros cur0 st0 _ H0. apply for_range_inv; [exact H0|].
    intros cur1 st1 _ H1. apply for_range_inv; [exact H1|].
    intros cur2 st2 _ H2. apply do_tile_tiled_so_far. exact H2.
Qed.
End TiledProps.

(** ** C1: the mirror passes at bitmask 7 *)

Section MirrorPasses.
Context {F : Type} `{FloatOps F}.
Variable RegionView3D : Type.
Variable View3D : Type.
Variable rotate_point : Z -> F -> float3 F -> float3 F.
Variable radial_angle : Z -> Z -> F.
Variable PAINT_TILE_X : Z.
Variable sd : Sculpt F.
Variable ob : Object F.

Lemma untiled_mirror_passes_block (tr tiles : list (StrokeCache F RegionView3D View3D))
    (c0 : StrokeCache F RegionView3D View3D) :
  tile_pass c0 = 0%Z ->
  Forall (fun e => pass_key e = pass_key c0 /\ (0 < tile_pass e)%Z) tiles ->
  untiled_mirror_passes (tr ++ c0 :: tiles)
  = untiled_mirror_passes tr ++ [mirror_symmetry_pass c0].
Proof.
  intros Hc0 Htiles. unfold untiled_mirror_passes.
  rewrite filter_app, map_app. f_equal. cbn [filter]. rewrite Hc0. cbn [Z.eqb map].
  f_equal. induction Htiles as [|e tiles [_ He] _ IH]; [reflexivity|].
  cbn [filter]. destruct (tile_pass e =? 0)%Z eqn:E; [apply Z.eqb_eq in E; lia|].
  exact IH.
Qed.

Lemma do_radial_symmetry_count_1 (symm axis : Z)
    (st : @DriverState F RegionView3D View3D) :
  radial_symm sd = mkint3 1 1 1 ->
  do_radial_symmetry rotate_point radial_angle PAINT_TILE_X sd ob symm axis st = st.
Proof.
  intros Hrad. unfold do_radial_symmetry. rewrite Hrad.
  assert (Hcount : int3_get (mkint3 1 1 1) (axis - char_X) = 1%Z).
  { unfold int3_get. cbn [i0 i1 i2].
    destruct (axis - char_X =? 0)%Z; [reflexivity|].
    destruct (axis - char_X =? 1)%Z; reflexivity. }
  rewrite Hcount. apply for_range_empty. lia.
Qed.
End MirrorPasses.

(** C1, as the code has it.  For symmetry bitmask 7 every combination 0..7 is
    accepted by [SCULPT_is_symmetry_iteration_valid], and with all radial
    repeat counts equal to 1 the mirror passes that
    [do_symmetrical_brush_actions] enumerates are 0, 1, 2, 3, 4, 5, 6, 7, in
    this order, one un-tiled invocation each.  This holds for any
    arithmetic. *)
Theorem symmetry_7_enumerates_all
    (F : Type) (ops : FloatOps F) (RegionView3D View3D : Type)
    (rotate_point : Z -> F -> float3 F -> float3 F) (radial_angle : Z -> Z -> F) (PAINT_TILE_X : Z)
    (sd : Sculpt F) (ob : Object F) (c : StrokeCache F RegionView3D View3D) :
  mesh_symmetry_xyz ob = 7%Z ->
  radial_symm sd = mkint3 1 1 1 ->
  map (fun i => SCULPT_is_symmetry_iteration_valid i 7) [0; 1; 2; 3; 4; 5; 6; 7]%Z
  = [true; true; true; true; true; true; true; true] /\
  untiled_mirror_passes
    (trace (do_symmetrical_brush_actions rotate_point radial_angle PAINT_TILE_X sd ob
              (mkDriver c [])))
  = [0; 1; 2; 3; 4; 5; 6; 7]%Z.
Proof.
  intros Hsymm Hrad. split; [reflexivity|].
  unfold do_symmetrical_brush_actions. rewrite Hsymm.
  change [0; 1; 2; 3; 4; 5; 6; 7]%Z with (map Z.of_nat (seq 0 (Z.to_nat (7 + 1)))).
  apply (for_range_ind
           (fun k st => (0 <= k)%Z /\
                        untiled_mirror_passes (trace st)
                        = map Z.of_nat (seq 0 (Z.to_nat k)))).
  - lia.
  - split; [lia | reflexivity].
  - intros k st Hk [_ Htr]. split; [lia|].
    unfold mirror_iteration. rewrite symmetry_valid_7 by lia. cbn [negb].
    rewrite !do_radial_symmetry_count_1 by exact Hrad.
    match goal with |- context [do_tiled _ _ _ ?s] => set (st0 := s) end.
    destruct (do_tiled_trace RegionView3D View3D PAINT_TILE_X sd ob st0)
      as [tiles [Htrace [Htiles _]]].
    rewrite Htrace, untiled_mirror_passes_block by (reflexivity || exact Htiles).
    subst st0. cbn [trace]. rewrite Htr.
    replace (Z.to_nat (k + 1)) with (S (Z.to_nat k)) by lia.
    rewrite seq_S, map_app. cbn [Nat.add map]. f_equal. f_equal.
    cbn. lia.
Qed.

(** Bitmask 7, radial counts 1, tiling along X, with rational
    arithmetic. *)
Lemma symmetry_7_enumerates_all_witness :
  untiled_mirror_passes
    (trace (do_symmetrical_brush_actions (fun _ _ p => p) demo_angle 16
              (tiled_x_settings (mkint3 1 1 1)) (mirrored_object 7)
              (mkDriver (hover_cache 0) [])))
  = [0; 1; 2; 3; 4; 5; 6; 7]%Z.
Proof.
  exact (proj2 (symmetry_7_enumerates_all Q Q_ops unit unit (fun _ _ p => p) demo_angle 16
                  (tiled_x_settings (mkint3 1 1 1)) (mirrored_object 7) (hover_cache 0)
                  eq_refl eq_refl)).
Defined.

(** ** C7: the order of the invocations *)

Section PassOrder.
Context {F : Type} `{FloatOps F}.
Variable RegionView3D : Type.
Variable View3D : Type.

Abbreviation event := (StrokeCache F RegionView3D View3D).

Lemma pass_key_same (a b : event) : pass_key a = pass_key b <-> same_combination a b.
Proof.
  unfold pass_key, same_combination, axis_of. split.
  - intros [= -> -> ->]. repeat split.
  - intros [-> [-> ->]]. reflexivity.
Qed.

Lemma trace_ok_nil : trace_ok (@nil event).
Proof. intros [|x l1] e l2 Heq; discriminate Heq. Qed.

Lemma trace_ok_snoc (tr : list event) (e : event) :
  trace_ok tr -> event_ok tr e -> trace_ok (tr ++ [e]).
Proof.
  intros Htr He l1 x l2 Heq.
  destruct (exists_last (l := x :: l2) ltac:(discriminate)) as [l2' [y Hl2]].
  destruct l2' as [|x' l2'].
  - cbn in Hl2. injection Hl2 as -> ->.
    apply app_inj_tail in Heq as [-> ->]. exact He.
  - cbn in Hl2. injection Hl2 as <- ->.
    change (l1 ++ x :: l2' ++ [y]) with (l1 ++ (x :: l2') ++ [y]) in Heq.
    rewrite app_assoc in Heq. apply app_inj_tail in Heq as [-> _].
    apply (Htr l1 x l2'). reflexivity.
Qed.

(** A block: the un-tiled invocation of a new combination, then its
    tiled repeats. *)
Lemma trace_ok_block (tr tiles : list event) (c0 : event) :
  trace_ok tr -> event_ok tr c0 -> tile_pass c0 = 0%Z ->
  Forall (fun e => pass_key e = pass_key c0 /\ (0 < tile_pass e)%Z) tiles ->
  trace_ok (tr ++ c0 :: tiles).
Proof.
  intros Htr Hc0 Htile0 Htiles.
  induction tiles as [|e tiles IH] using rev_ind.
  - apply trace_ok_snoc; assumption.
  - apply Forall_app in Htiles as [Htiles He].
    inversion He as [|? ? [Hkey Hpos] _]. subst.
    apply pass_key_same in Hkey. destruct Hkey as [Hm [Hx Hr]].
    change (tr ++ c0 :: tiles ++ [e]) with (tr ++ (c0 :: tiles) ++ [e]).
    rewrite app_assoc. apply trace_ok_snoc; [apply IH; exact Htiles|].
    destruct Hc0 as [Hfirst [_ [_ [Hwf Hbase]]]].
    assert (Hin : forall e', In e' (tr ++ c0 :: tiles) ->
                    combination_before e' e \/ same_combination e' e).
    { intros e' Hin. apply in_app_or in Hin as [Hin | [<- | Hin]].
      - left. specialize (Hfirst Htile0 e' Hin).
        unfold combination_before in *. rewrite Hm, Hx, Hr. exact Hfirst.
      - right. unfold same_combination. auto.
      - right. rewrite Forall_forall in Htiles.
        destruct (Htiles e' Hin) as [Hkey' _]. apply pass_key_same in Hkey'.
        unfold same_combination in *. intuition congruence. }
    repeat split.
    + intros Hzero. lia.
    + intros _. exists c0. split; [apply in_or_app; right; left; reflexivity|].
      split; [unfold same_combination; auto | exact Htile0].
    + exact Hin.
    + destruct Hwf as [Hw _]. rewrite Hx. exact Hw.
    + destruct Hwf as [_ [Hw _]]. rewrite Hr. exact Hw.
    + destruct Hwf as [_ [_ Hw]]. rewrite Hx, Hr. exact Hw.
    + intros Hrad. rewrite Hr in Hrad. destruct (Hbase Hrad) as [e0 [Hin0 Hprops]].
      exists e0. split; [apply in_or_app; left; exact Hin0|].
      rewrite Hm. exact Hprops.
Qed.

(** How an ordered trace reads at any of its invocations. *)
Lemma trace_ok_order (tr l1 l2 : list event) (e : event) :
  trace_ok tr -> tr = l1 ++ e :: l2 ->
  (tile_pass e = 0%Z -> forall e', In e' l1 -> ~ same_combination e' e) /\
  (tile_pass e = 0%Z ->
   forall e', In e' l2 -> same_combination e' e -> tile_pass e' <> 0%Z) /\
  (tile_pass e <> 0%Z ->
   exists e0, In e0 l1 /\ same_combination e0 e /\ tile_pass e0 = 0%Z) /\
  (radial_symmetry_pass e <> 0%Z ->
   exists e0, In e0 l1 /\ mirror_symmetry_pass e0 = mirror_symmetry_pass e /\
              radial_symmetry_pass e0 = 0%Z /\ tile_pass e0 = 0%Z) /\
  (radial_symmetry_pass e <> 0%Z ->
   forall e', In e' l2 -> mirror_symmetry_pass e' = mirror_symmetry_pass e ->
              radial_symmetry_pass e' <> 0%Z).
Proof.
  intros Htr Heq.
  destruct (Htr l1 e l2 Heq) as [Hfirst [Htiled [_ [Hwf Hbase]]]].
  assert (Hlater : forall e', In e' l2 -> exists l, In e l /\ event_ok l e').
  { intros e' Hin. apply in_split in Hin as [l2a [l2b ->]].
    exists (l1 ++ e :: l2a). split; [apply in_or_app; right; left; reflexivity|].
    apply (Htr (l1 ++ e :: l2a) e' l2b). rewrite Heq, <- app_assoc. reflexivity. }
  split; [|split; [|split; [|split]]].
  - intros Hzero e' Hin [Hm [Hx Hr]].
    specialize (Hfirst Hzero e' Hin). unfold combination_before, key_before in Hfirst.
    lia.
  - intros Hzero e' Hin [Hm [Hx Hr]] Hzero'.
    destruct (Hlater e' Hin) as [l [Hl [Hfirst' _]]].
    specialize (Hfirst' Hzero' e Hl). unfold combination_before, key_before in Hfirst'.
    lia.
  - exact Htiled.
  - exact Hbase.
  - intros Hrad e' Hin Hm Hrad'.
    destruct (Hlater e' Hin) as [l [Hl [_ [_ [Hle [[_ [_ Hwf']] _]]]]]].
    destruct Hwf as [Hax [Hr0 _]]. specialize (Hwf' Hrad').
    destruct (Hle e Hl) as [Hbefore | [_ [_ Hsame]]]; [|congruence].
    unfold combination_before, key_before in Hbefore. lia.
Qed.
End PassOrder.

Section DriverOrder.
Context {F : Type} `{FloatOps F}.
Variable RegionView3D : Type.
Variable View3D : Type.
Variable rotate_point : Z -> F -> float3 F -> float3 F.
Variable radial_angle : Z -> Z -> F.
Variable PAINT_TILE_X : Z.
Variable sd : Sculpt F.
Variable ob : Object F.

Abbreviation dstate := (@DriverState F RegionView3D View3D).

Lemma below_weaken (tr : list (StrokeCache F RegionView3D View3D)) (m x r m' x' r' : Z) :
  below tr m x r ->
  (m < m' \/ (m = m' /\ (x < x' \/ (x = x' /\ r <= r'))))%Z ->
  below tr m' x' r'.
Proof.
  intros Hb Hle e Hin. specialize (Hb e Hin). unfold key_before in *. lia.
Qed.

Lemma calc_brushdata_symm_key (c : StrokeCache F RegionView3D View3D) (symm axis : Z)
    (angle : F) :
  let c' := SCULPT_cache_calc_brushdata_symm rotate_point c symm axis angle in
  mirror_symmetry_pass c' = mirror_symmetry_pass c /\
  radial_symmetry_pass c' = radial_symmetry_pass c /\
  axis_of c' = (if truthy axis then axis else 0%Z).
Proof.
  unfold SCULPT_cache_calc_brushdata_symm, axis_of.
  destruct (truthy axis); repeat split.
Qed.

(** One call of [do_tiled] on a cache whose combination is new. *)
Lemma do_tiled_ok (st : dstate) :
  trace_ok (trace st) ->
  below (trace st) (mirror_symmetry_pass (cache st)) (axis_of (cache st))
        (radial_symmetry_pass (cache st)) ->
  well_formed (cache st) ->
  (radial_symmetry_pass (cache st) <> 0%Z ->
   has_base_pass (trace st) (mirror_symmetry_pass (cache st))) ->
  let st' := do_tiled PAINT_TILE_X sd ob st in
  trace_ok (trace st') /\
  below (trace st') (mirror_symmetry_pass (cache st)) (axis_of (cache st))
        (radial_symmetry_pass (cache st) + 1) /\
  mirror_symmetry_pass (cache st') = mirror_symmetry_pass (cache st) /\
  incl (trace st) (trace st') /\
  (radial_symmetry_pass (cache st) = 0%Z ->
   has_base_pass (trace st') (mirror_symmetry_pass (cache st))).
Proof.
  intros Hok Hbelow Hwf Hbase st'.
  destruct (do_tiled_trace RegionView3D View3D PAINT_TILE_X sd ob st)
    as [tiles [Htrace [Htiles [Hkey _]]]].
  fold st' in Htrace, Hkey. set (c0 := set_tile_pass (cache st) 0) in *.
  assert (Hc0 : event_ok (trace st) c0).
  { repeat split.
    - intros _ e' Hin. exact (Hbelow e' Hin).
    - intros Hne. exfalso. apply Hne. reflexivity.
    - intros e' Hin. left. exact (Hbelow e' Hin).
    - apply Hwf.
    - apply Hwf.
    - apply Hwf.
    - exact Hbase. }
  rewrite Htrace. split; [|split; [|split; [|split]]].
  - apply trace_ok_block; [exact Hok | exact Hc0 | reflexivity | exact Htiles].
  - intros e' Hin. apply in_app_or in Hin as [Hin | [<- | Hin]].
    + specialize (Hbelow e' Hin). unfold key_before in *. lia.
    + right. split; [reflexivity|]. right. split; [reflexivity|].
      change (radial_symmetry_pass c0) with (radial_symmetry_pass (cache st)). lia.
    + rewrite Forall_forall in Htiles. destruct (Htiles e' Hin) as [Hk _].
      apply pass_key_same in Hk. destruct Hk as [Hm [Hx Hr]].
      right. split; [exact Hm|]. right. split; [exact Hx|].
      rewrite Hr. change (radial_symmetry_pass c0) with (radial_symmetry_pass (cache st)).
      lia.
  - apply pass_key_same in Hkey. destruct Hkey as [Hm _]. exact Hm.
  - intros e Hin. apply in_or_app. left. exact Hin.
  - intros Hrad. exists c0. split; [apply in_or_app; right; left; reflexivity|].
    split; [reflexivity|]. split; [exact Hrad | reflexivity].
Qed.

Lemma has_base_pass_incl (tr tr' : list (StrokeCache F RegionView3D View3D)) (m : Z) :
  incl tr tr' -> has_base_pass tr m -> has_base_pass tr' m.
Proof.
  intros Hincl [e0 [Hin Hprops]]. exists e0. split; [apply Hincl, Hin | exact Hprops].
Qed.

(** The radial passes about one axis, after the base pass of the
    mirror combination. *)
Lemma do_radial_symmetry_ok (symm axis : Z) (st : dstate) :
  (0 < axis)%Z ->
  trace_ok (trace st) ->
  below (trace st) (mirror_symmetry_pass (cache st)) axis 1 ->
  has_base_pass (trace st) (mirror_symmetry_pass (cache st)) ->
  let st' := do_radial_symmetry rotate_point radial_angle PAINT_TILE_X sd ob symm axis st in
  trace_ok (trace st') /\
  below (trace st') (mirror_symmetry_pass (cache st)) (axis + 1) 0 /\
  mirror_symmetry_pass (cache st') = mirror_symmetry_pass (cache st) /\
  incl (trace st) (trace st').
Proof.
  intros Haxis Hok Hbelow Hbase. cbv zeta. unfold do_radial_symmetry.
  set (m := mirror_symmetry_pass (cache st)) in *.
  set (count := int3_get (radial_symm sd) (axis - char_X)).
  destruct (Z_lt_le_dec (count - 1) 1) as [Hempty | Hloop].
  { rewrite for_range_empty by exact Hempty.
    split; [exact Hok|]. split; [|split; [reflexivity | apply incl_refl]].
    eapply below_weaken; [exact Hbelow | lia]. }
  assert (Hend :
    (fun k (s : dstate) =>
       trace_ok (trace s) /\ below (trace s) m axis k /\
       mirror_symmetry_pass (cache s) = m /\ incl (trace st) (trace s))
      (count - 1 + 1)%Z
      (for_range 1 (count - 1)
         (fun i s =>
            do_tiled PAINT_TILE_X sd ob
              (mkDriver
                 (SCULPT_cache_calc_brushdata_symm rotate_point
                    (set_radial_symmetry_pass (cache s) i) symm axis
                    (radial_angle i count))
                 (trace s))) st)).
  { apply for_range_ind.
    - lia.
    - split; [exact Hok|]. split; [exact Hbelow|]. split; [reflexivity | apply incl_refl].
    - intros k s Hk [Hoks [Hbelows [Hms Hincl]]].
      match goal with |- context [do_tiled _ _ _ ?s0] => set (st0 := s0) end.
      destruct (calc_brushdata_symm_key (set_radial_symmetry_pass (cache s) k) symm axis
                  (radial_angle k count)) as [Hm [Hr Hx]].
      assert (Htruthy : truthy axis = true).
      { unfold truthy. destruct (axis =? 0)%Z eqn:E; [apply Z.eqb_eq in E; lia|].
        reflexivity. }
      rewrite Htruthy in Hx.
      change (mirror_symmetry_pass (set_radial_symmetry_pass (cache s) k))
        with (mirror_symmetry_pass (cache s)) in Hm.
      change (radial_symmetry_pass (set_radial_symmetry_pass (cache s) k)) with k in Hr.
      pose proof (do_tiled_ok st0) as Htiled. cbv zeta in Htiled.
      change (cache st0)
        with (SCULPT_cache_calc_brushdata_symm rotate_point
                (set_radial_symmetry_pass (cache s) k) symm axis
                (radial_angle k count)) in Htiled.
      change (trace st0) with (trace s) in Htiled.
      rewrite Hm, Hr, Hx, Hms in Htiled.
      destruct Htiled as [Hok' [Hbelow' [Hm' [Hincl' _]]]].
      + exact Hoks.
      + exact Hbelows.
      + unfold well_formed. rewrite Hr, Hx. repeat split; lia.
      + intros _. eapply has_base_pass_incl; [exact Hincl | exact Hbase].
      + split; [exact Hok'|]. split; [exact Hbelow'|]. split; [exact Hm'|].
        eapply incl_tran; [exact Hincl | exact Hincl']. }
  cbv beta in Hend. destruct Hend as [Hok' [Hbelow' [Hm' Hincl']]].
  split; [exact Hok'|]. split; [|split; [exact Hm' | exact Hincl']].
  eapply below_weaken; [exact Hbelow' | lia].
Qed.

Lemma mirror_iteration_ok (symm i : Z) (st : dstate) :
  trace_ok (trace st) ->
  below (trace st) i 0 0 ->
  let st' := mirror_iteration rotate_point radial_angle PAINT_TILE_X sd ob symm i st in
  trace_ok (trace st') /\
  below (trace st') (i + 1) 0 0 /\
  incl (trace st) (trace st') /\
  (SCULPT_is_symmetry_iteration_valid i symm = true -> has_base_pass (trace st') i).
Proof.
  intros Hok Hbelow. cbv zeta. unfold mirror_iteration.
  destruct (SCULPT_is_symmetry_iteration_valid i symm).
  2:{ cbn [negb]. split; [exact Hok|]. split; [|split; [apply incl_refl | discriminate]].
      eapply below_weaken; [exact Hbelow | lia]. }
  cbn [negb].
  match goal with |- context [do_tiled _ _ _ ?s0] => set (st0 := s0) end.
  destruct (calc_brushdata_symm_key
              (set_radial_symmetry_pass (set_mirror_symmetry_pass (cache st) i) 0)
              i 0%Z fzero) as [Hm [Hr Hx]].
  change (truthy 0) with false in Hx.
  change (mirror_symmetry_pass
            (set_radial_symmetry_pass (set_mirror_symmetry_pass (cache st) i) 0))
    with i in Hm.
  change (radial_symmetry_pass
            (set_radial_symmetry_pass (set_mirror_symmetry_pass (cache st) i) 0))
    with 0%Z in Hr.
  pose proof (do_tiled_ok st0) as Htiled. cbv zeta in Htiled.
  change (cache st0)
    with (SCULPT_cache_calc_brushdata_symm rotate_point
            (set_radial_symmetry_pass (set_mirror_symmetry_pass (cache st) i) 0)
            i 0%Z fzero) in Htiled.
  change (trace st0) with (trace st) in Htiled.
  rewrite Hm, Hr, Hx in Htiled.
  destruct Htiled as [Hok1 [Hbelow1 [Hm1 [Hincl1 Hbase1]]]];
    [exact Hok | exact Hbelow | unfold well_formed; rewrite Hr, Hx; repeat split; lia
     | intros Hne; exfalso; apply Hne; reflexivity |].
  specialize (Hbase1 eq_refl).
  set (st1 := do_tiled PAINT_TILE_X sd ob st0) in *.
  destruct (do_radial_symmetry_ok i char_X st1) as [Hok2 [Hbelow2 [Hm2 Hincl2]]];
    [unfold char_X; lia | exact Hok1
     | rewrite Hm1; eapply below_weaken; [exact Hbelow1 | unfold char_X; lia]
     | rewrite Hm1; exact Hbase1 |].
  set (st2 := do_radial_symmetry rotate_point radial_angle PAINT_TILE_X sd ob i char_X st1) in *.
  rewrite Hm1 in Hm2, Hbelow2.
  destruct (do_radial_symmetry_ok i char_Y st2) as [Hok3 [Hbelow3 [Hm3 Hincl3]]];
    [unfold char_Y; lia | exact Hok2
     | rewrite Hm2; eapply below_weaken; [exact Hbelow2 | unfold char_X, char_Y; lia]
     | rewrite Hm2; eapply has_base_pass_incl; [exact Hincl2 | exact Hbase1] |].
  set (st3 := do_radial_symmetry rotate_point radial_angle PAINT_TILE_X sd ob i char_Y st2) in *.
  rewrite Hm2 in Hm3, Hbelow3.
  destruct (do_radial_symmetry_ok i char_Z st3) as [Hok4 [Hbelow4 [Hm4 Hincl4]]];
    [unfold char_Z; lia | exact Hok3
     | rewrite Hm3; eapply below_weaken; [exact Hbelow3 | unfold char_Y, char_Z; lia]
     | rewrite Hm3; eapply has_base_pass_incl;
       [eapply incl_tran; [exact Hincl2 | exact Hincl3] | exact Hbase1] |].
  rewrite Hm3 in Hbelow4.
  assert (Hincl : incl (trace st) (trace
            (do_radial_symmetry rotate_point radial_angle PAINT_TILE_X sd ob i char_Z st3))).
  { eapply incl_tran; [exact Hincl1|]. eapply incl_tran; [exact Hincl2|].
    eapply incl_tran; [exact Hincl3 | exact Hincl4]. }
  split; [exact Hok4|]. split; [|split; [exact Hincl|]].
  - eapply below_weaken; [exact Hbelow4 | lia].
  - intros _. eapply has_base_pass_incl; [|exact Hbase1].
    eapply incl_tran; [exact Hincl2|]. eapply incl_tran; [exact Hincl3 | exact Hincl4].
Qed.

(** The whole enumeration of one input step, from an empty log. *)
Lemma do_symmetrical_brush_actions_ok (c : StrokeCache F RegionView3D View3D) :
  let tr := trace (do_symmetrical_brush_actions rotate_point radial_angle PAINT_TILE_X sd ob
                     (mkDriver c [])) in
  trace_ok tr /\
  forall i, (0 <= i <= mesh_symmetry_xyz ob)%Z ->
            SCULPT_is_symmetry_iteration_valid i (mesh_symmetry_xyz ob) = true ->
            has_base_pass tr i.
Proof.
  cbv zeta. unfold do_symmetrical_brush_actions.
  set (symm := mesh_symmetry_xyz ob).
  destruct (Z_lt_le_dec symm 0) as [Hneg | Hpos].
  { rewrite for_range_empty by exact Hneg. cbn [trace].
    split; [apply trace_ok_nil | intros i Hi; lia]. }
  assert (Hend :
    (fun k (s : dstate) =>
       trace_ok (trace s) /\ below (trace s) k 0 0 /\
       forall i, (0 <= i < k)%Z -> SCULPT_is_symmetry_iteration_valid i symm = true ->
                 has_base_pass (trace s) i)
      (symm + 1)%Z
      (for_range 0 symm (mirror_iteration rotate_point radial_angle PAINT_TILE_X sd ob symm)
         (mkDriver (set_symmetry c symm) []))).
  { apply for_range_ind.
    - lia.
    - cbn [trace]. split; [apply trace_ok_nil|]. split; [intros e []|].
      intros i Hi. lia.
    - intros k s Hk [Hok [Hbelow Hbase]].
      destruct (mirror_iteration_ok symm k s Hok Hbelow) as [Hok' [Hbelow' [Hincl Hk']]].
      split; [exact Hok'|]. split; [exact Hbelow'|].
      intros i Hi Hvalid. destruct (Z.eq_dec i k) as [-> | Hne].
      + apply Hk'. exact Hvalid.
      + eapply has_base_pass_incl; [exact Hincl|]. apply Hbase; [lia | exact Hvalid]. }
  cbv beta in Hend. destruct Hend as [Hok [_ Hbase]].
  split; [exact Hok|]. intros i Hi. apply Hbase. lia.
Qed.
End DriverOrder.

(** C7.  In the sequence of brush-action invocations of one input step,
    read at any invocation [e] with the invocations [l1] before it and [l2]
    after it:
    - if [e] is un-tiled ([tile_pass] 0), no earlier invocation belongs to
      its mirror/radial combination and no later invocation of that
      combination is un-tiled: the un-tiled position is invoked exactly
      once and first;
    - if [e] is a tiled repeat, the un-tiled invocation of its combination
      is among the earlier ones;
    - if [e] is a radial pass ([radial_symmetry_pass] not 0), the un-tiled
      zero-rotation pass of its mirror combination is among the earlier
      ones and no zero-rotation invocation of that mirror combination
      follows;
    and every valid mirror combination has its zero-rotation pass invoked.
    This holds for any arithmetic. *)
Theorem invocation_order
    (F : Type) (ops : FloatOps F) (RegionView3D View3D : Type)
    (rotate_point : Z -> F -> float3 F -> float3 F) (radial_angle : Z -> Z -> F) (PAINT_TILE_X : Z)
    (sd : Sculpt F) (ob : Object F) (c : StrokeCache F RegionView3D View3D)
    (l1 l2 : list (StrokeCache F RegionView3D View3D))
    (e : StrokeCache F RegionView3D View3D) :
  trace (do_symmetrical_brush_actions rotate_point radial_angle PAINT_TILE_X sd ob (mkDriver c []))
  = l1 ++ e :: l2 ->
  (tile_pass e = 0%Z -> forall e', In e' l1 -> ~ same_combination e' e) /\
  (tile_pass e = 0%Z ->
   forall e', In e' l2 -> same_combination e' e -> tile_pass e' <> 0%Z) /\
  (tile_pass e <> 0%Z ->
   exists e0, In e0 l1 /\ same_combination e0 e /\ tile_pass e0 = 0%Z) /\
  (radial_symmetry_pass e <> 0%Z ->
   exists e0, In e0 l1 /\ mirror_symmetry_pass e0 = mirror_symmetry_pass e /\
              radial_symmetry_pass e0 = 0%Z /\ tile_pass e0 = 0%Z) /\
  (radial_symmetry_pass e <> 0%Z ->
   forall e', In e' l2 -> mirror_symmetry_pass e' = mirror_symmetry_pass e ->
              radial_symmetry_pass e' <> 0%Z) /\
  (forall i, (0 <= i <= mesh_symmetry_xyz ob)%Z ->
             SCULPT_is_symmetry_iteration_valid i (mesh_symmetry_xyz ob) = true ->
             exists e0, In e0 (l1 ++ e :: l2) /\ mirror_symmetry_pass e0 = i /\
                        radial_symmetry_pass e0 = 0%Z /\ tile_pass e0 = 0%Z).
Proof.
  intros Heq.
  destruct (do_symmetrical_brush_actions_ok RegionView3D View3D rotate_point radial_angle
              PAINT_TILE_X sd ob c) as [Hok Hbase].
  rewrite Heq in Hok, Hbase.
  destruct (trace_ok_order RegionView3D View3D (l1 ++ e :: l2) l1 l2 e Hok eq_refl)
    as [H1 [H2 [H3 [H4 H5]]]].
  repeat (split; [assumption|]). exact Hbase.
Qed.

(** The invocations of [demo_trace] as (mirror pass, rotation axis,
    radial pass, tile pass); 88 is the character 'X'. *)
Lemma demo_trace_passes :
  map (fun e => (mirror_symmetry_pass e, axis_of e, radial_symmetry_pass e, tile_pass e))
      demo_trace
  = [(0, 0, 0, 0); (0, 0, 0, 1); (0, 0, 0, 2);
     (0, 88, 1, 0); (0, 88, 1, 1); (0, 88, 1, 2);
     (1, 0, 0, 0); (1, 0, 0, 1); (1, 0, 0, 2);
     (1, 88, 1, 0); (1, 88, 1, 1); (1, 88, 1, 2)]%Z.
Proof. vm_compute. reflexivity. Qed.

(** The fifth invocation is the first tiled repeat of the radial pass of
    mirror combination 0: its un-tiled invocation is among the four before
    it. *)
Lemma invocation_order_witness :
  exists e0, In e0 (firstn 4 demo_trace) /\
             same_combination e0 (nth 4 demo_trace (hover_cache 0)) /\
             tile_pass e0 = 0%Z.
Proof.
  apply (invocation_order Q Q_ops unit unit (fun _ _ p => p) demo_angle 16
           (tiled_x_settings (mkint3 2 1 1)) (mirrored_object 1) (hover_cache 0)
           (firstn 4 demo_trace) (skipn 5 demo_trace) (nth 4 demo_trace (hover_cache 0))).
  - vm_compute. reflexivity.
  - vm_compute. discriminate.
Defined.

(* ================================================================== *)
(** * Further properties of the code *)

(** ** Loops with known bounds *)

Lemma for_range_last {St : Type} (first last : Z) (body : Z -> St -> St) (s : St) :
  (first <= last)%Z ->
  for_range first last body s = body last (for_range first (last - 1) body s).
Proof.
  intros Hle. unfold for_range.
  replace (Z.to_nat (last - first + 1)) with (S (Z.to_nat (last - 1 - first + 1))) by lia.
  rewrite seq_S, fold_left_app. cbn [fold_left Nat.add]. f_equal. lia.
Qed.

(** Unroll a loop whose bounds are numerals. *)
Ltac unroll_range :=
  repeat match goal with
         | |- context [for_range ?f ?l ?body ?s] =>
             first [ rewrite (for_range_empty f l body s) by lia
                   | rewrite (for_range_last f l body s) by lia;
                     let v := eval compute in (l - 1)%Z in change (l - 1)%Z with v ]
         end.

(** Case analysis on an integer known to lie between two numerals. *)
Ltac cases_0_7 x :=
  let H := fresh "Hcase" in
  assert (H : (x = 0 \/ x = 1 \/ x = 2 \/ x = 3 \/ x = 4 \/ x = 5 \/ x = 6 \/ x = 7)%Z)
    by lia;
  destruct H as [H | [H | [H | [H | [H | [H | [H | H]]]]]]]; subst x.

(** ** Valid mirror combinations *)

(** X1.  For a symmetry bitmask [symm] over the three axes (0..7) and a
    combination [i] of the loop [0 .. symm],
    [SCULPT_is_symmetry_iteration_valid] accepts [i] exactly when every axis
    mirrored in [i] is enabled in [symm], that is, when [i] is a sub-mask of
    [symm]. *)
Theorem symmetry_iteration_valid_iff_submask (i symm : Z) :
  (0 <= symm <= 7)%Z -> (0 <= i <= symm)%Z ->
  (SCULPT_is_symmetry_iteration_valid i symm = true <-> Z.land i symm = i).
Proof.
  intros Hs Hi.
  cases_0_7 symm; cases_0_7 i; try lia;
    vm_compute; split; intros E; first [reflexivity | discriminate E].
Qed.

(** At bitmask 5 (X and Z) the combination 4 is accepted, being a
    sub-mask, and so [4 & 5 = 4]. *)
Lemma symmetry_iteration_valid_iff_submask_witness : Z.land 4 5 = 4%Z.
Proof.
  apply (symmetry_iteration_valid_iff_submask 4 5 ltac:(lia) ltac:(lia)).
  reflexivity.
Defined.

(** ** The symmetry area of a pivot *)

Lemma check_vertex_pivot_symmetry_by_axis (vco pco : float3 Q) (symm : Z) :
  SCULPT_check_vertex_pivot_symmetry vco pco symm
  = (if axis_enabled symm 0 then axis_in_area (vx vco) (vx pco) else true)
    && (if axis_enabled symm 1 then axis_in_area (vy vco) (vy pco) else true)
    && (if axis_enabled symm 2 then axis_in_area (vz vco) (vz pco) else true).
Proof.
  unfold SCULPT_check_vertex_pivot_symmetry. unroll_range.
  unfold axis_enabled, axis_in_area, v3_get. cbn [Z.eqb Pos.eqb]. q_ops.
  destruct (truthy (Z.land symm (Z.shiftl 1 0)));
    destruct (truthy (Z.land symm (Z.shiftl 1 1)));
    destruct (truthy (Z.land symm (Z.shiftl 1 2)));
    repeat match goal with
           | |- context [Qeq_bool ?a ?b] => destruct (Qeq_bool a b)
           | |- context [Qltb ?a ?b] => destruct (Qltb a b)
           end; reflexivity.
Qed.

Lemma axis_in_area_mirror (v p : Q) :
  axis_in_area v p = false -> axis_in_area (- v) p = true.
Proof.
  unfold axis_in_area. intros Hbad.
  assert (Hprod : ((- v) * p == - (v * p))%Q) by ring.
  assert (Hside : (Qeq_bool p 0 = true /\ 0 < v)%Q \/ (v * p < 0)%Q).
  { destruct (Qeq_bool p 0) eqn:Ep; destruct (Qltb 0 v) eqn:Ev;
      destruct (Qltb (v * p) 0) eqn:Evp; try discriminate Hbad;
      try (right; apply Qltb_lt; exact Evp);
      left; split; [reflexivity | apply Qltb_lt; exact Ev]. }
  assert (Hv : Qltb (- v * p) 0 = false).
  { apply Qltb_ge. destruct Hside as [[Ep Hv] | Hvp]; [|lra].
    apply Qeq_bool_iff in Ep.
    assert (Hz : (v * p == 0)%Q) by (rewrite Ep; ring). lra. }
  rewrite Hv. cbn [negb]. rewrite andb_true_r. apply negb_true_iff.
  destruct (Qeq_bool p 0) eqn:Ep; [|reflexivity]. cbn [andb].
  apply Qltb_ge. destruct Hside as [[_ Hv'] | Hvp]; [lra|].
  apply Qeq_bool_iff in Ep.
  assert (Hz : (v * p == 0)%Q) by (rewrite Ep; ring). lra.
Qed.

Lemma axis_in_area_one_side (v p : Q) :
  ~ (v == 0)%Q -> axis_in_area v p = true -> axis_in_area (- v) p = false.
Proof.
  unfold axis_in_area. intros Hv Hok.
  apply andb_true_iff in Hok. destruct Hok as [H1 H2].
  apply negb_true_iff in H1, H2. apply Qltb_ge in H2.
  assert (Hprod : ((- v) * p == - (v * p))%Q) by ring.
  destruct (Qeq_bool p 0) eqn:Ep.
  - cbn [andb] in H1 |- *. apply Qltb_ge in H1.
    assert (Hlt : Qltb 0 (- v) = true) by (apply Qltb_lt; lra).
    rewrite Hlt. reflexivity.
  - apply Qeq_bool_false in Ep.
    assert (Hne : ~ (v * p == 0)%Q).
    { intros Hz. apply Qmult_integral in Hz. tauto. }
    assert (Hlt : Qltb (- v * p) 0 = true) by (apply Qltb_lt; lra).
    rewrite Hlt. apply andb_false_r.
Qed.

Ltac area_with k :=
  exists k; split; [lia|]; split; [reflexivity|];
  rewrite check_vertex_pivot_symmetry_by_axis;
  cbn -[axis_in_area Qopp]; q_ops;
  repeat match goal with
         | H : axis_in_area _ _ = true |- _ => rewrite H; clear H
         end;
  reflexivity.

(** X2.  The symmetry area of a pivot covers the mesh up to mirroring:
    for every vertex position, pivot and symmetry bitmask over the three
    axes there is a mirror combination [i] of the loop [0 .. symm], accepted
    by [SCULPT_is_symmetry_iteration_valid], whose mirror image of the vertex
    passes [SCULPT_check_vertex_pivot_symmetry].  Exact arithmetic. *)
Theorem pivot_symmetry_area_covers (vco pco : float3 Q) (symm : Z) :
  (0 <= symm <= 7)%Z ->
  exists i, (0 <= i <= symm)%Z /\
            SCULPT_is_symmetry_iteration_valid i symm = true /\
            SCULPT_check_vertex_pivot_symmetry (symmetry_flip vco i) pco symm = true.
Proof.
  intros Hs. destruct vco as [a b c]. destruct pco as [pa pb pc].
  assert (Ha : axis_in_area a pa = true \/ axis_in_area (- a) pa = true).
  { destruct (axis_in_area a pa) eqn:E; [left; reflexivity|].
    right. apply axis_in_area_mirror. exact E. }
  assert (Hb : axis_in_area b pb = true \/ axis_in_area (- b) pb = true).
  { destruct (axis_in_area b pb) eqn:E; [left; reflexivity|].
    right. apply axis_in_area_mirror. exact E. }
  assert (Hc : axis_in_area c pc = true \/ axis_in_area (- c) pc = true).
  { destruct (axis_in_area c pc) eqn:E; [left; reflexivity|].
    right. apply axis_in_area_mirror. exact E. }
  cases_0_7 symm; destruct Ha as [Ha | Ha]; destruct Hb as [Hb | Hb];
    destruct Hc as [Hc | Hc];
    first [ area_with 0%Z | area_with 1%Z | area_with 2%Z | area_with 3%Z
          | area_with 4%Z | area_with 5%Z | area_with 6%Z | area_with 7%Z ].
Qed.

(** The vertex (1,-2,3) and the pivot (-1,0,1) with X and Y mirrored. *)
Lemma pivot_symmetry_area_covers_witness :
  exists i, (0 <= i <= 3)%Z /\
            SCULPT_is_symmetry_iteration_valid i 3 = true /\
            SCULPT_check_vertex_pivot_symmetry (symmetry_flip (q3 1 (-2) 3) i)
              (q3 (-1) 0 1) 3 = true.
Proof.
  exact (pivot_symmetry_area_covers (q3 1 (-2) 3) (q3 (-1) 0 1) 3 ltac:(lia)).
Defined.

(** X3.  A vertex in the symmetry area of a pivot has no mirror image in
    it: if the vertex passes [SCULPT_check_vertex_pivot_symmetry] and [i] is
    a mirror combination other than 0 accepted for [symm], along whose axes
    the vertex does not lie on the mirror plane, then the image of the
    vertex under [i] fails the check.  Exact arithmetic. *)
Theorem pivot_symmetry_area_excludes_mirror (vco pco : float3 Q) (symm i : Z) :
  (0 <= symm <= 7)%Z -> (1 <= i <= symm)%Z ->
  SCULPT_is_symmetry_iteration_valid i symm = true ->
  (forall axis, (0 <= axis <= 2)%Z -> axis_enabled i axis = true ->
                ~ (v3_get vco axis == 0)%Q) ->
  SCULPT_check_vertex_pivot_symmetry vco pco symm = true ->
  SCULPT_check_vertex_pivot_symmetry (symmetry_flip vco i) pco symm = false.
Proof.
  intros Hs Hi Hvalid Hoff Hin. destruct vco as [a b c]. destruct pco as [pa pb pc].
  pose proof (Hoff 0%Z ltac:(lia)) as H0.
  pose proof (Hoff 1%Z ltac:(lia)) as H1.
  pose proof (Hoff 2%Z ltac:(lia)) as H2.
  clear Hoff. cbn [v3_get Z.eqb Pos.eqb vx vy vz] in H0, H1, H2.
  rewrite check_vertex_pivot_symmetry_by_axis in Hin |- *.
  cases_0_7 symm; cases_0_7 i; try lia; try discriminate Hvalid; clear Hvalid Hs Hi;
    cbn -[axis_in_area Qopp] in Hin |- *; q_ops;
    repeat match goal with
           | H : _ && _ = true |- _ => apply andb_true_iff in H; destruct H
           end;
    repeat match goal with
           | H : _ = true -> ~ (_ == 0)%Q |- _ =>
               first [ specialize (H eq_refl) | clear H ]
           end;
    repeat match goal with
           | Hv : ~ (?v == 0)%Q, Hok : axis_in_area ?v ?p = true |- _ =>
               rewrite (axis_in_area_one_side v p Hv Hok); clear Hv
           end;
    rewrite ?andb_false_r; reflexivity.
Qed.

(** The vertex (1,2,3) is in the symmetry area of the pivot (1,1,1);
    its image under the X mirror is not. *)
Lemma pivot_symmetry_area_excludes_mirror_witness :
  SCULPT_check_vertex_pivot_symmetry (symmetry_flip (q3 1 2 3) 1) (q3 1 1 1) 7 = false.
Proof.
  apply (pivot_symmetry_area_excludes_mirror (q3 1 2 3) (q3 1 1 1) 7 1
           ltac:(lia) ltac:(lia) eq_refl).
  - intros axis Haxis Hen.
    assert (Hx : axis = 0%Z).
    { destruct (Z.eq_dec axis 0) as [E | E]; [exact E|].
      destruct (Z.eq_dec axis 1) as [E1 | E1]; [subst axis; discriminate Hen|].
      assert (E2 : axis = 2%Z) by lia. subst axis. discriminate Hen. }
    subst axis. vm_compute. discriminate.
  - reflexivity.
Defined.

(** ** The brush radius under symmetry *)

Lemma Qltb_compat (a a' r : Q) : (a == a')%Q -> Qltb a r = Qltb a' r.
Proof.
  intros E. destruct (Qltb a' r) eqn:E'.
  - apply Qltb_lt. apply Qltb_lt in E'. rewrite E. exact E'.
  - apply Qltb_ge. apply Qltb_ge in E'. rewrite E. exact E'.
Qed.

(** Mirroring both points is mirroring one of them by the combined
    mask. *)
Lemma distance_squared_flip_flip (br v : float3 Q) (i b : Z) (r : Q) :
  (0 <= i <= 7)%Z -> (0 <= b <= 7)%Z ->
  Qltb (distance_squared (symmetry_flip br i) (symmetry_flip v b)) r
  = Qltb (distance_squared (symmetry_flip br (Z.lxor i b)) v) r.
Proof.
  intros Hi Hb. apply Qltb_compat. destruct br as [x y z]. destruct v as [a c d].
  cases_0_7 i; cases_0_7 b; cbn; ring.
Qed.

(** Evaluate the validity test and the exclusive or at numerals. *)
Ltac eval_masks :=
  repeat match goal with
         | |- context [SCULPT_is_symmetry_iteration_valid ?i ?s] =>
             let v := eval vm_compute in (SCULPT_is_symmetry_iteration_valid i s) in
             change (SCULPT_is_symmetry_iteration_valid i s) with v
         | |- context [Z.lxor ?i ?b] =>
             let v := eval vm_compute in (Z.lxor i b) in
             change (Z.lxor i b) with v
         end.

(** X4.  [SCULPT_is_vertex_inside_brush_radius_symm] does not tell a
    vertex from its mirror images: for a symmetry bitmask over the three
    axes and a mirror combination [b] accepted for it, the answer for the
    image of the vertex under [b] is the answer for the vertex.  Exact
    arithmetic. *)
Theorem inside_brush_radius_symm_mirror (vertex br_co : float3 Q) (radius : Q)
    (symm b : Z) :
  (0 <= symm <= 7)%Z -> (0 <= b <= symm)%Z ->
  SCULPT_is_symmetry_iteration_valid b symm = true ->
  SCULPT_is_vertex_inside_brush_radius_symm (symmetry_flip vertex b) br_co radius symm
  = SCULPT_is_vertex_inside_brush_radius_symm vertex br_co radius symm.
Proof.
  intros Hs Hb Hvalid. unfold SCULPT_is_vertex_inside_brush_radius_symm. q_ops.
  cases_0_7 symm; cases_0_7 b; try lia; try discriminate Hvalid; clear Hs Hb Hvalid;
    unroll_range; eval_masks; cbn [negb];
    rewrite ?distance_squared_flip_flip by lia; eval_masks;
    repeat match goal with
           | |- context [Qltb ?a ?r] => destruct (Qltb a r)
           end; reflexivity.
Qed.

(** A brush of radius 1 at (2,0,0) with X mirrored reaches the vertex
    (-2,0,0) and so its X mirror image. *)
Lemma inside_brush_radius_symm_mirror_witness :
  SCULPT_is_vertex_inside_brush_radius_symm (symmetry_flip (q3 (-2) 0 0) 1) (q3 2 0 0) 1 1
  = SCULPT_is_vertex_inside_brush_radius_symm (q3 (-2) 0 0) (q3 2 0 0) 1 1.
Proof.
  exact (inside_brush_radius_symm_mirror (q3 (-2) 0 0) (q3 2 0 0) 1 1 1
           ltac:(lia) ltac:(lia) eq_refl).
Defined.

(** ** Flipping by symmetry area *)

Lemma Qopp_opp_eq (x : Q) : Qopp (Qopp x) = x.
Proof. destruct x as [n d]. unfold Qopp. cbn [Qnum Qden]. rewrite Z.opp_involutive. reflexivity. Qed.

(** X5.  [SCULPT_flip_v3_by_symm_area] negates a component at most once:
    the component of an axis is negated exactly when the axis is enabled in
    [symm] and the bit of the axis in [symmarea] disagrees with the pivot
    being negative on that axis; when both ask for a flip the two flips
    cancel and the component comes back as it was.  Exact arithmetic. *)
Theorem flip_v3_by_symm_area_by_axis (vector pivot : float3 Q) (symm symmarea axis : Z) :
  (0 <= axis <= 2)%Z ->
  v3_get (SCULPT_flip_v3_by_symm_area vector symm symmarea pivot) axis
  = if axis_enabled symm axis
       && xorb (axis_enabled symmarea axis) (Qltb (v3_get pivot axis) 0)
    then Qopp (v3_get vector axis)
    else v3_get vector axis.
Proof.
  intros Haxis. unfold SCULPT_flip_v3_by_symm_area, axis_enabled. unroll_range. q_ops.
  destruct vector as [a b c]. destruct pivot as [pa pb pc].
  assert (Hcase : (axis = 0 \/ axis = 1 \/ axis = 2)%Z) by lia.
  destruct Hcase as [E | [E | E]]; subst axis;
    cbn [v3_get Z.eqb Pos.eqb vx vy vz];
    destruct (truthy (Z.land symm (Z.shiftl 1 0)));
    destruct (truthy (Z.land symm (Z.shiftl 1 1)));
    destruct (truthy (Z.land symm (Z.shiftl 1 2)));
    destruct (truthy (Z.land symmarea (Z.shiftl 1 0)));
    destruct (truthy (Z.land symmarea (Z.shiftl 1 1)));
    destruct (truthy (Z.land symmarea (Z.shiftl 1 2)));
    destruct (Qltb pa 0); destruct (Qltb pb 0); destruct (Qltb pc 0);
    cbn; rewrite ?Qopp_opp_eq; reflexivity.
Qed.

(** With X and Y enabled, the area bit of X set and the pivot negative
    on X, the X component of (1,2,3) is flipped twice and stays 1. *)
Lemma flip_v3_by_symm_area_by_axis_witness :
  v3_get (SCULPT_flip_v3_by_symm_area (q3 1 2 3) 3 1 (q3 (-1) 1 1)) 0 = 1%Q.
Proof.
  exact (flip_v3_by_symm_area_by_axis (q3 1 2 3) (q3 (-1) 1 1) 3 1 0 ltac:(lia)).
Defined.

(** ** The pass enumeration: mirror combinations and the main pass *)

Section DriverPasses.
Context {F : Type} `{FloatOps F}.
Variable RegionView3D : Type.
Variable View3D : Type.
Variable rotate_point : Z -> F -> float3 F -> float3 F.
Variable radial_angle : Z -> Z -> F.
Variable PAINT_TILE_X : Z.
Variable sd : Sculpt F.
Variable ob : Object F.
Variable ok : Z -> Prop.

Abbreviation pstate := (@DriverState F RegionView3D View3D).
Abbreviation all_ok :=
  (Forall (fun e : StrokeCache F RegionView3D View3D => ok (mirror_symmetry_pass e))).

Lemma do_tiled_passes (st : pstate) :
  all_ok (trace st) -> ok (mirror_symmetry_pass (cache st)) ->
  let st' := do_tiled PAINT_TILE_X sd ob st in
  all_ok (trace st') /\
  mirror_symmetry_pass (cache st') = mirror_symmetry_pass (cache st) /\
  exists rest, trace st' = trace st ++ set_tile_pass (cache st) 0 :: rest.
Proof.
  intros Hall Hok st'.
  destruct (do_tiled_trace RegionView3D View3D PAINT_TILE_X sd ob st)
    as [tiles [Htrace [Htiles [Hkey _]]]].
  fold st' in Htrace, Hkey.
  split; [|split].
  - rewrite Htrace. apply Forall_app. split; [exact Hall|].
    constructor; [exact Hok|].
    eapply Forall_impl; [|exact Htiles]. cbv beta.
    intros e [He _]. unfold pass_key in He. injection He as -> _ _. exact Hok.
  - unfold pass_key in Hkey. injection Hkey as -> _ _. reflexivity.
  - exists tiles. exact Htrace.
Qed.

Lemma do_radial_symmetry_passes (symm axis : Z) (st : pstate) :
  all_ok (trace st) -> ok (mirror_symmetry_pass (cache st)) ->
  let st' := do_radial_symmetry rotate_point radial_angle PAINT_TILE_X sd ob symm axis st in
  all_ok (trace st') /\
  mirror_symmetry_pass (cache st') = mirror_symmetry_pass (cache st) /\
  exists rest, trace st' = trace st ++ rest.
Proof.
  intros Hall Hok. cbv zeta. unfold do_radial_symmetry.
  apply (for_range_inv
           (fun s : pstate =>
              all_ok (trace s) /\
              mirror_symmetry_pass (cache s) = mirror_symmetry_pass (cache st) /\
              exists rest, trace s = trace st ++ rest)).
  - split; [exact Hall|]. split; [reflexivity|]. exists []. symmetry. apply app_nil_r.
  - intros i s _ [Hs [Hm [rest Hrest]]].
    match goal with |- context [do_tiled _ _ _ ?s0] => set (st0 := s0) end.
    assert (Hm0 : mirror_symmetry_pass (cache st0) = mirror_symmetry_pass (cache st)).
    { rewrite <- Hm. unfold st0. cbn [cache]. unfold SCULPT_cache_calc_brushdata_symm.
      destruct (truthy axis); reflexivity. }
    destruct (do_tiled_passes st0) as [Hall' [Hm' [rest' Hrest']]].
    + exact Hs.
    + rewrite Hm0. exact Hok.
    + split; [exact Hall'|]. split; [rewrite Hm'; exact Hm0|].
      exists (rest ++ set_tile_pass (cache st0) 0 :: rest').
      rewrite Hrest'. cbn [trace st0]. rewrite Hrest, <- app_assoc. reflexivity.
Qed.
End DriverPasses.

Section MainPass.
Context {F : Type} `{FloatOps F}.
Variable RegionView3D : Type.
Variable View3D : Type.
Variable rotate_point : Z -> F -> float3 F -> float3 F.
Variable radial_angle : Z -> Z -> F.
Variable PAINT_TILE_X : Z.
Variable sd : Sculpt F.
Variable ob : Object F.

Abbreviation mstate := (@DriverState F RegionView3D View3D).
Abbreviation valid_for symm :=
  (fun m : Z => (0 <= m <= symm)%Z /\ SCULPT_is_symmetry_iteration_valid m symm = true).
Abbreviation all_valid symm :=
  (Forall (fun e : StrokeCache F RegionView3D View3D =>
             valid_for symm (mirror_symmetry_pass e))).

(** One mirror combination: what it appends starts with the un-tiled
    zero-rotation invocation of that combination. *)
Lemma mirror_iteration_passes (symm i : Z) (st : mstate) :
  (0 <= i <= symm)%Z ->
  all_valid symm (trace st) ->
  let st' := mirror_iteration rotate_point radial_angle PAINT_TILE_X sd ob symm i st in
  all_valid symm (trace st') /\
  (SCULPT_is_symmetry_iteration_valid i symm = false -> trace st' = trace st) /\
  (SCULPT_is_symmetry_iteration_valid i symm = true ->
   exists e rest, trace st' = trace st ++ e :: rest /\
                  mirror_symmetry_pass e = i /\ radial_symmetry_pass e = 0%Z /\
                  tile_pass e = 0%Z).
Proof.
  intros Hi Hall. cbv zeta. unfold mirror_iteration.
  destruct (SCULPT_is_symmetry_iteration_valid i symm) eqn:Hvalid; cbn [negb].
  2:{ split; [exact Hall|]. split; [reflexivity | discriminate]. }
  match goal with |- context [do_tiled _ _ _ ?s0] => set (st0 := s0) end.
  assert (Hm0 : mirror_symmetry_pass (cache st0) = i) by reflexivity.
  assert (Hr0 : radial_symmetry_pass (cache st0) = 0%Z) by reflexivity.
  assert (Hok : valid_for symm i) by (split; [exact Hi | exact Hvalid]).
  destruct (do_tiled_passes RegionView3D View3D PAINT_TILE_X sd ob (valid_for symm) st0)
    as [Hall0 [Hmt [rest0 Hrest0]]]; [exact Hall | rewrite Hm0; exact Hok |].
  set (st1 := do_tiled PAINT_TILE_X sd ob st0) in *.
  destruct (do_radial_symmetry_passes RegionView3D View3D rotate_point radial_angle PAINT_TILE_X
              sd ob (valid_for symm) i char_X st1)
    as [Hall1 [Hm1 [rest1 Hrest1]]]; [exact Hall0 | rewrite Hmt, Hm0; exact Hok |].
  set (st2 := do_radial_symmetry rotate_point radial_angle PAINT_TILE_X sd ob i char_X st1) in *.
  destruct (do_radial_symmetry_passes RegionView3D View3D rotate_point radial_angle PAINT_TILE_X
              sd ob (valid_for symm) i char_Y st2)
    as [Hall2 [Hm2 [rest2 Hrest2]]];
    [exact Hall1 | rewrite Hm1, Hmt, Hm0; exact Hok |].
  set (st3 := do_radial_symmetry rotate_point radial_angle PAINT_TILE_X sd ob i char_Y st2) in *.
  destruct (do_radial_symmetry_passes RegionView3D View3D rotate_point radial_angle PAINT_TILE_X
              sd ob (valid_for symm) i char_Z st3)
    as [Hall3 [Hm3 [rest3 Hrest3]]];
    [exact Hall2 | rewrite Hm2, Hm1, Hmt, Hm0; exact Hok |].
  set (st4 := do_radial_symmetry rotate_point radial_angle PAINT_TILE_X sd ob i char_Z st3) in *.
  assert (Ht0 : trace st0 = trace st) by reflexivity.
  set (e0 := set_tile_pass (cache st0) 0) in *.
  assert (He0 : mirror_symmetry_pass e0 = i /\ radial_symmetry_pass e0 = 0%Z /\
                tile_pass e0 = 0%Z) by (repeat split).
  clearbody st4 st3 st2 st1 e0. clearbody st0.
  split; [exact Hall3|]. split; [discriminate|]. intros _.
  exists e0, (rest0 ++ rest1 ++ rest2 ++ rest3).
  split; [|exact He0].
  rewrite Hrest3, Hrest2, Hrest1, Hrest0, Ht0.
  rewrite <- !app_assoc. reflexivity.
Qed.

Lemma do_symmetrical_brush_actions_passes (c : StrokeCache F RegionView3D View3D) :
  let symm := mesh_symmetry_xyz ob in
  let tr := trace (do_symmetrical_brush_actions rotate_point radial_angle PAINT_TILE_X sd ob
                     (mkDriver c [])) in
  all_valid symm tr /\
  ((0 <= symm)%Z ->
   exists e rest, tr = e :: rest /\ SCULPT_stroke_is_main_symmetry_pass e = true).
Proof.
  cbv zeta. unfold do_symmetrical_brush_actions.
  set (symm := mesh_symmetry_xyz ob).
  destruct (Z_lt_le_dec symm 0) as [Hneg | Hpos].
  { rewrite for_range_empty by exact Hneg. cbn [trace].
    split; [constructor | intros Hge; lia]. }
  assert (Hend :
    (fun k (s : mstate) =>
       all_valid symm (trace s) /\
       (k = 0%Z -> trace s = []) /\
       ((0 < k)%Z ->
        exists e rest, trace s = e :: rest /\
                       SCULPT_stroke_is_main_symmetry_pass e = true))
      (symm + 1)%Z
      (for_range 0 symm (mirror_iteration rotate_point radial_angle PAINT_TILE_X sd ob symm)
         (mkDriver (set_symmetry c symm) []))).
  { apply for_range_ind.
    - lia.
    - cbn [trace]. split; [constructor|]. split; [reflexivity | lia].
    - intros k s Hk [Hall [Hnil Hmain]].
      destruct (mirror_iteration_passes symm k s Hk Hall) as [Hall' [Hskip Hrun]].
      split; [exact Hall'|]. split; [lia|]. intros _.
      destruct (Z.eq_dec k 0) as [-> | Hne].
      + destruct (Hrun eq_refl) as [e [rest [Htr [Hm [Hr Ht]]]]].
        exists e, rest. rewrite Htr, (Hnil eq_refl). split; [reflexivity|].
        unfold SCULPT_stroke_is_main_symmetry_pass. rewrite Hm, Hr, Ht. reflexivity.
      + destruct (Hmain ltac:(lia)) as [e [rest [Htr Hmn]]].
        destruct (SCULPT_is_symmetry_iteration_valid k symm) eqn:Hvalid.
        * destruct (Hrun eq_refl) as [e' [rest' [Htr' _]]].
          exists e, (rest ++ e' :: rest'). rewrite Htr', Htr. split; [reflexivity|].
          exact Hmn.
        * exists e, rest. rewrite (Hskip eq_refl). split; [exact Htr | exact Hmn]. }
  cbv beta in Hend. destruct Hend as [Hall [_ Hmain]].
  split; [exact Hall|]. intros _. apply Hmain. lia.
Qed.
End MainPass.

(** X6.  Every invocation of the brush action made by
    [do_symmetrical_brush_actions] carries a mirror combination of the loop
    [0 .. symm] that [SCULPT_is_symmetry_iteration_valid] accepts, whatever
    the radial counts and the tiling: the radial and the tiled repeats never
    leave the mirror combination they were started in.  This holds for any
    arithmetic. *)
Theorem every_invocation_mirror_valid
    (F : Type) (ops : FloatOps F) (RegionView3D View3D : Type)
    (rotate_point : Z -> F -> float3 F -> float3 F) (radial_angle : Z -> Z -> F) (PAINT_TILE_X : Z)
    (sd : Sculpt F) (ob : Object F) (c e : StrokeCache F RegionView3D View3D) :
  In e (trace (do_symmetrical_brush_actions rotate_point radial_angle PAINT_TILE_X sd ob
                 (mkDriver c []))) ->
  (0 <= mirror_symmetry_pass e <= mesh_symmetry_xyz ob)%Z /\
  SCULPT_is_symmetry_iteration_valid (mirror_symmetry_pass e) (mesh_symmetry_xyz ob) = true.
Proof.
  intros Hin.
  destruct (do_symmetrical_brush_actions_passes RegionView3D View3D rotate_point radial_angle
              PAINT_TILE_X sd ob c) as [Hall _].
  rewrite Forall_forall in Hall. exact (Hall e Hin).
Qed.

(** The last invocation of [demo_trace] is in mirror combination 1. *)
Lemma every_invocation_mirror_valid_witness :
  (0 <= mirror_symmetry_pass (nth 11 demo_trace (hover_cache 0)) <= 1)%Z /\
  SCULPT_is_symmetry_iteration_valid
    (mirror_symmetry_pass (nth 11 demo_trace (hover_cache 0))) 1 = true.
Proof.
  apply (every_invocation_mirror_valid Q Q_ops unit unit (fun _ _ p => p) demo_angle 16
           (tiled_x_settings (mkint3 2 1 1)) (mirrored_object 1) (hover_cache 0)
           (nth 11 demo_trace (hover_cache 0))).
  vm_compute. do 11 right. left. reflexivity.
Defined.

(** X7.  When the symmetry bitmask is not negative, the first invocation
    of the brush action in [do_symmetrical_brush_actions] is the main
    symmetry pass of [SCULPT_stroke_is_main_symmetry_pass] (mirror, radial
    and tile pass all 0), and no later invocation is: the code guarded by
    that test runs once per input step, before every other pass.  This holds
    for any arithmetic. *)
Theorem main_symmetry_pass_first_and_once
    (F : Type) (ops : FloatOps F) (RegionView3D View3D : Type)
    (rotate_point : Z -> F -> float3 F -> float3 F) (radial_angle : Z -> Z -> F) (PAINT_TILE_X : Z)
    (sd : Sculpt F) (ob : Object F) (c : StrokeCache F RegionView3D View3D) :
  (0 <= mesh_symmetry_xyz ob)%Z ->
  exists e rest,
    trace (do_symmetrical_brush_actions rotate_point radial_angle PAINT_TILE_X sd ob
             (mkDriver c [])) = e :: rest /\
    SCULPT_stroke_is_main_symmetry_pass e = true /\
    Forall (fun e' => SCULPT_stroke_is_main_symmetry_pass e' = false) rest.
Proof.
  intros Hsymm.
  destruct (do_symmetrical_brush_actions_passes RegionView3D View3D rotate_point radial_angle
              PAINT_TILE_X sd ob c) as [_ Hmain].
  destruct (Hmain Hsymm) as [e [rest [Htr Hmn]]].
  destruct (do_symmetrical_brush_actions_ok RegionView3D View3D rotate_point radial_angle
              PAINT_TILE_X sd ob c) as [Hok _].
  rewrite Htr in Hok.
  exists e, rest. split; [exact Htr|]. split; [exact Hmn|].
  apply Forall_forall. intros e' Hin.
  destruct (SCULPT_stroke_is_main_symmetry_pass e') eqn:Hmn'; [exfalso | reflexivity].
  apply in_split in Hin as [l1 [l2 ->]].
  destruct (Hok [] e (l1 ++ e' :: l2) eq_refl) as [_ [_ [_ [[Hax _] _]]]].
  destruct (Hok (e :: l1) e' l2 eq_refl) as [Hfirst [_ [_ [[_ [_ Hax']] _]]]].
  unfold SCULPT_stroke_is_main_symmetry_pass in Hmn, Hmn'.
  apply andb_true_iff in Hmn as [Hmn Ht]. apply andb_true_iff in Hmn as [Hm Hr].
  apply andb_true_iff in Hmn' as [Hmn' Ht']. apply andb_true_iff in Hmn' as [Hm' Hr'].
  apply Z.eqb_eq in Hm, Hr, Ht, Hm', Hr', Ht'.
  specialize (Hfirst Ht' e (or_introl eq_refl)). specialize (Hax' Hr').
  unfold combination_before, key_before in Hfirst. lia.
Qed.

(** [demo_trace] starts with the main symmetry pass; its other eleven
    invocations are not the main pass. *)
Lemma main_symmetry_pass_first_and_once_witness :
  exists e rest,
    demo_trace = e :: rest /\
    SCULPT_stroke_is_main_symmetry_pass e = true /\
    Forall (fun e' => SCULPT_stroke_is_main_symmetry_pass e' = false) rest.
Proof.
  exact (main_symmetry_pass_first_and_once Q Q_ops unit unit (fun _ _ p => p) demo_angle
           16 (tiled_x_settings (mkint3 2 1 1)) (mirrored_object 1) (hover_cache 0)
           ltac:(vm_compute; discriminate)).
Defined.

(** ** Arrays written by index *)

Lemma set_nth_length {A : Type} (n : nat) (a : list A) (x : A) :
  length (set_nth n a x) = length a.
Proof.
  revert n. induction a as [|y a IH]; intros [|n]; cbn; try reflexivity.
  rewrite IH. reflexivity.
Qed.

Lemma nth_set_nth_same {A : Type} (d : A) (n : nat) (a : list A) (x : A) :
  (n < length a)%nat -> nth n (set_nth n a x) d = x.
Proof.
  revert n. induction a as [|y a IH]; intros [|n] Hn; cbn in *; try lia; try reflexivity.
  apply IH. lia.
Qed.

Lemma nth_set_nth_other {A : Type} (d : A) (n m : nat) (a : list A) (x : A) :
  n <> m -> nth m (set_nth n a x) d = nth m a d.
Proof.
  revert n m. induction a as [|y a IH]; intros [|n] [|m] Hne; cbn; try reflexivity;
    try congruence.
  apply IH. congruence.
Qed.

Lemma set_index_size {A : Type} (a : list A) (i : Z) (x : A) :
  size (set_index a i x) = size a.
Proof.
  unfold set_index, size. destruct (i <? 0)%Z; [reflexivity|].
  rewrite set_nth_length. reflexivity.
Qed.

Lemma at_index_set_index_same {A : Type} (d : A) (a : list A) (i : Z) (x : A) :
  (0 <= i < size a)%Z -> at_index d (set_index a i x) i = x.
Proof.
  unfold size, at_index, set_index. intros Hi.
  destruct (i <? 0)%Z eqn:E; [apply Z.ltb_lt in E; lia|].
  apply nth_set_nth_same. lia.
Qed.

Lemma at_index_set_index_other {A : Type} (d : A) (a : list A) (i j : Z) (x : A) :
  i <> j -> at_index d (set_index a i x) j = at_index d a j.
Proof.
  unfold at_index, set_index. intros Hne.
  destruct (i <? 0)%Z eqn:Ei; [reflexivity|].
  destruct (j <? 0)%Z eqn:Ej; [reflexivity|].
  apply Z.ltb_ge in Ei, Ej. apply nth_set_nth_other. lia.
Qed.

Lemma set_index_at_index {A : Type} (d : A) (a : list A) (i : Z) :
  set_index a i (at_index d a i) = a.
Proof.
  unfold at_index, set_index. destruct (i <? 0)%Z; [reflexivity|].
  generalize (Z.to_nat i) as n. clear i. intros n. revert n.
  induction a as [|y a IH]; intros [|n]; cbn; try reflexivity.
  rewrite IH. reflexivity.
Qed.

(** ** Gathering and scattering node data *)

Section GatherScatterProps.
Context {T : Type}.
Variable outside : T.

Lemma scatter_data_mesh_size (src : list T) (indices : list Z) (dst : list T) :
  size (scatter_data_mesh src indices dst) = size dst.
Proof.
  unfold scatter_data_mesh. revert src dst.
  induction indices as [|i indices IH]; intros [|x src] dst; cbn; try reflexivity.
  rewrite IH. apply set_index_size.
Qed.

Lemma scatter_data_mesh_other (src : list T) (indices : list Z) (dst : list T) (j : Z) :
  ~ In j indices ->
  at_index outside (scatter_data_mesh src indices dst) j = at_index outside dst j.
Proof.
  unfold scatter_data_mesh. revert src dst.
  induction indices as [|i indices IH]; intros [|x src] dst Hj; cbn; try reflexivity.
  rewrite IH by (intros Hin; apply Hj; right; exact Hin).
  apply at_index_set_index_other. intros ->. apply Hj. left. reflexivity.
Qed.
End GatherScatterProps.

(** X8.  Scattering node data into an array and gathering it back
    through the same indices returns the node data, provided the indices are
    distinct, lie inside the array and are as many as the data: no entry
    written by [scatter_data_mesh] is overwritten by another.  The array
    keeps its size, and every entry whose index is not listed keeps its
    value. *)
Theorem scatter_then_gather (T : Type) (outside : T) (src : list T) (indices : list Z)
    (dst : list T) :
  NoDup indices ->
  (forall i, In i indices -> (0 <= i < size dst)%Z) ->
  length src = length indices ->
  let result := scatter_data_mesh src indices dst in
  gather_data_mesh outside result indices = src /\
  size result = size dst /\
  (forall j, ~ In j indices -> at_index outside result j = at_index outside dst j).
Proof.
  intros Hnd Hin Hlen. cbv zeta.
  split; [|split; [apply scatter_data_mesh_size
                  | intros j Hj; apply scatter_data_mesh_other; exact Hj]].
  revert src dst Hnd Hin Hlen.
  induction indices as [|i indices IH]; intros src dst Hnd Hin Hlen.
  - destruct src; [reflexivity | discriminate Hlen].
  - destruct src as [|x src]; [discriminate Hlen|].
    inversion Hnd as [|? ? Hni Hnd']. subst.
    change (scatter_data_mesh (x :: src) (i :: indices) dst)
      with (scatter_data_mesh src indices (set_index dst i x)).
    cbn [gather_data_mesh map]. f_equal.
    + rewrite scatter_data_mesh_other by exact Hni.
      apply at_index_set_index_same. apply Hin. left. reflexivity.
    + apply IH.
      * exact Hnd'.
      * intros j Hj. rewrite set_index_size. apply Hin. right. exact Hj.
      * cbn in Hlen. congruence.
Qed.

(** Three values scattered to the entries 2, 0 and 3 of an array of
    five; entries 1 and 4 are not listed. *)
Lemma scatter_then_gather_witness :
  let result := scatter_data_mesh [7; 8; 9]%Z [2; 0; 3]%Z [1; 1; 1; 1; 1]%Z in
  gather_data_mesh 0%Z result [2; 0; 3]%Z = [7; 8; 9]%Z /\
  size result = size [1; 1; 1; 1; 1]%Z /\
  (forall j, ~ In j [2; 0; 3]%Z ->
             at_index 0%Z result j = at_index 0%Z [1; 1; 1; 1; 1]%Z j).
Proof.
  apply (scatter_then_gather Z 0%Z [7; 8; 9]%Z [2; 0; 3]%Z [1; 1; 1; 1; 1]%Z).
  - repeat constructor; cbn; intuition discriminate.
  - intros i Hi. cbn in Hi. unfold size. cbn. lia.
  - reflexivity.
Defined.

(** X9.  Gathering node data from an array and scattering it back through
    the same indices leaves the array as it was, repeated indices included;
    the indices lie inside the array. *)
Theorem gather_then_scatter (T : Type) (outside : T) (indices : list Z) (dst : list T) :
  (forall i, In i indices -> (0 <= i < size dst)%Z) ->
  scatter_data_mesh (gather_data_mesh outside dst indices) indices dst = dst.
Proof.
  intros _. unfold scatter_data_mesh, gather_data_mesh.
  assert (Hgen : forall (idx : list Z) (cur : list T),
             cur = dst ->
             fold_left (fun (d : list T) (p : Z * T) => set_index d (fst p) (snd p))
               (combine idx (map (fun index => at_index outside dst index) idx)) cur
             = dst).
  { induction idx as [|i idx IH]; intros cur ->; cbn; [reflexivity|].
    apply IH. apply set_index_at_index. }
  apply Hgen. reflexivity.
Qed.

Lemma gather_then_scatter_witness :
  scatter_data_mesh (gather_data_mesh 0%Z [5; 6; 7; 8]%Z [2; 0; 2]%Z) [2; 0; 2]%Z
    [5; 6; 7; 8]%Z
  = [5; 6; 7; 8]%Z.
Proof.
  apply (gather_then_scatter Z 0%Z [2; 0; 2]%Z [5; 6; 7; 8]%Z).
  intros i Hi. cbn in Hi. unfold size. cbn. lia.
Defined.

(** ** Translations *)

Lemma apply_translations_size {F : Type} `{FloatOps F} (translations : list (float3 F))
    (verts : list Z) (positions : list (float3 F)) :
  size (apply_translations translations verts positions) = size positions.
Proof.
  unfold apply_translations. revert translations positions.
  induction verts as [|v verts IH]; intros [|t ts] positions; cbn; try reflexivity.
  rewrite IH. apply set_index_size.
Qed.

Lemma apply_translations_other {F : Type} `{FloatOps F} (translations : list (float3 F))
    (verts : list Z) (positions : list (float3 F)) (j : Z) :
  ~ In j verts ->
  at_index v3_zero (apply_translations translations verts positions) j
  = at_index v3_zero positions j.
Proof.
  unfold apply_translations. revert translations positions.
  induction verts as [|v verts IH]; intros [|t ts] positions Hj; cbn; try reflexivity.
  rewrite IH by (intros Hin; apply Hj; right; exact Hin).
  apply at_index_set_index_other. intros ->. apply Hj. left. reflexivity.
Qed.

(** Every listed vertex is moved by its own translation, once. *)
Lemma apply_translations_at {F : Type} `{FloatOps F} (translations : list (float3 F))
    (verts : list Z) (positions : list (float3 F)) (k : nat) :
  NoDup verts ->
  (forall v, In v verts -> (0 <= v < size positions)%Z) ->
  length translations = length verts ->
  (k < length verts)%nat ->
  at_index v3_zero (apply_translations translations verts positions) (nth k verts 0%Z)
  = v3_add (at_index v3_zero positions (nth k verts 0%Z)) (nth k translations v3_zero).
Proof.
  revert translations positions k.
  induction verts as [|v verts IH]; intros ts positions k Hnd Hin Hlen Hk;
    [cbn in Hk; lia|].
  destruct ts as [|t ts]; [discriminate Hlen|].
  inversion Hnd as [|? ? Hni Hnd']. subst.
  change (apply_translations (t :: ts) (v :: verts) positions)
    with (apply_translations ts verts
            (set_index positions v (v3_add (at_index v3_zero positions v) t))).
  destruct k as [|k]; cbn [nth].
  - rewrite apply_translations_other by exact Hni.
    apply at_index_set_index_same. apply Hin. left. reflexivity.
  - cbn in Hk. rewrite IH.
    + rewrite at_index_set_index_other; [reflexivity|].
      intros ->. apply Hni. apply nth_In. lia.
    + exact Hnd'.
    + intros w Hw. rewrite set_index_size. apply Hin. right. exact Hw.
    + cbn in Hlen. congruence.
    + lia.
Qed.

Lemma translations_from_new_positions_nth (new_positions : list (float3 Q))
    (verts : list Z) (old_positions : list (float3 Q)) (k : nat) :
  length new_positions = length verts -> (k < length verts)%nat ->
  nth k (translations_from_new_positions new_positions verts old_positions) v3_zero
  = v3_sub (nth k new_positions v3_zero)
           (at_index v3_zero old_positions (nth k verts 0%Z)).
Proof.
  unfold translations_from_new_positions. revert verts k.
  induction new_positions as [|p ps IH]; intros [|v verts] k Hlen Hk; cbn in *;
    try lia; try discriminate.
  destruct k as [|k]; [reflexivity|]. apply IH; [congruence | lia].
Qed.

(** X11.  Moving the listed vertices by the translations that
    [translations_from_new_positions] computes from their new positions puts
    every one of them at its new position, and leaves the array size as it
    was; the vertices are distinct, inside the array and as many as the new
    positions.  Exact arithmetic: in single precision [old + (new - old)]
    need not be [new]. *)
Theorem translations_reach_new_positions (new_positions : list (float3 Q))
    (verts : list Z) (old_positions : list (float3 Q)) (k : nat) :
  NoDup verts ->
  (forall v, In v verts -> (0 <= v < size old_positions)%Z) ->
  length new_positions = length verts ->
  (k < length verts)%nat ->
  let translations :=
    translations_from_new_positions new_positions verts old_positions in
  let positions := apply_translations translations verts old_positions in
  size positions = size old_positions /\
  v3_eq (at_index v3_zero positions (nth k verts 0%Z)) (nth k new_positions v3_zero).
Proof.
  intros Hnd Hin Hlen Hk. cbv zeta. split; [apply apply_translations_size|].
  rewrite apply_translations_at; [|exact Hnd | exact Hin | | exact Hk].
  - rewrite translations_from_new_positions_nth by assumption.
    unfold v3_eq, v3_add, v3_sub. cbn [vx vy vz]. q_ops.
    repeat split; ring.
  - unfold translations_from_new_positions.
    rewrite zip_with_length. lia.
Qed.

(** Vertices 2 and 0 of a mesh of three are sent to (1,1,1) and
    (2,2,2). *)
Lemma translations_reach_new_positions_witness :
  let translations :=
    translations_from_new_positions [q3 1 1 1; q3 2 2 2] [2; 0]%Z
      [q3 0 0 0; q3 5 5 5; q3 1 0 0] in
  let positions :=
    apply_translations translations [2; 0]%Z [q3 0 0 0; q3 5 5 5; q3 1 0 0] in
  size positions = size [q3 0 0 0; q3 5 5 5; q3 1 0 0] /\
  v3_eq (at_index v3_zero positions (nth 1 [2; 0]%Z 0%Z))
        (nth 1 [q3 1 1 1; q3 2 2 2] v3_zero).
Proof.
  apply (translations_reach_new_positions [q3 1 1 1; q3 2 2 2] [2; 0]%Z
           [q3 0 0 0; q3 5 5 5; q3 1 0 0] 1%nat).
  - repeat constructor; cbn; intuition discriminate.
  - intros v Hv. cbn in Hv. unfold size. cbn. lia.
  - reflexivity.
  - cbn. lia.
Defined.

(** ** Projecting translations on a plane *)

(** X12.  [project_translations] removes from every translation its
    component along the plane normal: when the squared length of the normal
    is at least the single-precision epsilon, every resulting translation is
    orthogonal to the normal, whatever the length of the normal; below that
    threshold the translations are returned as they are.  Exact
    arithmetic. *)
Theorem project_translations_orthogonal (translations : list (float3 Q))
    (plane : float3 Q) :
  (FLT_EPSILON <= dot plane plane)%Q ->
  length (project_translations translations plane) = length translations /\
  Forall (fun translation => (dot translation plane == 0)%Q)
         (project_translations translations plane).
Proof.
  intros Hlen. unfold project_translations.
  assert (Hpos : (0 < dot plane plane)%Q).
  { eapply Qlt_le_trans; [|exact Hlen]. unfold FLT_EPSILON. q_ops. reflexivity. }
  destruct (fltb (dot plane plane) FLT_EPSILON) eqn:E.
  { q_ops. apply Qltb_lt in E. exfalso. apply (Qlt_not_le _ _ E Hlen). }
  split; [apply length_map|].
  apply Forall_forall. intros t Ht. apply in_map_iff in Ht as [t0 [<- _]].
  destruct plane as [px py pz]. destruct t0 as [a b c].
  unfold dot, v3_add, v3_scale, rcp in *. cbn [vx vy vz] in *. q_ops.
  field. intros Hz. rewrite Hz in Hpos. apply (Qlt_irrefl 0). exact Hpos.
Qed.

(** The translation (1,2,3) projected with the normal (0,0,2) loses its
    z component. *)
Lemma project_translations_orthogonal_witness :
  length (project_translations [q3 1 2 3] (q3 0 0 2)) = 1%nat /\
  Forall (fun translation => (dot translation (q3 0 0 2) == 0)%Q)
         (project_translations [q3 1 2 3] (q3 0 0 2)).
Proof.
  apply (project_translations_orthogonal [q3 1 2 3] (q3 0 0 2)).
  vm_compute. discriminate.
Defined.

(** ** Factors on the two sides of a plane *)

Lemma zip_with_nth {A B C : Type} (f : A -> B -> C) (a : list A) (b : list B) (k : nat)
    (da : A) (db : B) (dc : C) :
  (k < length a)%nat -> (k < length b)%nat ->
  nth k (zip_with f a b) dc = f (nth k a da) (nth k b db).
Proof.
  revert b k. induction a as [|x a IH]; intros [|y b] [|k] Ha Hb; cbn in *;
    try lia; try reflexivity.
  apply IH; lia.
Qed.

(** X13.  The two plane filters split the vertices between them:
    [filter_below_plane_factors] and [filter_above_plane_factors], run on the
    same factors with the same plane, each leave a factor as it was or set it
    to 0, and every vertex has its factor zeroed by exactly one of them and
    kept by the other; a vertex on the plane counts as below.  Exact
    arithmetic, any side function. *)
Theorem plane_filters_split_vertices
    (plane_point_side_v3 : float4 Q -> float3 Q -> Q)
    (vert_positions : list (float3 Q)) (verts : list Z) (plane : float4 Q)
    (factors : list Q) (k : nat) :
  (k < length verts)%nat -> (k < length factors)%nat ->
  let below :=
    nth k (filter_below_plane_factors plane_point_side_v3 vert_positions verts plane
             factors) 0%Q in
  let above :=
    nth k (filter_above_plane_factors plane_point_side_v3 vert_positions verts plane
             factors) 0%Q in
  let side :=
    plane_point_side_v3 plane (at_index v3_zero vert_positions (nth k verts 0%Z)) in
  ((side <= 0)%Q /\ below = 0%Q /\ above = nth k factors 0%Q) \/
  ((0 < side)%Q /\ below = nth k factors 0%Q /\ above = 0%Q).
Proof.
  intros Hv Hf. cbv zeta.
  unfold filter_below_plane_factors, filter_above_plane_factors.
  rewrite !(zip_with_nth _ verts factors k 0%Z 0%Q 0%Q Hv Hf). q_ops.
  set (side := plane_point_side_v3 plane _).
  destruct (Qle_bool side 0) eqn:Ele.
  - left. apply Qle_bool_iff in Ele. split; [exact Ele|]. split; [reflexivity|].
    assert (E : Qltb 0 side = false) by (apply Qltb_ge; exact Ele).
    rewrite E. reflexivity.
  - right. apply Qle_bool_gt in Ele. split; [exact Ele|]. split; [reflexivity|].
    assert (E : Qltb 0 side = true) by (apply Qltb_lt; exact Ele).
    rewrite E. reflexivity.
Qed.

(** The plane z = 0 and the vertices (0,0,1) and (0,0,-1), with the
    height above the plane as side function: the second vertex is below. *)
Lemma plane_filters_split_vertices_witness :
  let side_of := fun (_ : float4 Q) (p : float3 Q) => vz p in
  let below :=
    nth 1 (filter_below_plane_factors side_of [q3 0 0 1; q3 0 0 (-1)] [0; 1]%Z
             (mk4 0 0 1 0)%Q [1; 1]%Q) 0%Q in
  let above :=
    nth 1 (filter_above_plane_factors side_of [q3 0 0 1; q3 0 0 (-1)] [0; 1]%Z
             (mk4 0 0 1 0)%Q [1; 1]%Q) 0%Q in
  let side := side_of (mk4 0 0 1 0)%Q
                (at_index v3_zero [q3 0 0 1; q3 0 0 (-1)] (nth 1 [0; 1]%Z 0%Z)) in
  ((side <= 0)%Q /\ below = 0%Q /\ above = nth 1 [1; 1]%Q 0%Q) \/
  ((0 < side)%Q /\ below = nth 1 [1; 1]%Q 0%Q /\ above = 0%Q).
Proof.
  apply (plane_filters_split_vertices (fun _ p => vz p) [q3 0 0 1; q3 0 0 (-1)]
           [0; 1]%Z (mk4 0 0 1 0)%Q [1; 1]%Q 1%nat); cbn; lia.
Defined.

(** ** Locked axes *)

Section LockProps.
Context {F : Type} `{FloatOps F}.
Variable RegionView3D : Type.
Variable View3D : Type.
Variable invert : float4x4 F -> float4x4 F.
Variable SCULPT_LOCK_X : Z.
Variable sd : Sculpt F.
Variable cache : StrokeCache F RegionView3D View3D.
Variable positions : list (float3 F).
Variable verts : list Z.

(** The iteration of a locked axis zeroes that component. *)
Lemma clip_and_lock_axis_locked (translations : list (float3 F)) (axis : Z) (i : nat)
    (translation : float3 F) :
  (0 <= axis <= 2)%Z ->
  truthy (Z.land (sd_flags sd) (Z.shiftl SCULPT_LOCK_X axis)) = true ->
  nth_error translations i = Some translation ->
  exists translation',
    nth_error (clip_and_lock_axis invert SCULPT_LOCK_X sd cache positions verts axis
                 translations) i = Some translation' /\
    v3_get translation' axis = fzero.
Proof.
  intros Ha Hlock Ht. unfold clip_and_lock_axis. rewrite Hlock.
  rewrite nth_error_map, Ht. cbn [option_map]. eexists. split; [reflexivity|].
  rewrite v3_get_set by assumption. rewrite Z.eqb_refl. reflexivity.
Qed.
End LockProps.

(** X14.  A locked axis stays where it is: when the bit of an axis is set
    in the lock flags of the sculpt settings and there is a stroke cache,
    [clip_and_lock_translations] returns every translation with component 0
    on that axis, whatever mirror clipping does on the other axes.  This
    holds for any arithmetic. *)
Theorem locked_axis_translation_zero
    (F : Type) (ops : FloatOps F) (RegionView3D View3D : Type)
    (invert : float4x4 F -> float4x4 F) (SCULPT_LOCK_X : Z) (sd : Sculpt F)
    (ss : SculptSession F RegionView3D View3D)
    (cache : StrokeCache F RegionView3D View3D)
    (positions : list (float3 F)) (verts : list Z) (translations : list (float3 F))
    (axis : Z) (i : nat) (vert : Z) (translation : float3 F) :
  ss_cache ss = Some cache ->
  (0 <= axis <= 2)%Z ->
  truthy (Z.land (sd_flags sd) (Z.shiftl SCULPT_LOCK_X axis)) = true ->
  nth_error verts i = Some vert ->
  nth_error translations i = Some translation ->
  exists translation',
    nth_error (clip_and_lock_translations invert SCULPT_LOCK_X sd ss positions verts
                 translations) i = Some translation' /\
    v3_get translation' axis = fzero.
Proof.
  intros Hcache Ha Hlock Hv Ht. unfold clip_and_lock_translations. rewrite Hcache.
  cbn [fold_left].
  pose proof (fun trs a t =>
                clip_and_lock_axis_others RegionView3D View3D invert SCULPT_LOCK_X sd
                  cache positions verts trs a i vert t) as Hothers.
  pose proof (fun trs t =>
                clip_and_lock_axis_locked RegionView3D View3D invert SCULPT_LOCK_X sd
                  cache positions verts trs axis i t Ha Hlock) as Hlocked.
  set (step := clip_and_lock_axis invert SCULPT_LOCK_X sd cache positions verts) in *.
  assert (Hcases : (axis = 0 \/ axis = 1 \/ axis = 2)%Z) by lia.
  destruct Hcases as [E | [E | E]]; subst axis.
  - destruct (Hlocked _ _ Ht) as [t1 [H1 Hz]].
    destruct (Hothers _ 1%Z _ ltac:(lia) Hv H1) as [t2 [H2 Hk2]].
    destruct (Hothers _ 2%Z _ ltac:(lia) Hv H2) as [t3 [H3 Hk3]].
    exists t3. split; [exact H3|].
    rewrite Hk3, Hk2 by lia. exact Hz.
  - destruct (Hothers _ 0%Z _ ltac:(lia) Hv Ht) as [t1 [H1 _]].
    destruct (Hlocked _ _ H1) as [t2 [H2 Hz]].
    destruct (Hothers _ 2%Z _ ltac:(lia) Hv H2) as [t3 [H3 Hk3]].
    exists t3. split; [exact H3|].
    rewrite Hk3 by lia. exact Hz.
  - destruct (Hothers _ 0%Z _ ltac:(lia) Hv Ht) as [t1 [H1 _]].
    destruct (Hothers _ 1%Z _ ltac:(lia) Hv H1) as [t2 [H2 _]].
    destruct (Hlocked _ _ H2) as [t3 [H3 Hz]].
    exists t3. split; [exact H3 | exact Hz].
Qed.

(** Y locked (the lock bits start at 8) while X is clipped at the mirror
    plane of [clip_x_session]: the translation (1,1,0) of the vertex (5,0,0)
    comes back with y = 0. *)
Lemma locked_axis_translation_zero_witness :
  exists translation',
    nth_error (clip_and_lock_translations invert_adjugate 8
                 (mkSculpt 16 0 v3_zero (mkint3 1 1 1)) (clip_x_session (1 # 1000))
                 [q3 5 0 0] [0%Z] [q3 1 1 0]) 0 = Some translation' /\
    v3_get translation' 1 = 0%Q.
Proof.
  exact (locked_axis_translation_zero Q Q_ops unit unit invert_adjugate 8
           (mkSculpt 16 0 v3_zero (mkint3 1 1 1)) (clip_x_session (1 # 1000))
           (plain_cache 0 CLIP_X (mk3 (1 # 1000) 0 0)%Q quarter_turn)
           [q3 5 0 0] [0%Z] [q3 1 1 0] 1%Z 0%nat 0%Z (q3 1 1 0)
           eq_refl ltac:(lia) eq_refl eq_refl eq_refl).
Defined.

(** ** Face sets of a vertex *)

Section FaceSetProps.
Variable face_sets : list Z.

Abbreviation unique_step :=
  (fun (st : Z * bool) (face_index : Z) =>
     let (face_set, returned_false) := st in
     if returned_false then st
     else if (face_set =? -1)%Z
     then (at_index 0%Z face_sets face_index, false)
     else if negb (at_index 0 face_sets face_index =? face_set)%Z
     then (face_set, true)
     else st).

Lemma unique_loop_returned (l : list Z) (s : Z) :
  snd (fold_left unique_step l (s, true)) = true.
Proof. induction l as [|f l IH]; cbn; [reflexivity | exact IH]. Qed.

Lemma unique_loop_started (l : list Z) (s : Z) :
  s <> (-1)%Z ->
  (snd (fold_left unique_step l (s, false)) = false <->
   forall f, In f l -> at_index 0%Z face_sets f = s).
Proof.
  intros Hs. induction l as [|f l IH]; cbn [fold_left].
  - split; [intros _ f [] | reflexivity].
  - cbn beta iota.
    destruct (s =? -1)%Z eqn:E; [apply Z.eqb_eq in E; contradiction|].
    destruct (at_index 0 face_sets f =? s)%Z eqn:Ef; cbn [negb].
    + apply Z.eqb_eq in Ef. rewrite IH. split.
      * intros Hall g [<- | Hg]; [exact Ef | apply Hall, Hg].
      * intros Hall g Hg. apply Hall. right. exact Hg.
    + apply Z.eqb_neq in Ef. rewrite unique_loop_returned. split; [discriminate|].
      intros Hall. exfalso. apply Ef. apply Hall. left. reflexivity.
Qed.
End FaceSetProps.

(** X15.  On a vertex none of whose faces carries the value -1,
    [vert_has_unique_face_set] answers true exactly when all the faces around
    the vertex are in one face set; a vertex without faces is unique.  (The
    value -1 is the marker of the loop for "no face seen yet".) *)
Theorem vert_has_unique_face_set_iff (vert_to_face_map : list (list Z))
    (face_sets : list Z) (vert : Z) :
  (forall f, In f (at_index [] vert_to_face_map vert) ->
             at_index 0%Z face_sets f <> (-1)%Z) ->
  (vert_has_unique_face_set vert_to_face_map (Some face_sets) vert = true <->
   forall f g, In f (at_index [] vert_to_face_map vert) ->
               In g (at_index [] vert_to_face_map vert) ->
               at_index 0%Z face_sets f = at_index 0%Z face_sets g).
Proof.
  unfold vert_has_unique_face_set.
  generalize (at_index [] vert_to_face_map vert) as l. intros l Hvalid.
  rewrite negb_true_iff. destruct l as [|f0 l].
  - cbn. split; [intros _ f g [] | reflexivity].
  - cbn [fold_left]. cbn beta iota. change (-1 =? -1)%Z with true. cbn iota.
    rewrite unique_loop_started by (apply Hvalid; left; reflexivity).
    split.
    + intros Hall f g Hf Hg.
      assert (Heq : forall x, In x (f0 :: l) ->
                      at_index 0%Z face_sets x = at_index 0%Z face_sets f0).
      { intros x [<- | Hx]; [reflexivity | apply Hall, Hx]. }
      rewrite (Heq f Hf), (Heq g Hg). reflexivity.
    + intros Hall f Hf. apply Hall; [right; exact Hf | left; reflexivity].
Qed.

(** Vertex 0 lies on the faces 0 and 1, both in face set 3. *)
Lemma vert_has_unique_face_set_iff_witness :
  vert_has_unique_face_set [[0; 1]; [1; 2]]%Z (Some [3; 3; 4]%Z) 0 = true <->
  forall f g, In f (at_index [] [[0; 1]; [1; 2]]%Z 0) ->
              In g (at_index [] [[0; 1]; [1; 2]]%Z 0) ->
              at_index 0%Z [3; 3; 4]%Z f = at_index 0%Z [3; 3; 4]%Z g.
Proof.
  apply (vert_has_unique_face_set_iff [[0; 1]; [1; 2]]%Z [3; 3; 4]%Z 0).
  intros f Hf. cbn in Hf. destruct Hf as [<- | [<- | []]]; cbn; discriminate.
Defined.

(** X16.  The face set [vert_face_set_get] reports for a vertex of the
    plain mesh is the largest of the face sets of its faces, and it is one
    the vertex has according to [vert_has_face_set], as soon as one of its
    faces is in a positive face set. *)
Theorem vert_face_set_get_is_had (SCULPT_FACE_SET_NONE : Z)
    (vert_to_face_map : list (list Z)) (face_sets : list Z) (vertex : Z) :
  (exists f, In f (at_index [] vert_to_face_map vertex) /\
             (0 < at_index 0 face_sets f)%Z) ->
  let face_set :=
    vert_face_set_get SCULPT_FACE_SET_NONE (Some face_sets) vert_to_face_map vertex in
  vert_has_face_set SCULPT_FACE_SET_NONE vert_to_face_map (Some face_sets) vertex face_set
  = true /\
  forall f, In f (at_index [] vert_to_face_map vertex) ->
            (at_index 0 face_sets f <= face_set)%Z.
Proof.
  unfold vert_face_set_get, vert_has_face_set.
  generalize (at_index [] vert_to_face_map vertex) as l. intros l Hpos. cbv zeta.
  set (step := fun (face_set face_index : Z) =>
                 if (at_index 0 face_sets face_index >? face_set)%Z
                 then at_index 0%Z face_sets face_index else face_set).
  assert (Hinv : forall l0 s,
             (s <= fold_left step l0 s)%Z /\
             (forall f, In f l0 -> (at_index 0 face_sets f <= fold_left step l0 s)%Z) /\
             (fold_left step l0 s = s \/
              exists f, In f l0 /\ at_index 0%Z face_sets f = fold_left step l0 s)).
  { induction l0 as [|f l0 IH]; intros s; cbn [fold_left].
    - split; [lia|]. split; [intros f [] | left; reflexivity].
    - destruct (IH (step s f)) as [Hge [Hall Hmem]].
      assert (Hstep : (s <= step s f /\ at_index 0 face_sets f <= step s f)%Z /\
                      (step s f = s \/ step s f = at_index 0%Z face_sets f)).
      { unfold step. destruct (at_index 0 face_sets f >? s)%Z eqn:E.
        - apply Z.gtb_lt in E. split; [lia | right; reflexivity].
        - rewrite Z.gtb_ltb in E. apply Z.ltb_ge in E. split; [lia | left; reflexivity]. }
      destruct Hstep as [[Hs Hf] Hval].
      split; [lia|]. split.
      + intros g [<- | Hg]; [lia | apply Hall, Hg].
      + destruct Hmem as [Hsame | [g [Hg Heq]]].
        * destruct Hval as [Hv | Hv].
          -- left. congruence.
          -- right. exists f. split; [left; reflexivity | congruence].
        * right. exists g. split; [right; exact Hg | exact Heq]. }
  destruct (Hinv l 0%Z) as [_ [Hall Hmem]]. split; [|exact Hall].
  destruct Hpos as [f [Hf Hfpos]].
  destruct Hmem as [Hzero | [g [Hg Heq]]].
  - specialize (Hall f Hf). lia.
  - apply existsb_exists. exists g. split; [exact Hg | apply Z.eqb_eq; exact Heq].
Qed.

(** Vertex 0 lies on the faces 0 and 1, in the face sets 3 and 5. *)
Lemma vert_face_set_get_is_had_witness :
  let face_set := vert_face_set_get 0 (Some [3; 5; 4]%Z) [[0; 1]; [1; 2]]%Z 0 in
  vert_has_face_set 0 [[0; 1]; [1; 2]]%Z (Some [3; 5; 4]%Z) 0 face_set = true /\
  forall f, In f (at_index [] [[0; 1]; [1; 2]]%Z 0) ->
            (at_index 0 [3; 5; 4] f <= face_set)%Z.
Proof.
  apply (vert_face_set_get_is_had 0 [[0; 1]; [1; 2]]%Z [3; 5; 4]%Z 0).
  exists 1%Z. split; [right; left; reflexivity | reflexivity].
Defined.

(** ** Hidden faces *)

(** X17.  For a vertex of the plain mesh that lies on at least one face,
    "all faces visible" implies "any face visible"; for a vertex without
    faces, once the mesh has a hide attribute, [vert_all_faces_visible_get]
    answers true while [vert_any_face_visible_get] answers false. *)
Theorem all_faces_visible_implies_any (hide_poly : option (list bool))
    (vert_to_face_map : list (list Z)) (vertex : Z) :
  vert_all_faces_visible_get_mesh hide_poly vert_to_face_map vertex = true ->
  (vert_any_face_visible_get hide_poly vert_to_face_map vertex = true <->
   hide_poly = None \/ at_index [] vert_to_face_map vertex <> []).
Proof.
  unfold vert_all_faces_visible_get_mesh, vert_any_face_visible_get.
  destruct hide_poly as [hide|]; [|intros _; split; [left; reflexivity | reflexivity]].
  destruct (at_index [] vert_to_face_map vertex) as [|f l]; cbn.
  - intros _. split; [discriminate | intros [H | H]; [discriminate H | contradiction]].
  - intros Hall. apply andb_true_iff in Hall as [Hf _]. rewrite Hf. cbn.
    split; [intros _; right; discriminate | reflexivity].
Qed.

(** A loose vertex (vertex 1 has no face) of a mesh with a hide
    attribute: all of its faces are visible, none is. *)
Lemma all_faces_visible_implies_any_witness :
  vert_any_face_visible_get (Some [false]) [[0%Z]; []] 1 = true <->
  Some [false] = None \/ at_index [] [[0%Z]; []] 1 <> [].
Proof.
  apply (all_faces_visible_implies_any (Some [false]) [[0%Z]; []] 1%Z).
  reflexivity.
Defined.

(** X18.  Hidden faces and the neighbours of a vertex of the plain
    mesh: when none of the faces around the vertex is visible,
    [vert_neighbors_get_mesh] finds no neighbour; when
    [vert_is_boundary] answers false, and so when all the faces around the
    vertex are visible, it finds the neighbours it would find on a mesh
    without hidden faces. *)
Theorem neighbors_and_hidden_faces
    (face_find_adjacent_verts : IndexRange -> list Z -> Z -> Z * Z)
    (faces corner_verts : list Z) (vert_to_face_map : list (list Z))
    (hide_poly boundary : list bool) (vert : Z) :
  (hide_poly <> [] ->
   vert_any_face_visible_get (Some hide_poly) vert_to_face_map vert = false ->
   vert_neighbors_get_mesh face_find_adjacent_verts vert faces corner_verts
     vert_to_face_map hide_poly = []) /\
  (vert_is_boundary hide_poly vert_to_face_map boundary vert = false ->
   vert_neighbors_get_mesh face_find_adjacent_verts vert faces corner_verts
     vert_to_face_map hide_poly
   = vert_neighbors_get_mesh face_find_adjacent_verts vert faces corner_verts
       vert_to_face_map []).
Proof.
  unfold vert_is_boundary, vert_all_faces_visible_get, vert_any_face_visible_get,
    vert_neighbors_get_mesh.
  generalize (at_index [] vert_to_face_map vert) as l. intros l. split.
  - intros Hne Hnone.
    assert (Hsize : (size hide_poly =? 0)%Z = false).
    { unfold size. destruct hide_poly; [contradiction | reflexivity]. }
    rewrite Hsize. cbn [negb andb].
    generalize (@nil Z) as acc.
    induction l as [|f l IH]; intros acc; cbn [fold_left]; [reflexivity|].
    cbn [existsb] in Hnone. apply orb_false_iff in Hnone as [Hf Hl].
    apply negb_false_iff in Hf. rewrite Hf. apply IH. exact Hl.
  - destruct (size hide_poly =? 0)%Z eqn:Hsize.
    + intros _. unfold size in Hsize. destruct hide_poly; [reflexivity | discriminate].
    + cbn [negb andb]. intros Hb.
      destruct (forallb (fun face => negb (at_index false hide_poly face)) l) eqn:Hall;
        [|discriminate Hb].
      clear Hb. change (size [] =? 0)%Z with true. cbn [negb andb].
      generalize (@nil Z) as acc.
      induction l as [|f l IH]; intros acc; cbn [fold_left]; [reflexivity|].
      cbn [forallb] in Hall. apply andb_true_iff in Hall as [Hf Hl].
      apply negb_true_iff in Hf. rewrite Hf. apply IH. exact Hl.
Qed.

(** A triangle whose only face is hidden: vertex 0 has no neighbour. *)
Lemma neighbors_and_hidden_faces_witness :
  vert_neighbors_get_mesh adjacent_in_face 0 [0; 3]%Z [0; 1; 2]%Z [[0]; [0]; [0]]%Z [true]
  = [].
Proof.
  apply (proj1 (neighbors_and_hidden_faces adjacent_in_face [0; 3]%Z [0; 1; 2]%Z
                  [[0]; [0]; [0]]%Z [true] [] 0%Z)).
  - discriminate.
  - reflexivity.
Defined.

(** On a multires grid the two overloads of
    [vert_all_faces_visible_get] disagree: for the grid of a vertex, the
    overload that takes the [hide_poly] span answers true exactly when the
    overload that takes the session answers false, that is, when the face
    of the grid is hidden. *)
Theorem grids_overloads_disagree (grid_to_face_index : Z -> Z) (hide_poly : list bool)
    (grid_area vertex : Z) :
  vert_all_faces_visible_get_ccg grid_to_face_index hide_poly (Z.quot vertex grid_area)
  = negb (vert_all_faces_visible_get_grids grid_to_face_index (Some hide_poly) grid_area
            vertex).
Proof.
  unfold vert_all_faces_visible_get_ccg, vert_all_faces_visible_get_grids.
  rewrite negb_involutive. reflexivity.
Qed.

(** ** The nearest vertex *)

Section NearestProps.
Variable FLT_MAX : Q.
Variable node_unique_verts : Node Q -> list Z.
Variable vert_positions : list (float3 Q).
Variable hide_vert : list bool.
Variable location : float3 Q.

Abbreviation so_far := (nearest_so_far FLT_MAX vert_positions hide_vert location).
Abbreviation in_range :=
  (nearest_in_range node_unique_verts vert_positions hide_vert location).

Lemma nearest_so_far_initial : so_far [] (mkNearest (-1) FLT_MAX).
Proof.
  split; [intros w []|]. left. split; reflexivity.
Qed.

Lemma nearest_so_far_vert (seen : list Z) (n : NearestData) (vert : Z) :
  so_far seen n ->
  so_far (seen ++ [vert])
    (if negb (size hide_vert =? 0)%Z && at_index false hide_vert vert then n
     else if fltb (distance_squared (at_index v3_zero vert_positions vert) location)
                  (nearest_distance_sq n)
          then mkNearest vert
                 (distance_squared (at_index v3_zero vert_positions vert) location)
          else n).
Proof.
  intros [Hmin Hcand].
  assert (Hkeep : (forall w, In w (seen ++ [vert]) -> vert_shown hide_vert w = true ->
                     w = vert \/ In w seen)).
  { intros w Hw _. apply in_app_or in Hw as [Hw | [<- | []]]; [right | left]; auto. }
  assert (Hweaken :
    (nearest_vert n = (-1)%Z /\ nearest_distance_sq n = FLT_MAX) \/
    (In (nearest_vert n) (seen ++ [vert]) /\ vert_shown hide_vert (nearest_vert n) = true /\
     nearest_distance_sq n
     = distance_squared (at_index v3_zero vert_positions (nearest_vert n)) location /\
     (nearest_distance_sq n < FLT_MAX)%Q)).
  { destruct Hcand as [Hinit | [Hin Hrest]]; [left; exact Hinit|].
    right. split; [apply in_or_app; left; exact Hin | exact Hrest]. }
  assert (Hle : (nearest_distance_sq n <= FLT_MAX)%Q).
  { destruct Hcand as [[_ ->] | [_ [_ [_ Hlt]]]]; [apply Qle_refl | apply Qlt_le_weak, Hlt]. }
  destruct (negb (size hide_vert =? 0)%Z && at_index false hide_vert vert) eqn:Ehide.
  - split; [|exact Hweaken].
    intros w Hw Hshown. destruct (Hkeep w Hw Hshown) as [-> | Hseen].
    + unfold vert_shown in Hshown. rewrite Ehide in Hshown. discriminate Hshown.
    + apply Hmin; assumption.
  - q_ops.
    set (d := distance_squared (at_index v3_zero vert_positions vert) location) in *.
    destruct (Qltb d (nearest_distance_sq n)) eqn:Ecmp.
    + apply Qltb_lt in Ecmp. split; cbn [nearest_vert nearest_distance_sq].
      * intros w Hw Hshown. destruct (Hkeep w Hw Hshown) as [-> | Hseen].
        -- apply Qle_refl.
        -- eapply Qle_trans; [apply Qlt_le_weak, Ecmp | apply Hmin; assumption].
      * right. split; [apply in_or_app; right; left; reflexivity|].
        split; [unfold vert_shown; rewrite Ehide; reflexivity|].
        split; [reflexivity|]. eapply Qlt_le_trans; [exact Ecmp | exact Hle].
    + apply Qltb_ge in Ecmp. split; [|exact Hweaken].
      intros w Hw Hshown. destruct (Hkeep w Hw Hshown) as [-> | Hseen].
      * exact Ecmp.
      * apply Hmin; assumption.
Qed.

Lemma nearest_so_far_range (range : list (Node Q)) (seen : list Z) (n : NearestData) :
  so_far seen n ->
  so_far (seen ++ verts_of_nodes node_unique_verts range) (in_range range n).
Proof.
  unfold nearest_in_range, verts_of_nodes. revert seen n.
  induction range as [|node range IH]; intros seen n Hn; cbn [fold_left flat_map].
  - rewrite app_nil_r. exact Hn.
  - rewrite app_assoc. apply IH.
    generalize (node_unique_verts node) as l. intros l. revert seen n Hn.
    induction l as [|v l IHl]; intros seen n Hn; cbn [fold_left].
    + rewrite app_nil_r. exact Hn.
    + change (v :: l) with ([v] ++ l). rewrite app_assoc. apply IHl.
      apply nearest_so_far_vert. exact Hn.
Qed.

Lemma nearest_so_far_join (sa sb : list Z) (a b : NearestData) :
  so_far sa a -> so_far sb b -> so_far (sa ++ sb) (nearest_join a b).
Proof.
  intros [Hmina Hca] [Hminb Hcb]. unfold nearest_join. q_ops.
  destruct (Qltb (nearest_distance_sq a) (nearest_distance_sq b)) eqn:E.
  - apply Qltb_lt in E. split.
    + intros w Hw Hshown. apply in_app_or in Hw as [Hw | Hw].
      * apply Hmina; assumption.
      * eapply Qle_trans; [apply Qlt_le_weak, E | apply Hminb; assumption].
    + destruct Hca as [Hinit | [Hin Hrest]]; [left; exact Hinit|].
      right. split; [apply in_or_app; left; exact Hin | exact Hrest].
  - apply Qltb_ge in E. split.
    + intros w Hw Hshown. apply in_app_or in Hw as [Hw | Hw].
      * eapply Qle_trans; [exact E | apply Hmina; assumption].
      * apply Hminb; assumption.
    + destruct Hcb as [Hinit | [Hin Hrest]]; [left; exact Hinit|].
      right. split; [apply in_or_app; right; exact Hin | exact Hrest].
Qed.

Lemma nearest_so_far_plan (plan : reduction_plan (Node Q)) :
  so_far (verts_of_nodes node_unique_verts (plan_range plan))
         (parallel_reduce plan (mkNearest (-1) FLT_MAX) in_range nearest_join).
Proof.
  induction plan as [chunk | lhs IHl rhs IHr]; cbn [plan_range parallel_reduce].
  - apply (nearest_so_far_range chunk [] _ nearest_so_far_initial).
  - unfold verts_of_nodes. rewrite flat_map_app.
    apply nearest_so_far_join; assumption.
Qed.
End NearestProps.

(** X20.  The vertex [nearest_vert_calc_mesh] returns is the nearest one:
    when it is not the marker -1, or when some vertex of the gathered nodes
    is not hidden and lies at a squared distance below [FLT_MAX], the vertex
    returned is a vertex of one of the gathered nodes, is not hidden, and no
    vertex of the gathered nodes that is not hidden is nearer to the
    location.  This holds however the scheduler of [parallel_reduce] cuts the
    nodes into chunks and joins the results.  Exact arithmetic. *)
Theorem nearest_vert_is_nearest
    (FLT_MAX : Q) (Tree : Type) (search_gather : Tree -> (Node Q -> bool) -> list (Node Q))
    (node_unique_verts : Node Q -> list Z)
    (schedule : list (Node Q) -> reduction_plan (Node Q)) (pbvh : Tree)
    (vert_positions : list (float3 Q)) (hide_vert : list bool) (location : float3 Q)
    (max_distance : Q) (use_original : bool) (v : Z) :
  let nodes :=
    search_gather pbvh
      (fun node => node_in_sphere node location (max_distance * max_distance)%Q
                     use_original) in
  plan_range (schedule nodes) = nodes ->
  nearest_vert_calc_mesh FLT_MAX search_gather node_unique_verts schedule pbvh
    vert_positions hide_vert location max_distance use_original = Some v ->
  (v <> (-1)%Z \/
   exists node w, In node nodes /\ In w (node_unique_verts node) /\
                  vert_shown hide_vert w = true /\
                  (distance_squared (at_index v3_zero vert_positions w) location
                   < FLT_MAX)%Q) ->
  (exists node, In node nodes /\ In v (node_unique_verts node)) /\
  vert_shown hide_vert v = true /\
  forall node w, In node nodes -> In w (node_unique_verts node) ->
                 vert_shown hide_vert w = true ->
                 (distance_squared (at_index v3_zero vert_positions v) location
                  <= distance_squared (at_index v3_zero vert_positions w) location)%Q.
Proof.
  cbv zeta. unfold nearest_vert_calc_mesh. q_ops.
  set (nodes := search_gather pbvh _). intros Hplan Hres Hv.
  destruct (size nodes =? 0)%Z; [discriminate Hres|].
  injection Hres as Hres.
  pose proof (nearest_so_far_plan FLT_MAX node_unique_verts vert_positions hide_vert
                location (schedule nodes)) as [Hmin Hcand].
  rewrite Hplan in Hmin, Hcand.
  set (n := parallel_reduce (schedule nodes) _ _ _) in *. clearbody n. subst v.
  assert (Hfound :
    In (nearest_vert n) (verts_of_nodes node_unique_verts nodes) /\
    vert_shown hide_vert (nearest_vert n) = true /\
    nearest_distance_sq n
    = distance_squared (at_index v3_zero vert_positions (nearest_vert n)) location).
  { destruct Hcand as [[Hinit Hmax] | [Hin [Hshown [Hdist _]]]].
    2:{ split; [exact Hin|]. split; [exact Hshown | exact Hdist]. }
    exfalso.
    destruct Hv as [Hv | [node [w [Hnode [Hw [Hwshown Hnear]]]]]]; [contradiction|].
    assert (Hle : (FLT_MAX
                   <= distance_squared (at_index v3_zero vert_positions w) location)%Q).
    { rewrite <- Hmax. apply Hmin; [|exact Hwshown].
      unfold verts_of_nodes. apply in_flat_map. exists node. split; assumption. }
    apply (Qlt_not_le _ _ Hnear Hle). }
  destruct Hfound as [Hin [Hshown Hdist]].
  split; [|split; [exact Hshown|]].
  - unfold verts_of_nodes in Hin. apply in_flat_map in Hin. exact Hin.
  - intros node w Hnode Hw Hwshown. rewrite <- Hdist.
    apply Hmin; [|exact Hwshown].
    unfold verts_of_nodes. apply in_flat_map. exists node. split; assumption.
Qed.

(** Two nodes with the vertices 0, 1 and 2, 3 on a line; vertex 2, the
    nearest to the location (2,0,0), is hidden, and the vertices 1 and 3
    tie; with the two nodes run as two chunks the join keeps vertex 3. *)
Lemma nearest_vert_is_nearest_witness :
  let verts_of := fun node : Node Q =>
                    if Qeq_bool (vx (bounds_min (node_bounds node))) 0
                    then [0; 1]%Z else [2; 3]%Z in
  let nodes := [point_node (q3 0 0 0); point_node (q3 2 0 0)] in
  (exists node, In node nodes /\ In 3%Z (verts_of node)) /\
  vert_shown [false; false; true; false] 3 = true /\
  forall node w, In node nodes -> In w (verts_of node) ->
                 vert_shown [false; false; true; false] w = true ->
                 (distance_squared
                    (at_index v3_zero [q3 0 0 0; q3 1 0 0; q3 2 0 0; q3 3 0 0] 3)
                    (q3 2 0 0)
                  <= distance_squared
                       (at_index v3_zero [q3 0 0 0; q3 1 0 0; q3 2 0 0; q3 3 0 0] w)
                       (q3 2 0 0))%Q.
Proof.
  apply (nearest_vert_is_nearest 1000 unit
           (fun _ accept => filter accept [point_node (q3 0 0 0); point_node (q3 2 0 0)])
           (fun node => if Qeq_bool (vx (bounds_min (node_bounds node))) 0
                        then [0; 1]%Z else [2; 3]%Z)
           (fun nodes => Join (Run (firstn 1 nodes)) (Run (skipn 1 nodes))) tt
           [q3 0 0 0; q3 1 0 0; q3 2 0 0; q3 3 0 0] [false; false; true; false]
           (q3 2 0 0) 10 false 3%Z).
  - reflexivity.
  - reflexivity.
  - left. discriminate.
Defined.

(** X21.  [nearest_vert_calc_mesh] returns no value only when no node is
    gathered.  When nodes are gathered but every one of their vertices is
    hidden (or at a squared distance of [FLT_MAX] or more), it returns the
    marker -1 as a value, not the empty optional.  Exact arithmetic, any
    schedule. *)
Theorem nearest_vert_all_hidden
    (FLT_MAX : Q) (Tree : Type) (search_gather : Tree -> (Node Q -> bool) -> list (Node Q))
    (node_unique_verts : Node Q -> list Z)
    (schedule : list (Node Q) -> reduction_plan (Node Q)) (pbvh : Tree)
    (vert_positions : list (float3 Q)) (hide_vert : list bool) (location : float3 Q)
    (max_distance : Q) (use_original : bool) :
  let nodes :=
    search_gather pbvh
      (fun node => node_in_sphere node location (max_distance * max_distance)%Q
                     use_original) in
  let result :=
    nearest_vert_calc_mesh FLT_MAX search_gather node_unique_verts schedule pbvh
      vert_positions hide_vert location max_distance use_original in
  plan_range (schedule nodes) = nodes ->
  (result = None <-> nodes = []) /\
  (nodes <> [] ->
   (forall node w, In node nodes -> In w (node_unique_verts node) ->
                   vert_shown hide_vert w = true ->
                   (FLT_MAX
                    <= distance_squared (at_index v3_zero vert_positions w) location)%Q) ->
   result = Some (-1)%Z).
Proof.
  cbv zeta. unfold nearest_vert_calc_mesh. q_ops.
  set (nodes := search_gather pbvh _). intros Hplan.
  destruct (size nodes =? 0)%Z eqn:Hsize.
  - assert (Hnil : nodes = []).
    { unfold size in Hsize. destruct nodes; [reflexivity | discriminate Hsize]. }
    split; [split; [intros _; exact Hnil | reflexivity]|].
    intros Hne. contradiction.
  - split.
    { split; [discriminate|]. intros Hnil. rewrite Hnil in Hsize. discriminate Hsize. }
    intros _ Hfar. f_equal.
    pose proof (nearest_so_far_plan FLT_MAX node_unique_verts vert_positions hide_vert
                  location (schedule nodes)) as [_ Hcand].
    rewrite Hplan in Hcand.
    destruct Hcand as [[Hinit _] | [Hin [Hshown [Hdist Hlt]]]]; [exact Hinit|].
    exfalso. unfold verts_of_nodes in Hin. apply in_flat_map in Hin as [node [Hn Hw]].
    specialize (Hfar node _ Hn Hw Hshown). rewrite <- Hdist in Hfar.
    apply (Qlt_not_le _ _ Hlt Hfar).
Qed.

(** One node whose two vertices are both hidden. *)
Lemma nearest_vert_all_hidden_witness :
  nearest_vert_calc_mesh 1000 (fun (_ : unit) accept => filter accept [point_node (q3 0 0 0)])
    (fun _ => [0; 1]%Z) (fun nodes => Run nodes) tt [q3 0 0 0; q3 1 0 0] [true; true]
    (q3 0 0 0) 10 false
  = Some (-1)%Z.
Proof.
  refine (proj2 (nearest_vert_all_hidden 1000 unit
                   (fun _ accept => filter accept [point_node (q3 0 0 0)])
                   (fun _ => [0; 1]%Z) (fun nodes => Run nodes) tt
                   [q3 0 0 0; q3 1 0 0] [true; true] (q3 0 0 0) 10 false eq_refl) _ _).
  - vm_compute. discriminate.
  - intros node w _ Hw Hshown. cbn in Hw.
    destruct Hw as [<- | [<- | []]]; vm_compute in Hshown; discriminate Hshown.
Defined.

(** ** The symmetry feather *)

Lemma floor_sqrt_nonneg (x : Q) : (0 <= floor_sqrt x)%Q.
Proof.
  unfold floor_sqrt. change 0%Q with (inject_Z 0). rewrite <- Zle_Qle.
  apply Z.sqrt_nonneg.
Qed.

Lemma floor_sqrt_below (x y : Q) : (0 <= y)%Q -> (x <= y * y)%Q -> (floor_sqrt x <= y)%Q.
Proof.
  intros Hy Hx. unfold floor_sqrt.
  destruct (Z_lt_le_dec (Qfloor x) 0) as [Hneg | Hpos].
  - rewrite Z.sqrt_neg by exact Hneg. exact Hy.
  - set (n := Z.sqrt (Qfloor x)).
    assert (Hn : (0 <= n)%Z) by apply Z.sqrt_nonneg.
    assert (Hsq : (n * n <= Qfloor x)%Z) by (apply Z.sqrt_spec; exact Hpos).
    assert (Hq : (inject_Z n * inject_Z n <= y * y)%Q).
    { rewrite <- inject_Z_mult. eapply Qle_trans; [|exact Hx].
      eapply Qle_trans; [|apply Qfloor_le]. rewrite <- Zle_Qle. exact Hsq. }
    assert (Hn' : (0 <= inject_Z n)%Q).
    { change 0%Q with (inject_Z 0). rewrite <- Zle_Qle. exact Hn. }
    destruct (Qlt_le_dec y (inject_Z n)) as [Hlt | Hle]; [|exact Hle].
    exfalso.
    assert (Hprod : (0 < (inject_Z n - y) * (inject_Z n + y))%Q).
    { apply Qmult_lt_0_compat; lra. }
    assert (Hring : ((inject_Z n - y) * (inject_Z n + y)
                     == inject_Z n * inject_Z n - y * y)%Q) by ring.
    rewrite Hring in Hprod. lra.
Qed.

Section FeatherProps.
Variable RegionView3D : Type.
Variable View3D : Type.
Variable rotate_point : Z -> Q -> float3 Q -> float3 Q.
Variable sqrtf : Q -> Q.
Variable radial_angle : Z -> Z -> Q.
Variable sd : Sculpt Q.
Variable cache : StrokeCache Q RegionView3D View3D.

Hypothesis sqrtf_nonneg : forall x, (0 <= sqrtf x)%Q.
Hypothesis sqrtf_below : forall x y, (0 <= y)%Q -> (x <= y * y)%Q -> (sqrtf x <= y)%Q.
Hypothesis radius_positive : (0 < radius cache)%Q.
Hypothesis radius_squared_is : (radius_squared cache == radius cache * radius cache)%Q.

(** The share of one pass lies between 0 and 1. *)
Lemma calc_overlap_range (symm axis : Z) (angle : Q) :
  (0 <= calc_overlap rotate_point sqrtf cache symm axis angle <= 1)%Q.
Proof.
  unfold calc_overlap. q_ops.
  set (distsq := distance_squared _ _).
  destruct (Qle_bool distsq (inject_Z 4 * radius_squared cache)) eqn:E; [|lra].
  apply Qle_bool_iff in E.
  assert (Hs : (sqrtf distsq <= 2 * radius cache)%Q).
  { apply sqrtf_below; [lra|]. eapply Qle_trans; [exact E|].
    rewrite radius_squared_is. change (inject_Z 4) with 4%Q.
    apply Qle_lteq. right. ring. }
  pose proof (sqrtf_nonneg distsq) as Hs0.
  change (inject_Z 2) with 2%Q.
  split.
  - apply Qle_shift_div_l; lra.
  - apply Qle_shift_div_r; lra.
Qed.

(** The pass without mirroring and without rotation has share 1. *)
Lemma calc_overlap_main : (calc_overlap rotate_point sqrtf cache 0 0 0 == 1)%Q.
Proof.
  unfold calc_overlap. q_ops. cbn [Z.eqb negb].
  set (distsq := distance_squared _ _).
  assert (Hd : (distsq == 0)%Q).
  { unfold distsq, distance_squared, symmetry_flip, dot, v3_sub. cbn [vx vy vz truthy].
    cbn. q_ops. ring. }
  assert (Hr : (0 <= radius cache * radius cache)%Q) by apply Qsquare_nonneg.
  assert (E : Qle_bool distsq (inject_Z 4 * radius_squared cache) = true).
  { apply Qle_bool_iff. rewrite Hd, radius_squared_is. change (inject_Z 4) with 4%Q. lra. }
  rewrite E.
  assert (Hs : (sqrtf distsq == 0)%Q).
  { apply Qle_antisym; [|apply sqrtf_nonneg].
    apply sqrtf_below; [apply Qle_refl|]. rewrite Hd. lra. }
  rewrite Hs. change (inject_Z 2) with 2%Q. field. lra.
Qed.

Lemma calc_radial_symmetry_feather_nonneg (symm axis : Z) :
  (0 <= calc_radial_symmetry_feather rotate_point sqrtf radial_angle sd cache symm axis)%Q.
Proof.
  unfold calc_radial_symmetry_feather. apply for_range_inv; [apply Qle_refl|].
  intros i overlap _ Ho. q_ops.
  pose proof (calc_overlap_range symm axis
                (radial_angle i (int3_get (radial_symm sd) (axis - char_X)))) as [Hc _].
  lra.
Qed.
End FeatherProps.

(** X22.  The symmetry feather never amplifies and never divides by zero:
    for a brush of positive radius, with [radius_squared] the square of
    [radius], a symmetry bitmask that is not negative and a square root that
    is non-negative and not above the true root, [calc_symmetry_feather]
    returns a value greater than 0 and at most 1.  The pass without mirroring
    has overlap 1 with itself and every other pass an overlap in [0,1], so
    the sum that divides is at least 1.  Exact arithmetic, where a division
    by 0 would yield 0. *)
Theorem symmetry_feather_range
    (RegionView3D View3D : Type) (rotate_point : Z -> Q -> float3 Q -> float3 Q)
    (sqrtf : Q -> Q) (radial_angle : Z -> Z -> Q) (PAINT_SYMMETRY_FEATHER : Z) (sd : Sculpt Q)
    (cache : StrokeCache Q RegionView3D View3D) :
  (forall x, (0 <= sqrtf x)%Q) ->
  (forall x y, (0 <= y)%Q -> (x <= y * y)%Q -> (sqrtf x <= y)%Q) ->
  (0 < radius cache)%Q ->
  (radius_squared cache == radius cache * radius cache)%Q ->
  (0 <= symmetry cache)%Z ->
  let feather :=
    calc_symmetry_feather rotate_point sqrtf radial_angle PAINT_SYMMETRY_FEATHER sd cache in
  (0 < feather)%Q /\ (feather <= 1)%Q.
Proof.
  intros Hs0 Hs1 Hr Hrsq Hsymm. cbv zeta. unfold calc_symmetry_feather. q_ops.
  destruct (negb (truthy (Z.land (paint_symmetry_flags sd) PAINT_SYMMETRY_FEATHER)));
    [split; lra|].
  set (overlap := for_range _ _ _ _).
  assert (Hoverlap : (1 <= overlap)%Q).
  { assert (Hend :
      (fun k (s : Q) => (0 <= s)%Q /\ ((0 < k)%Z -> (1 <= s)%Q))
        (symmetry cache + 1)%Z overlap).
    { unfold overlap. apply for_range_ind.
      - lia.
      - split; [apply Qle_refl | lia].
      - intros k s Hk [Hs Hone].
        pose proof (calc_overlap_range RegionView3D View3D rotate_point sqrtf cache
                      Hs0 Hs1 Hr Hrsq k 0%Z 0%Q) as [Hc _].
        pose proof (calc_radial_symmetry_feather_nonneg RegionView3D View3D rotate_point
                      sqrtf radial_angle sd cache Hs0 Hs1 Hr Hrsq k char_X) as Hx.
        pose proof (calc_radial_symmetry_feather_nonneg RegionView3D View3D rotate_point
                      sqrtf radial_angle sd cache Hs0 Hs1 Hr Hrsq k char_Y) as Hy.
        pose proof (calc_radial_symmetry_feather_nonneg RegionView3D View3D rotate_point
                      sqrtf radial_angle sd cache Hs0 Hs1 Hr Hrsq k char_Z) as Hz.
        destruct (Z.eq_dec k 0) as [-> | Hne].
        + change (SCULPT_is_symmetry_iteration_valid 0 (symmetry cache)) with true.
          cbn [negb].
          pose proof (calc_overlap_main RegionView3D View3D rotate_point sqrtf cache
                        Hs0 Hs1 Hr Hrsq) as Hmain.
          split; [lra | intros _; lra].
        + specialize (Hone ltac:(lia)).
          destruct (negb (SCULPT_is_symmetry_iteration_valid k (symmetry cache)));
            (split; [lra | intros _; lra]). }
    cbv beta in Hend. apply Hend. lia. }
  split.
  - apply Qlt_shift_div_l; lra.
  - apply Qle_shift_div_r; lra.
Qed.

(** A brush of radius 1 at the origin with X mirrored and the feather
    bit (1 here) set, the integer square root standing for the root. *)
Lemma symmetry_feather_range_witness :
  let feather :=
    calc_symmetry_feather (fun _ _ p => p) floor_sqrt demo_angle 1
      (mkSculpt 0 1 v3_zero (mkint3 1 1 1)) (set_symmetry (hover_cache 0) 1) in
  (0 < feather)%Q /\ (feather <= 1)%Q.
Proof.
  apply (symmetry_feather_range unit unit (fun _ _ p => p) floor_sqrt demo_angle 1
           (mkSculpt 0 1 v3_zero (mkint3 1 1 1)) (set_symmetry (hover_cache 0) 1)
           floor_sqrt_nonneg floor_sqrt_below).
  - reflexivity.
  - reflexivity.
  - cbn. lia.
Defined.

(** ** Stroke identifiers *)

Lemma stroke_id_next_mod (stroke_id : Z) :
  (0 <= stroke_id)%Z -> SCULPT_stroke_id_next stroke_id = ((stroke_id + 1) mod 256)%Z.
Proof.
  intros Hid. unfold SCULPT_stroke_id_next.
  change 255%Z with (Z.ones 8). rewrite Z.land_ones by lia. reflexivity.
Qed.

(** X23.  Stroke identifiers count modulo 256: starting from an
    identifier in 0..255, [n] calls of [SCULPT_stroke_id_next] give
    [(id + n) mod 256], so that the identifier after 255 is 0, the same
    identifier comes back after exactly 256 strokes and after no fewer. *)
Theorem stroke_id_cycle (stroke_id : Z) (n : nat) :
  (0 <= stroke_id <= 255)%Z ->
  Nat.iter n SCULPT_stroke_id_next stroke_id = ((stroke_id + Z.of_nat n) mod 256)%Z /\
  (Nat.iter n SCULPT_stroke_id_next stroke_id = stroke_id <-> (Z.of_nat n mod 256 = 0)%Z).
Proof.
  intros Hid.
  assert (Hiter : Nat.iter n SCULPT_stroke_id_next stroke_id
                  = ((stroke_id + Z.of_nat n) mod 256)%Z).
  { induction n as [|n IH].
    - unfold Nat.iter. cbn [nat_rect]. rewrite Z.add_0_r. symmetry.
      apply Z.mod_small. lia.
    - rewrite Nat.iter_succ, IH.
      rewrite stroke_id_next_mod
        by (pose proof (Z.mod_pos_bound (stroke_id + Z.of_nat n) 256); lia).
      rewrite Z.add_mod_idemp_l by lia. f_equal. lia. }
  split; [exact Hiter|]. rewrite Hiter.
  pose proof (Z.div_mod (Z.of_nat n) 256 ltac:(lia)) as Hdm.
  pose proof (Z.mod_pos_bound (Z.of_nat n) 256 ltac:(lia)) as Hbound.
  set (q := (Z.of_nat n / 256)%Z) in *. set (r := (Z.of_nat n mod 256)%Z) in *.
  replace (stroke_id + Z.of_nat n)%Z with (stroke_id + r + q * 256)%Z by lia.
  rewrite Z.mod_add by lia.
  split.
  - intros Heq.
    destruct (Z_lt_le_dec (stroke_id + r) 256) as [Hlt | Hge].
    + rewrite Z.mod_small in Heq by lia. lia.
    + replace (stroke_id + r)%Z with (stroke_id + r - 256 + 1 * 256)%Z in Heq by lia.
      rewrite Z.mod_add in Heq by lia. rewrite Z.mod_small in Heq by lia. lia.
  - intros ->. rewrite Z.add_0_r. apply Z.mod_small. lia.
Qed.

(** From the identifier 200, 100 strokes lead to 44. *)
Lemma stroke_id_cycle_witness :
  Nat.iter 100 SCULPT_stroke_id_next 200%Z = ((200 + Z.of_nat 100) mod 256)%Z /\
  (Nat.iter 100 SCULPT_stroke_id_next 200%Z = 200%Z <-> (Z.of_nat 100 mod 256 = 0)%Z).
Proof.
  exact (stroke_id_cycle 200 100 ltac:(lia)).
Defined.

(** ** The pass enumeration: the passes of one input step *)

Lemma Zrange_empty (first last : Z) : (last < first)%Z -> Zrange first last = [].
Proof.
  intros Hlt. unfold Zrange.
  replace (Z.to_nat (last - first + 1)) with 0%nat by lia. reflexivity.
Qed.

Lemma Zrange_last (first last : Z) :
  (first <= last)%Z -> Zrange first last = Zrange first (last - 1) ++ [last].
Proof.
  intros Hle. unfold Zrange.
  replace (Z.to_nat (last - first + 1)) with (S (Z.to_nat (last - 1 - first + 1))) by lia.
  rewrite seq_S, map_app. cbn [map Nat.add]. do 2 f_equal. lia.
Qed.

Section Enumeration.
Context {F : Type} `{FloatOps F}.
Variable RegionView3D : Type.
Variable View3D : Type.
Variable rotate_point : Z -> F -> float3 F -> float3 F.
Variable radial_angle : Z -> Z -> F.
Variable PAINT_TILE_X : Z.
Variable sd : Sculpt F.
Variable ob : Object F.

Abbreviation estate := (@DriverState F RegionView3D View3D).

Lemma untiled_keys_app (a b : list (StrokeCache F RegionView3D View3D)) :
  untiled_keys (a ++ b) = untiled_keys a ++ untiled_keys b.
Proof. unfold untiled_keys. rewrite filter_app, map_app. reflexivity. Qed.

Lemma untiled_keys_tiles (tiles : list (StrokeCache F RegionView3D View3D))
    (c0 : StrokeCache F RegionView3D View3D) :
  Forall (fun e => pass_key e = pass_key c0 /\ (0 < tile_pass e)%Z) tiles ->
  untiled_keys tiles = [].
Proof.
  intros Htiles. unfold untiled_keys.
  induction Htiles as [|e tiles [_ He] _ IH]; [reflexivity|].
  cbn [filter]. destruct (tile_pass e =? 0)%Z eqn:E; [apply Z.eqb_eq in E; lia|].
  exact IH.
Qed.

(** [do_tiled] adds one un-tiled invocation, of the combination of the
    cache. *)
Lemma do_tiled_keys (st : estate) :
  let st' := do_tiled PAINT_TILE_X sd ob st in
  untiled_keys (trace st') = untiled_keys (trace st) ++ [pass_key (cache st)] /\
  pass_key (cache st') = pass_key (cache st).
Proof.
  intros st'.
  destruct (do_tiled_trace RegionView3D View3D PAINT_TILE_X sd ob st)
    as [tiles [Htrace [Htiles [Hkey _]]]].
  fold st' in Htrace, Hkey. split; [|exact Hkey].
  rewrite Htrace.
  change (trace st ++ set_tile_pass (cache st) 0 :: tiles)
    with (trace st ++ [set_tile_pass (cache st) 0] ++ tiles).
  rewrite !untiled_keys_app, (untiled_keys_tiles tiles _ Htiles), app_nil_r.
  reflexivity.
Qed.

Lemma do_radial_symmetry_keys (symm axis : Z) (st : estate) :
  truthy axis = true ->
  let st' := do_radial_symmetry rotate_point radial_angle PAINT_TILE_X sd ob symm axis st in
  untiled_keys (trace st')
  = untiled_keys (trace st)
    ++ radial_keys (mirror_symmetry_pass (cache st)) axis
         (int3_get (radial_symm sd) (axis - char_X)) /\
  mirror_symmetry_pass (cache st') = mirror_symmetry_pass (cache st).
Proof.
  intros Haxis. cbv zeta. unfold do_radial_symmetry, radial_keys.
  set (count := int3_get (radial_symm sd) (axis - char_X)).
  set (m := mirror_symmetry_pass (cache st)).
  destruct (Z_lt_le_dec (count - 1) 1) as [Hempty | Hloop].
  { rewrite for_range_empty by exact Hempty. rewrite Zrange_empty by exact Hempty.
    cbn [map]. rewrite app_nil_r. split; reflexivity. }
  match goal with
  | |- untiled_keys (trace ?final) = _ /\ _ =>
      assert (Hend :
        (fun k (x : estate) =>
           untiled_keys (trace x)
           = untiled_keys (trace st) ++ map (fun k => (m, axis, k)) (Zrange 1 (k - 1)) /\
           mirror_symmetry_pass (cache x) = m)
          (count - 1 + 1)%Z final)
  end.
  { apply for_range_ind.
    - lia.
    - rewrite Zrange_empty by lia. cbn [map]. rewrite app_nil_r. split; reflexivity.
    - intros i s Hi [Hkeys Hm].
      match goal with |- context [do_tiled _ _ _ ?s0] => set (st0 := s0) end.
      assert (Hkey0 : pass_key (cache st0) = (m, axis, i)).
      { unfold st0, pass_key. cbn [cache]. unfold SCULPT_cache_calc_brushdata_symm.
        rewrite Haxis. cbn. rewrite Hm. reflexivity. }
      destruct (do_tiled_keys st0) as [Hk Hc].
      assert (Ht0 : trace st0 = trace s) by reflexivity.
      set (st1 := do_tiled PAINT_TILE_X sd ob st0) in *.
      clearbody st1 st0.
      rewrite Hk, Ht0, Hkeys, Hkey0, <- app_assoc.
      replace (i + 1 - 1)%Z with i by lia.
      rewrite (Zrange_last 1 i) by lia. rewrite map_app. cbn [map].
      split; [reflexivity|].
      rewrite Hkey0 in Hc. unfold pass_key in Hc. injection Hc as Hc _ _. exact Hc. }
  cbv beta in Hend. replace (count - 1 + 1 - 1)%Z with (count - 1)%Z in Hend by lia.
  exact Hend.
Qed.

Lemma mirror_iteration_keys (symm i : Z) (st : estate) :
  let st' := mirror_iteration rotate_point radial_angle PAINT_TILE_X sd ob symm i st in
  untiled_keys (trace st')
  = untiled_keys (trace st)
    ++ (if SCULPT_is_symmetry_iteration_valid i symm
        then combination_keys (radial_symm sd) i else []).
Proof.
  cbv zeta. unfold mirror_iteration.
  destruct (SCULPT_is_symmetry_iteration_valid i symm); cbn [negb];
    [|rewrite app_nil_r; reflexivity].
  match goal with |- context [do_tiled _ _ _ ?s0] => set (st0 := s0) end.
  assert (Hkey0 : pass_key (cache st0) = (i, 0, 0)%Z) by reflexivity.
  assert (Ht0 : trace st0 = trace st) by reflexivity.
  destruct (do_tiled_keys st0) as [Hk1 Hc1].
  set (st1 := do_tiled PAINT_TILE_X sd ob st0) in *.
  assert (Hm1 : mirror_symmetry_pass (cache st1) = i).
  { rewrite Hkey0 in Hc1. unfold pass_key in Hc1. injection Hc1 as Hc1 _ _. exact Hc1. }
  destruct (do_radial_symmetry_keys i char_X st1 eq_refl) as [Hk2 Hm2].
  set (st2 := do_radial_symmetry rotate_point radial_angle PAINT_TILE_X sd ob i char_X st1) in *.
  destruct (do_radial_symmetry_keys i char_Y st2 eq_refl) as [Hk3 Hm3].
  set (st3 := do_radial_symmetry rotate_point radial_angle PAINT_TILE_X sd ob i char_Y st2) in *.
  destruct (do_radial_symmetry_keys i char_Z st3 eq_refl) as [Hk4 _].
  set (st4 := do_radial_symmetry rotate_point radial_angle PAINT_TILE_X sd ob i char_Z st3) in *.
  clearbody st4 st3 st2 st1 st0.
  rewrite Hk4, Hk3, Hk2, Hk1, Ht0, Hkey0, Hm3, Hm2, Hm1.
  unfold combination_keys. rewrite <- !app_assoc. reflexivity.
Qed.

Lemma do_symmetrical_brush_actions_keys (c : StrokeCache F RegionView3D View3D) :
  untiled_keys (trace (do_symmetrical_brush_actions rotate_point radial_angle PAINT_TILE_X sd ob
                         (mkDriver c [])))
  = flat_map (combination_keys (radial_symm sd)) (valid_combinations (mesh_symmetry_xyz ob)).
Proof.
  unfold do_symmetrical_brush_actions, valid_combinations.
  set (symm := mesh_symmetry_xyz ob).
  destruct (Z_lt_le_dec symm 0) as [Hneg | Hpos].
  { rewrite for_range_empty by exact Hneg. rewrite Zrange_empty by lia. reflexivity. }
  match goal with
  | |- untiled_keys (trace ?final) = _ =>
      assert (Hend :
        (fun k (x : estate) =>
           untiled_keys (trace x)
           = flat_map (combination_keys (radial_symm sd))
               (filter (fun i => SCULPT_is_symmetry_iteration_valid i symm)
                       (Zrange 0 (k - 1))))
          (symm + 1)%Z final)
  end.
  { apply for_range_ind.
    - lia.
    - rewrite Zrange_empty by lia. reflexivity.
    - intros k x Hk Hx. rewrite mirror_iteration_keys, Hx.
      replace (k + 1 - 1)%Z with k by lia.
      rewrite (Zrange_last 0 k) by lia.
      rewrite filter_app, flat_map_app. f_equal. cbn [filter].
      destruct (SCULPT_is_symmetry_iteration_valid k symm); cbn [flat_map];
        [rewrite app_nil_r|]; reflexivity. }
  cbv beta in Hend. replace (symm + 1 - 1)%Z with symm in Hend by lia. exact Hend.
Qed.
End Enumeration.

(** X24.  The passes of one input step are the full cross product, in
    the order of the loops: the un-tiled invocations of
    [do_symmetrical_brush_actions] are, for every mirror combination of
    [0 .. symm] that [SCULPT_is_symmetry_iteration_valid] accepts, in
    increasing order, the pass without rotation, then the radial passes
    [1 .. count - 1] about 'X', about 'Y' and about 'Z'; each of these
    combinations is invoked un-tiled exactly once, whatever the tiling.  This
    holds for any arithmetic. *)
Theorem passes_are_the_cross_product
    (F : Type) (ops : FloatOps F) (RegionView3D View3D : Type)
    (rotate_point : Z -> F -> float3 F -> float3 F) (radial_angle : Z -> Z -> F) (PAINT_TILE_X : Z)
    (sd : Sculpt F) (ob : Object F) (c : StrokeCache F RegionView3D View3D) :
  untiled_keys (trace (do_symmetrical_brush_actions rotate_point radial_angle PAINT_TILE_X sd ob
                         (mkDriver c [])))
  = flat_map (combination_keys (radial_symm sd)) (valid_combinations (mesh_symmetry_xyz ob)).
Proof.
  apply do_symmetrical_brush_actions_keys.
Qed.

(** The un-tiled passes of [demo_trace]: X mirrored and two radial passes
    about X (88 is the character 'X'). *)
Lemma demo_trace_keys :
  untiled_keys demo_trace = [(0, 0, 0); (0, 88, 1); (1, 0, 0); (1, 88, 1)]%Z.
Proof. vm_compute. reflexivity. Qed.

(** ** The pass enumeration: tile passes *)

Section TilePasses.
Context {F : Type} `{FloatOps F}.
Variable RegionView3D : Type.
Variable View3D : Type.
Variable rotate_point : Z -> F -> float3 F -> float3 F.
Variable radial_angle : Z -> Z -> F.
Variable PAINT_TILE_X : Z.
Variable sd : Sculpt F.
Variable ob : Object F.

Abbreviation tstate := (@DriverState F RegionView3D View3D).
Abbreviation tevent := (StrokeCache F RegionView3D View3D).

Lemma snoc_split (l l1 l2 : list tevent) (x e1 e2 : tevent) :
  l ++ [x] = l1 ++ e1 :: e2 :: l2 ->
  (l2 = [] /\ e2 = x /\ l = l1 ++ [e1]) \/
  (exists l2', l2 = l2' ++ [x] /\ l = l1 ++ e1 :: e2 :: l2').
Proof.
  intros Heq. destruct (exists_last (l := e2 :: l2) ltac:(discriminate)) as [l' [y Hl']].
  rewrite Hl' in Heq.
  change (l1 ++ e1 :: l' ++ [y]) with (l1 ++ (e1 :: l') ++ [y]) in Heq.
  rewrite app_assoc in Heq. apply app_inj_tail in Heq as [Hl Hx]. subst y.
  destruct l' as [|z l'].
  - cbn in Hl'. injection Hl' as -> ->. left. auto.
  - cbn in Hl'. injection Hl' as <- ->. right. exists l'. split; [reflexivity|].
    exact Hl.
Qed.

(** An invocation that is un-tiled, or comes one tile pass after the
    last invocation, keeps the log counting up. *)
Lemma counted_action (s : tstate) (c : tevent) :
  tile_passes_count_up (trace s) ->
  (tile_pass c = 0%Z \/
   (trace s <> [] /\ forall l e, trace s = l ++ [e] -> tile_pass c = (tile_pass e + 1)%Z)) ->
  counted (action (mkDriver c (trace s))).
Proof.
  intros [Hfirst Hchain] Hc. unfold counted, action. cbn [trace cache]. split; [split|].
  - intros e l Heq. destruct (trace s) as [|e0 tr] eqn:Etr.
    + cbn in Heq. injection Heq as <- _.
      destruct Hc as [Hc | [Hne _]]; [exact Hc | contradiction].
    + cbn in Heq. injection Heq as <- _. apply (Hfirst e0 tr). reflexivity.
  - intros l1 e1 e2 l2 Heq. apply snoc_split in Heq as [[-> [-> Htr]] | [l2' [-> Htr]]].
    + destruct Hc as [Hc | [_ Hc]]; [left; exact Hc | right].
      apply (Hc l1 e1). exact Htr.
    + apply (Hchain l1 e1 e2 l2'). exact Htr.
  - intros l e Heq. apply app_inj_tail in Heq as [_ ->]. reflexivity.
Qed.

Lemma do_tile_counted (orgLoc original_initial_location : float3 F) (cur0 cur1 cur2 : Z)
    (s : tstate) :
  counted s -> trace s <> [] ->
  counted (do_tile sd orgLoc original_initial_location cur0 cur1 cur2 s) /\
  trace (do_tile sd orgLoc original_initial_location cur0 cur1 cur2 s) <> [].
Proof.
  intros [Hup Hlast] Hne. unfold do_tile.
  destruct ((cur0 =? 0)%Z && (cur1 =? 0)%Z && (cur2 =? 0)%Z).
  - split; [split; assumption | exact Hne].
  - split.
    + apply counted_action; [exact Hup|]. right. split; [exact Hne|].
      intros l e Heq. cbn. rewrite (Hlast l e Heq). reflexivity.
    + unfold action. cbn [trace]. intros Heq. apply app_eq_nil in Heq as [_ Heq].
      discriminate Heq.
Qed.

Lemma do_tiled_counted (s : tstate) :
  tile_passes_count_up (trace s) -> counted (do_tiled PAINT_TILE_X sd ob s).
Proof.
  intros Hup. unfold do_tiled.
  match goal with
  | |- counted (for_range _ _ _ ?first) =>
      assert (Hfirst : counted first /\ trace first <> [])
  end.
  { split.
    - apply (counted_action s); [exact Hup | left; reflexivity].
    - unfold action. cbn [trace]. intros Heq. apply app_eq_nil in Heq as [_ Heq].
      discriminate Heq. }
  match goal with
  | |- counted (for_range ?a ?b ?body ?first) =>
      apply (for_range_inv (fun x : tstate => counted x /\ trace x <> []) a b body first)
  end; [exact Hfirst|].
  intros cur0 s0 _ H0. apply for_range_inv; [exact H0|].
  intros cur1 s1 _ H1. apply for_range_inv; [exact H1|].
  intros cur2 s2 _ [H2 Hne]. apply do_tile_counted; assumption.
Qed.

Lemma do_radial_symmetry_counted (symm axis : Z) (s : tstate) :
  tile_passes_count_up (trace s) ->
  tile_passes_count_up
    (trace (do_radial_symmetry rotate_point radial_angle PAINT_TILE_X sd ob symm axis s)).
Proof.
  intros Hup. unfold do_radial_symmetry.
  apply (for_range_inv (fun x : tstate => tile_passes_count_up (trace x))); [exact Hup|].
  intros i x _ Hx.
  match goal with |- context [do_tiled _ _ _ ?s0] => set (st0 := s0) end.
  assert (H0 : tile_passes_count_up (trace st0)) by exact Hx.
  clearbody st0. apply do_tiled_counted. exact H0.
Qed.

Lemma mirror_iteration_counted (symm i : Z) (s : tstate) :
  tile_passes_count_up (trace s) ->
  tile_passes_count_up
    (trace (mirror_iteration rotate_point radial_angle PAINT_TILE_X sd ob symm i s)).
Proof.
  intros Hup. unfold mirror_iteration.
  destruct (negb (SCULPT_is_symmetry_iteration_valid i symm)); [exact Hup|].
  match goal with |- context [do_tiled _ _ _ ?s0] => set (st0 := s0) end.
  assert (H0 : tile_passes_count_up (trace st0)) by exact Hup.
  clearbody st0.
  do 3 apply do_radial_symmetry_counted. apply do_tiled_counted. exact H0.
Qed.
End TilePasses.

(** X25.  Tile passes count up within every pass: in the log of the
    brush-action invocations of [do_symmetrical_brush_actions] the first
    invocation is un-tiled, and every later invocation is either un-tiled
    (the start of the next mirror or radial pass) or carries the tile pass
    of the invocation before it plus 1; the tiled repeats of a pass are
    numbered 1, 2, 3, ... without gaps.  This holds for any arithmetic and
    any tiling bounds. *)
Theorem tile_passes_are_consecutive
    (F : Type) (ops : FloatOps F) (RegionView3D View3D : Type)
    (rotate_point : Z -> F -> float3 F -> float3 F) (radial_angle : Z -> Z -> F) (PAINT_TILE_X : Z)
    (sd : Sculpt F) (ob : Object F) (c : StrokeCache F RegionView3D View3D)
    (l1 l2 : list (StrokeCache F RegionView3D View3D))
    (e1 e2 : StrokeCache F RegionView3D View3D) :
  trace (do_symmetrical_brush_actions rotate_point radial_angle PAINT_TILE_X sd ob (mkDriver c []))
  = l1 ++ e1 :: e2 :: l2 ->
  tile_pass e2 = 0%Z \/ tile_pass e2 = (tile_pass e1 + 1)%Z.
Proof.
  intros Heq.
  assert (Hup : tile_passes_count_up
                  (trace (do_symmetrical_brush_actions rotate_point radial_angle PAINT_TILE_X sd
                            ob (mkDriver c [])))).
  { unfold do_symmetrical_brush_actions.
    apply (for_range_inv
             (fun x : @DriverState F RegionView3D View3D =>
                tile_passes_count_up (trace x))).
    - cbn [trace]. split.
      + intros e l Hnil. discriminate Hnil.
      + intros [|x a] e e' b Hnil; discriminate Hnil.
    - intros i x _ Hx. apply mirror_iteration_counted. exact Hx. }
  destruct Hup as [_ Hchain]. apply (Hchain l1 e1 e2 l2). exact Heq.
Qed.

(** In [demo_trace] the third invocation is the second tiled repeat of
    the first pass: its tile pass 2 follows the tile pass 1 of the second
    invocation. *)
Lemma tile_passes_are_consecutive_witness :
  tile_pass (nth 2 demo_trace (hover_cache 0)) = 0%Z \/
  tile_pass (nth 2 demo_trace (hover_cache 0))
  = (tile_pass (nth 1 demo_trace (hover_cache 0)) + 1)%Z.
Proof.
  apply (tile_passes_are_consecutive Q Q_ops unit unit (fun _ _ p => p) demo_angle 16
           (tiled_x_settings (mkint3 2 1 1)) (mirrored_object 1) (hover_cache 0)
           (firstn 1 demo_trace) (skipn 3 demo_trace)
           (nth 1 demo_trace (hover_cache 0)) (nth 2 demo_trace (hover_cache 0))).
  vm_compute. reflexivity.
Defined.

(** ** The pass enumeration: tiling switched off *)

(** X26.  Without tiling there are no tiled repeats: when on every axis
    the tiling bit of the symmetry flags is off or the tile offset is not
    positive, [do_tiled] invokes the brush action exactly once, at the
    un-tiled position with [tile_pass] 0.  This holds for any arithmetic. *)
Theorem do_tiled_without_tiling
    (F : Type) (ops : FloatOps F) (RegionView3D View3D : Type) (PAINT_TILE_X : Z)
    (sd : Sculpt F) (ob : Object F) (st : @DriverState F RegionView3D View3D) :
  (forall dim, (0 <= dim <= 2)%Z ->
     truthy (Z.land (paint_symmetry_flags sd) (Z.shiftl PAINT_TILE_X dim)) = false \/
     fltb fzero (v3_get (paint_tile_offset sd) dim) = false) ->
  do_tiled PAINT_TILE_X sd ob st
  = mkDriver (set_tile_pass (cache st) 0) (trace st ++ [set_tile_pass (cache st) 0]).
Proof.
  intros Hoff. unfold do_tiled.
  assert (Hbounds : forall orgLoc radius dim, (0 <= dim <= 2)%Z ->
            tile_bounds PAINT_TILE_X sd ob orgLoc radius dim = (0, 0)%Z).
  { intros orgLoc radius dim Hdim. unfold tile_bounds.
    destruct (Hoff dim Hdim) as [-> | ->]; [reflexivity|].
    rewrite andb_false_r. reflexivity. }
  rewrite !Hbounds by lia. cbn [fst snd].
  unfold for_range. cbn [Z.sub Z.add Z.to_nat Z.opp Z.pos_sub Pos.to_nat Pos.iter_op
                         Nat.add seq fold_left Z.of_nat].
  unfold do_tile. cbn [Z.eqb andb]. reflexivity.
Qed.

(** Settings without tiling bits. *)
Lemma do_tiled_without_tiling_witness :
  do_tiled 16 (unlocked (F := Q)) (mirrored_object 1) (mkDriver (hover_cache 0) [])
  = mkDriver (set_tile_pass (hover_cache 0) 0) ([] ++ [set_tile_pass (hover_cache 0) 0]).
Proof.
  apply (do_tiled_without_tiling Q Q_ops unit unit 16 unlocked (mirrored_object 1)
           (mkDriver (hover_cache 0) [])).
  intros dim _. left. reflexivity.
Defined.

(** ** Mesh filters: the orientation of the axis constraints *)

Lemma v3_eq_refl (a : float3 Q) : v3_eq a a.
Proof. unfold v3_eq. repeat split; apply Qeq_refl. Qed.

Lemma v3_eq_trans (a b c : float3 Q) : v3_eq a b -> v3_eq b c -> v3_eq a c.
Proof.
  unfold v3_eq. intros [H1 [H2 H3]] [H4 [H5 H6]].
  repeat split; eapply Qeq_trans; eassumption.
Qed.

Lemma transform_point_3x3_eq (m : float4x4 Q) (a b : float3 Q) :
  v3_eq a b -> v3_eq (transform_point_3x3 m a) (transform_point_3x3 m b).
Proof.
  unfold v3_eq, transform_point_3x3. cbn [vx vy vz]. q_ops. intros [Hx [Hy Hz]].
  rewrite Hx, Hy, Hz. repeat split; reflexivity.
Qed.

Lemma zero_disabled_eq (enabled : list bool) (a b : float3 Q) :
  v3_eq a b -> v3_eq (zero_disabled enabled a) (zero_disabled enabled b).
Proof.
  unfold v3_eq, zero_disabled. cbn [vx vy vz]. intros [Hx [Hy Hz]].
  destruct (at_index false enabled 0), (at_index false enabled 1),
    (at_index false enabled 2); repeat split; first [assumption | apply Qeq_refl].
Qed.

Lemma zero_disabled_twice (enabled : list bool) (v : float3 Q) :
  zero_disabled enabled (zero_disabled enabled v) = zero_disabled enabled v.
Proof.
  unfold zero_disabled. cbn [vx vy vz].
  destruct (at_index false enabled 0), (at_index false enabled 1),
    (at_index false enabled 2); reflexivity.
Qed.

Lemma zero_disabled_axis_components_unfold (filter_cache : FilterCache Q) (v : float3 Q) :
  zero_disabled_axis_components filter_cache v
  = to_object_space filter_cache
      (zero_disabled (enabled_force_axis filter_cache)
         (to_orientation_space filter_cache v)).
Proof.
  unfold zero_disabled_axis_components. unroll_range. f_equal.
  generalize (to_orientation_space filter_cache v) as w. intros [a b c].
  unfold zero_disabled. cbn [vx vy vz].
  destruct (at_index false (enabled_force_axis filter_cache) 0),
    (at_index false (enabled_force_axis filter_cache) 1),
    (at_index false (enabled_force_axis filter_cache) 2); reflexivity.
Qed.

Lemma to_object_space_eq (filter_cache : FilterCache Q) (a b : float3 Q) :
  v3_eq a b -> v3_eq (to_object_space filter_cache a) (to_object_space filter_cache b).
Proof.
  intros Hab. unfold to_object_space.
  destruct (orientation filter_cache); [exact Hab | |];
    repeat apply transform_point_3x3_eq; exact Hab.
Qed.

Section OrientationInverse.
Variable filter_cache : FilterCache Q.
Hypothesis obmat_inverse : inverse_3x3 (obmat filter_cache) (obmat_inv filter_cache).
Hypothesis viewmat_inverse : inverse_3x3 (viewmat filter_cache) (viewmat_inv filter_cache).

Lemma to_orientation_of_object (v : float3 Q) :
  v3_eq (to_orientation_space filter_cache (to_object_space filter_cache v)) v.
Proof.
  unfold to_orientation_space, to_object_space.
  destruct (orientation filter_cache).
  - apply v3_eq_refl.
  - apply (proj1 (obmat_inverse _)).
  - eapply v3_eq_trans; [|apply (proj1 (viewmat_inverse v))].
    apply transform_point_3x3_eq. apply (proj1 (obmat_inverse _)).
Qed.

Lemma to_object_of_orientation (v : float3 Q) :
  v3_eq (to_object_space filter_cache (to_orientation_space filter_cache v)) v.
Proof.
  unfold to_orientation_space, to_object_space.
  destruct (orientation filter_cache).
  - apply v3_eq_refl.
  - apply (proj2 (obmat_inverse _)).
  - eapply v3_eq_trans; [|apply (proj2 (obmat_inverse v))].
    apply transform_point_3x3_eq. apply (proj2 (viewmat_inverse _)).
Qed.
End OrientationInverse.

(** X27.  The axis constraint of the mesh filters is a projection: when
    the object matrix and the view matrix of the filter cache come with
    their inverses, applying [zero_disabled_axis_components] twice gives
    what applying it once gives, and with all three axes enabled it gives
    the vector back, in every orientation (local, world, view).  Exact
    arithmetic, components compared as rationals. *)
Theorem zero_disabled_axis_components_projects (filter_cache : FilterCache Q)
    (vector : float3 Q) :
  inverse_3x3 (obmat filter_cache) (obmat_inv filter_cache) ->
  inverse_3x3 (viewmat filter_cache) (viewmat_inv filter_cache) ->
  v3_eq (zero_disabled_axis_components filter_cache
           (zero_disabled_axis_components filter_cache vector))
        (zero_disabled_axis_components filter_cache vector) /\
  (enabled_force_axis filter_cache = [true; true; true] ->
   v3_eq (zero_disabled_axis_components filter_cache vector) vector).
Proof.
  intros Hob Hview. rewrite !zero_disabled_axis_components_unfold. split.
  - apply to_object_space_eq.
    rewrite <- (zero_disabled_twice (enabled_force_axis filter_cache)
                  (to_orientation_space filter_cache vector)) at 2.
    apply zero_disabled_eq.
    apply (to_orientation_of_object filter_cache Hob Hview).
  - intros Hall. rewrite Hall.
    eapply v3_eq_trans; [|apply (to_object_of_orientation filter_cache Hob Hview)].
    apply to_object_space_eq. unfold zero_disabled, v3_eq.
    change (at_index false [true; true; true] 0) with true.
    change (at_index false [true; true; true] 1) with true.
    change (at_index false [true; true; true] 2) with true.
    cbn [vx vy vz]. repeat split; apply Qeq_refl.
Qed.

Lemma quarter_turn_inverse_3x3 : inverse_3x3 quarter_turn (invert_adjugate quarter_turn).
Proof.
  intros [x y z]. unfold v3_eq.
  assert (Hinv : invert_adjugate quarter_turn
                 = mkmat (mk4 0 (-1) 0 0) (mk4 1 0 0 0) (mk4 0 0 1 0) (mk4 0 0 0 1)%Q).
  { vm_compute. reflexivity. }
  rewrite Hinv. unfold transform_point_3x3, quarter_turn.
  cbn [vx vy vz qx qy qz col0 col1 col2]. q_ops.
  repeat split; ring.
Qed.

(** The view-oriented cache of the examples: the vector (1,2,3) with Y
    disabled. *)
Lemma zero_disabled_axis_components_projects_witness :
  v3_eq (zero_disabled_axis_components quarter_turn_filter_cache
           (zero_disabled_axis_components quarter_turn_filter_cache (q3 1 2 3)))
        (zero_disabled_axis_components quarter_turn_filter_cache (q3 1 2 3)) /\
  (enabled_force_axis quarter_turn_filter_cache = [true; true; true] ->
   v3_eq (zero_disabled_axis_components quarter_turn_filter_cache (q3 1 2 3)) (q3 1 2 3)).
Proof.
  exact (zero_disabled_axis_components_projects quarter_turn_filter_cache (q3 1 2 3)
           quarter_turn_inverse_3x3 quarter_turn_inverse_3x3).
Defined.

(** ** Fake neighbours *)

Section FakeNeighborProps.
Context {F : Type} `{FloatOps F}.
Variable FLT_MAX : F.
Variable Tree : Type.
Variable search_gather : Tree -> (Node F -> bool) -> list (Node F).
Variable node_unique_verts : Node F -> list Z.
Variable vert_id_get : Z -> Z.
Variable schedule : list (Node F) -> reduction_plan (Node F).
Variable pbvh : Tree.
Variable positions : list (float3 F).
Variable totvert : Z.

Hypothesis verts_in_range :
  forall node v, In v (node_unique_verts node) -> (0 <= v < totvert)%Z.

(** What the search keeps of a candidate: it is the marker, or a vertex
    without fake neighbour in another island. *)
Abbreviation candidate_ok index topology_id :=
  (fun nvtd : NearestVertexFakeNeighborData =>
     current_topology_id nvtd = topology_id /\
     (nearest_vertex nvtd = (-1)%Z \/
      ((0 <= nearest_vertex nvtd < totvert)%Z /\
       at_index 0%Z index (nearest_vertex nvtd) = (-1)%Z /\
       vert_id_get (nearest_vertex nvtd) <> topology_id))).

Lemma do_fake_neighbor_search_task_ok (index : list Z) (co : float3 F)
    (max_distance_sq : F) (node : Node F) (topology_id : Z)
    (nvtd : NearestVertexFakeNeighborData) :
  candidate_ok index topology_id nvtd ->
  candidate_ok index topology_id
    (do_fake_neighbor_search_task (-1) node_unique_verts vert_id_get index positions co
       max_distance_sq node nvtd).
Proof.
  unfold do_fake_neighbor_search_task.
  pose proof (verts_in_range node) as Hrange.
  revert nvtd Hrange. generalize (node_unique_verts node) as l.
  induction l as [|v l IH]; intros nvtd Hrange Hok; cbn [fold_left]; [exact Hok|].
  apply IH; [intros w Hw; apply Hrange; right; exact Hw|].
  destruct Hok as [Hid Hcand].
  destruct (negb (vert_id_get v =? current_topology_id nvtd)%Z
            && (at_index 0 index v =? -1)%Z) eqn:Etest; [|split; assumption].
  destruct (fltb _ (nearest_vertex_distance_sq nvtd) && fltb _ max_distance_sq);
    [|split; assumption].
  apply andb_true_iff in Etest as [Eid Efree].
  apply negb_true_iff, Z.eqb_neq in Eid. apply Z.eqb_eq in Efree.
  cbn [current_topology_id nearest_vertex]. split; [exact Hid|]. right.
  split; [apply Hrange; left; reflexivity|]. split; [exact Efree|].
  rewrite <- Hid. exact Eid.
Qed.

Lemma fake_neighbor_join_ok (index : list Z) (topology_id : Z)
    (a b : NearestVertexFakeNeighborData) :
  candidate_ok index topology_id a -> candidate_ok index topology_id b ->
  candidate_ok index topology_id (fake_neighbor_join (-1) a b).
Proof.
  intros [Ha Hca] [Hb Hcb]. unfold fake_neighbor_join.
  destruct (nearest_vertex a =? -1)%Z.
  - cbn [current_topology_id nearest_vertex]. split; assumption.
  - destruct (fltb (nearest_vertex_distance_sq b) (nearest_vertex_distance_sq a)).
    + cbn [current_topology_id nearest_vertex]. split; assumption.
    + split; assumption.
Qed.

Lemma fake_neighbor_search_ok (index : list Z) (vertex : Z) (max_distance : F) :
  let to_v :=
    fake_neighbor_search FLT_MAX (-1) (-1) search_gather node_unique_verts vert_id_get
      schedule pbvh positions index vertex max_distance in
  to_v = (-1)%Z \/
  ((0 <= to_v < totvert)%Z /\ at_index 0%Z index to_v = (-1)%Z /\
   vert_id_get to_v <> vert_id_get vertex).
Proof.
  cbv zeta. unfold fake_neighbor_search.
  destruct (size _ =? 0)%Z; [left; reflexivity|].
  match goal with
  | |- context [parallel_reduce ?plan ?identity ?func ?join] =>
      assert (Hok : candidate_ok index (vert_id_get vertex)
                      (parallel_reduce plan identity func join))
  end.
  { generalize (schedule
                  (search_gather pbvh
                     (fun node =>
                        node_in_sphere node (at_index v3_zero positions vertex)
                          (fmul max_distance max_distance) false))) as plan.
    induction plan as [chunk | lhs IHl rhs IHr]; cbn [parallel_reduce].
    - assert (Hinit : candidate_ok index (vert_id_get vertex)
                        (mkFakeNearest (-1) FLT_MAX (vert_id_get vertex))).
      { split; [reflexivity | left; reflexivity]. }
      revert Hinit. generalize (mkFakeNearest (-1) FLT_MAX (vert_id_get vertex)) as nvtd.
      induction chunk as [|node chunk IH]; intros nvtd Hn; cbn [fold_left]; [exact Hn|].
      apply IH. apply do_fake_neighbor_search_task_ok. exact Hn.
    - apply fake_neighbor_join_ok; assumption. }
  destruct Hok as [_ Hcand]. exact Hcand.
Qed.

Lemma fake_neighbor_add_paired (index : list Z) (a b : Z) :
  fake_neighbors_paired vert_id_get totvert index ->
  (0 <= a < totvert)%Z -> (0 <= b < totvert)%Z ->
  at_index 0%Z index a = (-1)%Z -> at_index 0%Z index b = (-1)%Z ->
  vert_id_get b <> vert_id_get a ->
  fake_neighbors_paired vert_id_get totvert (fake_neighbor_add (-1) index a b).
Proof.
  intros [Hsize Hpairs] Ha Hb Hfa Hfb Hid. unfold fake_neighbor_add.
  rewrite Hfa. cbn [Z.eqb Pos.eqb].
  assert (Hab : a <> b) by (intros ->; apply Hid; reflexivity).
  assert (Hsa : (0 <= a < size index)%Z) by lia.
  assert (Hsb : (0 <= b < size (set_index index a b))%Z)
    by (rewrite set_index_size; lia).
  assert (Hnew_a : at_index 0%Z (set_index (set_index index a b) b a) a = b).
  { rewrite at_index_set_index_other by congruence.
    apply at_index_set_index_same. exact Hsa. }
  assert (Hnew_b : at_index 0%Z (set_index (set_index index a b) b a) b = a).
  { apply at_index_set_index_same. exact Hsb. }
  assert (Hnew_x : forall x, x <> a -> x <> b ->
            at_index 0%Z (set_index (set_index index a b) b a) x = at_index 0%Z index x).
  { intros x Hxa Hxb. rewrite !at_index_set_index_other by congruence. reflexivity. }
  split; [rewrite !set_index_size; exact Hsize|].
  intros x Hx. cbv zeta.
  destruct (Z.eq_dec x a) as [-> | Hxa].
  { rewrite Hnew_a. intros _. split; [exact Hb|]. split; [exact Hnew_b | exact Hid]. }
  destruct (Z.eq_dec x b) as [-> | Hxb].
  { rewrite Hnew_b. intros _. split; [exact Ha|]. split; [exact Hnew_a | congruence]. }
  rewrite (Hnew_x x Hxa Hxb). intros Hy.
  destruct (Hpairs x Hx Hy) as [Hyr [Hback Hyid]].
  split; [exact Hyr|]. split; [|exact Hyid].
  rewrite Hnew_x; [exact Hback | |].
  - intros Heq. rewrite Heq, Hfa in Hback. lia.
  - intros Heq. rewrite Heq, Hfb in Hback. lia.
Qed.
End FakeNeighborProps.

Lemma at_index_repeat {A : Type} (d x : A) (n : nat) (i : Z) :
  (0 <= i < Z.of_nat n)%Z -> at_index d (repeat x n) i = x.
Proof.
  intros Hi. unfold at_index.
  destruct (i <? 0)%Z eqn:E; [apply Z.ltb_lt in E; lia|].
  apply nth_repeat_lt. lia.
Qed.

(** X28.  Fake neighbours come in pairs.  After the first call of
    [SCULPT_fake_neighbors_ensure] the array has one entry per vertex, and
    whenever the entry of a vertex [a] is a vertex [b] rather than the
    marker -1, [b] is a vertex of the mesh, the entry of [b] is [a], and [a]
    and [b] lie in different islands; so no vertex is the fake neighbour of
    two vertices.  The markers [PBVH_REF_NONE] and [FAKE_NEIGHBOR_NONE] are
    -1 and the nodes hold vertices of the mesh.  This holds for any
    arithmetic and any schedule of the parallel search. *)
Theorem fake_neighbors_come_in_pairs
    (F : Type) (ops : FloatOps F) (FLT_MAX : F) (Tree : Type)
    (search_gather : Tree -> (Node F -> bool) -> list (Node F))
    (node_unique_verts : Node F -> list Z) (vert_id_get : Z -> Z)
    (schedule : list (Node F) -> reduction_plan (Node F)) (pbvh : Tree)
    (positions : list (float3 F)) (totvert : Z) (old_distance max_dist : F) :
  (0 <= totvert)%Z ->
  (forall node v, In v (node_unique_verts node) -> (0 <= v < totvert)%Z) ->
  exists index,
    SCULPT_fake_neighbors_ensure FLT_MAX (-1) (-1) search_gather node_unique_verts
      vert_id_get schedule pbvh positions totvert (mkFakeNeighbors None old_distance)
      max_dist
    = mkFakeNeighbors (Some index) max_dist /\
    fake_neighbors_paired vert_id_get totvert index.
Proof.
  intros Htot Hrange. unfold SCULPT_fake_neighbors_ensure.
  cbn [fake_neighbor_index andb]. eexists. split; [reflexivity|].
  apply for_range_inv.
  - split; [unfold size; rewrite repeat_length; lia|].
    intros a Ha. cbv zeta. rewrite at_index_repeat by lia. intros Hb. contradiction.
  - intros i index Hi Hpaired.
    destruct (at_index 0 index i =? -1)%Z eqn:Efree; [|exact Hpaired].
    apply Z.eqb_eq in Efree.
    pose proof (fake_neighbor_search_ok FLT_MAX Tree search_gather node_unique_verts
                  vert_id_get schedule pbvh positions totvert Hrange index i max_dist)
      as Hsearch. cbv zeta in Hsearch.
    set (to_v := fake_neighbor_search _ _ _ _ _ _ _ _ _ _ _ _) in *.
    destruct (to_v =? -1)%Z eqn:Enone; cbn [negb]; [exact Hpaired|].
    apply Z.eqb_neq in Enone.
    destruct Hsearch as [Hnone | [Hto [Hfree Hid]]]; [contradiction|].
    apply fake_neighbor_add_paired; try assumption. lia.
Qed.

(** A mesh of two vertices, each an island of its own, in one node. *)
Lemma fake_neighbors_come_in_pairs_witness :
  exists index,
    SCULPT_fake_neighbors_ensure 1000%Q (-1) (-1)
      (fun (_ : unit) accept => filter accept [point_node (q3 0 0 0)])
      (fun _ => [0; 1]%Z) (fun v => v) (fun nodes => Run nodes) tt
      [q3 0 0 0; q3 1 0 0] 2 (mkFakeNeighbors None 0%Q) 10%Q
    = mkFakeNeighbors (Some index) 10%Q /\
    fake_neighbors_paired (fun v => v) 2 index.
Proof.
  apply (fake_neighbors_come_in_pairs Q Q_ops 1000%Q unit
           (fun _ accept => filter accept [point_node (q3 0 0 0)])
           (fun _ => [0; 1]%Z) (fun v => v) (fun nodes => Run nodes) tt
           [q3 0 0 0; q3 1 0 0] 2 0%Q 10%Q).
  - lia.
  - intros node v Hv. cbn in Hv. lia.
Defined.

(** In that mesh the two vertices become each other's fake neighbour. *)
Lemma fake_neighbors_of_two_islands :
  SCULPT_fake_neighbors_ensure 1000%Q (-1) (-1)
    (fun (_ : unit) accept => filter accept [point_node (q3 0 0 0)])
    (fun _ => [0; 1]%Z) (fun v => v) (fun nodes => Run nodes) tt
    [q3 0 0 0; q3 1 0 0] 2 (mkFakeNeighbors None 0%Q) 10%Q
  = mkFakeNeighbors (Some [1; 0]%Z) 10%Q.
Proof. vm_compute. reflexivity. Qed.

(** ** Distances to a cube brush *)

Section CubeDistanceProps.
Context {F : Type} `{FloatOps F}.
Variable RegionView3D : Type.
Variable ED_view3d_clipping_test : RegionView3D -> float3 F -> bool.
Variable rotate_point : Z -> F -> float3 F -> float3 F.
Variable sqrtf : F -> F.
Variable FLT_MAX : F.
Variable mat : float4x4 F.
Variable tip_roundness : F.
Variable positions : list (float3 F).

Abbreviation cube_step :=
  (cube_distance_step ED_view3d_clipping_test rotate_point sqrtf FLT_MAX mat tip_roundness
     positions).

Lemma cube_distance_loop_failed (l : list (Z * F)) :
  fold_left cube_step l DivisionByZero = DivisionByZero.
Proof. induction l as [|p l IH]; [reflexivity | exact IH]. Qed.

(** What the loop appends for the vertices [l]. *)
Lemma cube_distance_loop (l : list (Z * F)) (test test' : SculptBrushTest RegionView3D)
    (ds0 fs0 ds fs : list F) :
  fold_left cube_step l (Done (test, ds0, fs0)) = Done (test', ds, fs) ->
  exists ds1 fs1,
    ds = ds0 ++ ds1 /\ fs = fs0 ++ fs1 /\
    length ds1 = length l /\ length fs1 = length l /\
    forall k, (k < length l)%nat ->
      let factor := snd (nth k l (0%Z, fzero)) in
      (nth k fs1 fzero = factor \/ nth k fs1 fzero = fzero) /\
      (feqb factor fzero = true ->
       nth k ds1 fzero = FLT_MAX /\ nth k fs1 fzero = factor).
Proof.
  revert test ds0 fs0.
  induction l as [|[vert factor] l IH]; intros test ds0 fs0 Hrun.
  - cbn in Hrun. injection Hrun as _ <- <-. exists [], [].
    rewrite !app_nil_r.
    split; [reflexivity|]. split; [reflexivity|]. split; [reflexivity|].
    split; [reflexivity|]. intros k Hk. cbn in Hk. lia.
  - cbn [fold_left] in Hrun. unfold cube_distance_step at 2 in Hrun.
    cbn [fst snd] in Hrun.
    destruct (feqb factor fzero) eqn:Ezero.
    + destruct (IH _ _ _ Hrun) as [ds1 [fs1 [-> [-> [Hd [Hf Hk]]]]]].
      exists (FLT_MAX :: ds1), (factor :: fs1). rewrite <- !app_assoc.
      split; [reflexivity|]. split; [reflexivity|].
      split; [cbn; congruence|]. split; [cbn; congruence|].
      intros [|k] Hlt; cbn [nth snd length] in *.
      * split; [left; reflexivity | intros _; split; reflexivity].
      * apply Hk. lia.
    + destruct (SCULPT_brush_test_cube ED_view3d_clipping_test rotate_point sqrtf test
                  (at_index v3_zero positions vert) mat tip_roundness)
        as [[inside test1]|] eqn:Etest.
      2:{ rewrite cube_distance_loop_failed in Hrun. discriminate Hrun. }
      destruct (IH _ _ _ Hrun) as [ds1 [fs1 [-> [-> [Hd [Hf Hk]]]]]].
      exists (test_dist test1 :: ds1), ((if inside then factor else fzero) :: fs1).
      rewrite <- !app_assoc.
      split; [reflexivity|]. split; [reflexivity|].
      split; [cbn; congruence|]. split; [cbn; congruence|].
      intros [|k] Hlt; cbn [nth snd length] in *.
      * split; [destruct inside; [left | right]; reflexivity|].
        intros Hz. rewrite Hz in Ezero. discriminate Ezero.
      * apply Hk. lia.
Qed.
End CubeDistanceProps.

(** X29.  [calc_brush_cube_distances] never raises a factor: when it
    completes, it has written one distance and one factor per vertex, every
    factor is the one before the call or 0, and a vertex whose factor was 0
    keeps it and gets the distance [FLT_MAX].  This holds for any
    arithmetic, viewport and brush matrix. *)
Theorem cube_distances_never_raise_factors
    (F : Type) (ops : FloatOps F) (RegionView3D View3D : Type)
    (ED_view3d_clipping_test : RegionView3D -> float3 F -> bool)
    (RV3D_CLIPPING_ENABLED : View3D -> RegionView3D -> bool)
    (rotate_point : Z -> F -> float3 F -> float3 F) (sqrtf : F -> F) (FLT_MAX : F)
    (ss : SculptSession F RegionView3D View3D) (tip_roundness : F) (mat : float4x4 F)
    (positions : list (float3 F)) (verts : list Z) (factors r_distances factors' : list F)
    (k : nat) :
  length verts = length factors ->
  calc_brush_cube_distances ED_view3d_clipping_test RV3D_CLIPPING_ENABLED rotate_point
    sqrtf FLT_MAX ss tip_roundness mat positions verts factors
  = Done (r_distances, factors') ->
  (k < length factors)%nat ->
  length r_distances = length factors /\ length factors' = length factors /\
  (nth k factors' fzero = nth k factors fzero \/ nth k factors' fzero = fzero) /\
  (feqb (nth k factors fzero) fzero = true ->
   nth k r_distances fzero = FLT_MAX /\ nth k factors' fzero = nth k factors fzero).
Proof.
  intros Hlen Hrun Hk. unfold calc_brush_cube_distances in Hrun.
  destruct (fold_left _ (combine verts factors) _) as [[[test' ds] fs]|] eqn:Efold;
    [|discriminate Hrun].
  injection Hrun as -> ->.
  apply cube_distance_loop in Efold as [ds1 [fs1 [-> [-> [Hd [Hf Hprop]]]]]].
  cbn [app]. rewrite length_combine, Hlen, Nat.min_id in Hd, Hf, Hprop.
  split; [exact Hd|]. split; [exact Hf|].
  specialize (Hprop k Hk). cbv zeta in Hprop.
  assert (Hsnd : snd (nth k (combine verts factors) (0%Z, fzero)) = nth k factors fzero).
  { rewrite combine_nth by exact Hlen. reflexivity. }
  rewrite Hsnd in Hprop. exact Hprop.
Qed.

(** A cube brush at the origin without roundness and three vertices: one
    inside, one outside and one whose factor is already 0.  The vertex
    outside loses its factor; its distance is the distance left in the test
    by the vertex before it. *)
Lemma cube_distances_never_raise_factors_witness :
  length [0; 0; 1000]%Q = length [1; 1; 0]%Q /\
  length [1; 0; 0]%Q = length [1; 1; 0]%Q /\
  (nth 2 [1; 0; 0]%Q 0%Q = nth 2 [1; 1; 0]%Q 0%Q \/ nth 2 [1; 0; 0]%Q 0%Q = 0%Q) /\
  (Qeq_bool (nth 2 [1; 1; 0]%Q 0%Q) 0 = true ->
   nth 2 [0; 0; 1000]%Q 0%Q = 1000%Q /\ nth 2 [1; 0; 0]%Q 0%Q = nth 2 [1; 1; 0]%Q 0%Q).
Proof.
  exact (cube_distances_never_raise_factors Q Q_ops unit unit (fun _ _ => false)
           (fun _ _ => false) (fun _ _ p => p) floor_sqrt 1000%Q
           (mkSession None tt tt (q3 0 0 0) 1%Q) 0%Q identity4x4
           [q3 (1 # 2) 0 0; q3 5 0 0; q3 0 0 0] [0; 1; 2]%Z [1; 1; 0]%Q
           [0; 0; 1000]%Q [1; 0; 0]%Q 2%nat eq_refl eq_refl ltac:(cbn; lia)).
Defined.

(** ** The hardness remap keeps distances inside the brush *)

Lemma hardness_remap_bounds (r h d y : Q) :
  (0 < r)%Q -> (0 <= h)%Q -> (h < 1)%Q -> (h * r <= d)%Q -> (d <= r)%Q ->
  (y == (d - h * r) / (1 - h))%Q ->
  (0 <= y)%Q /\ (y <= d)%Q.
Proof.
  intros Hr Hh0 Hh1 Hlow Hhigh Hy. rewrite Hy.
  assert (Hprod : (0 <= h * (r - d))%Q) by (apply Qmult_le_0_compat; lra).
  assert (Hring : (h * (r - d) == h * r - d * h)%Q) by ring.
  rewrite Hring in Hprod.
  split.
  - apply Qle_shift_div_l; lra.
  - apply Qle_shift_div_r; [lra|].
    assert (Hexp : (d * (1 - h) == d - d * h)%Q) by ring.
    rewrite Hexp. lra.
Qed.

(** X30.  The hardness remap never pushes a vertex outward: for a
    positive radius, a hardness in [0,1] and a distance in [0, radius], the
    distance that [apply_hardness_to_distances] writes and the value that
    [sculpt_apply_hardness] returns both lie between 0 and the distance
    before the remap, so that a vertex inside the brush radius stays inside.
    Exact arithmetic. *)
Theorem hardness_never_pushes_outward (radius hardness : Q) (distances : list Q)
    (k : nat) :
  (0 < radius)%Q -> (0 <= hardness)%Q -> (hardness <= 1)%Q ->
  (k < length distances)%nat ->
  (0 <= nth k distances 0)%Q -> (nth k distances 0 <= radius)%Q ->
  let d := nth k distances 0%Q in
  let remapped := nth k (apply_hardness_to_distances radius hardness distances) 0%Q in
  let scalar := sculpt_apply_hardness radius hardness d in
  length (apply_hardness_to_distances radius hardness distances) = length distances /\
  (0 <= remapped)%Q /\ (remapped <= d)%Q /\ (0 <= scalar)%Q /\ (scalar <= d)%Q.
Proof.
  intros Hr Hh0 Hh1 Hk Hd0 Hdr. cbv zeta.
  set (d := nth k distances 0%Q) in *.
  assert (Hnth : forall f : Q -> Q, nth k (map f distances) 0%Q = f d).
  { intros f. rewrite (nth_indep _ 0%Q (f 0%Q)) by (rewrite length_map; exact Hk).
    apply map_nth. }
  split; [|split; [|split]].
  - unfold apply_hardness_to_distances.
    destruct (feqb hardness fzero); [reflexivity|].
    destruct (feqb hardness fone); apply length_map.
  - unfold apply_hardness_to_distances. q_ops.
    destruct (Qeq_bool hardness 0) eqn:E0; [exact Hd0|].
    destruct (Qeq_bool hardness 1) eqn:E1; [rewrite Hnth; apply Qle_refl|].
    apply Qeq_bool_false in E1. rewrite Hnth. unfold rcp. q_ops.
    destruct (Qltb d (hardness * radius)) eqn:Ecmp; [apply Qle_refl|].
    apply Qltb_ge in Ecmp.
    apply (hardness_remap_bounds radius hardness d); try assumption; [lra|].
    field. split; lra.
  - unfold apply_hardness_to_distances. q_ops.
    destruct (Qeq_bool hardness 0) eqn:E0; [apply Qle_refl|].
    destruct (Qeq_bool hardness 1) eqn:E1; [rewrite Hnth; exact Hd0|].
    apply Qeq_bool_false in E1. rewrite Hnth. unfold rcp. q_ops.
    destruct (Qltb d (hardness * radius)) eqn:Ecmp; [exact Hd0|].
    apply Qltb_ge in Ecmp.
    apply (hardness_remap_bounds radius hardness d); try assumption; [lra|].
    field. split; lra.
  - assert (Hscalar : (0 <= sculpt_apply_hardness radius hardness d)%Q /\
                      (sculpt_apply_hardness radius hardness d <= d)%Q).
    { unfold sculpt_apply_hardness. q_ops.
      destruct (Qltb (d / radius) hardness) eqn:Ecmp; [split; [apply Qle_refl | exact Hd0]|].
      apply Qltb_ge in Ecmp.
      assert (Hlow : (hardness * radius <= d)%Q).
      { assert (E : (d == d / radius * radius)%Q) by (field; lra).
        rewrite E. apply Qmult_le_compat_r; [exact Ecmp | lra]. }
      destruct (Qeq_bool hardness 1) eqn:E1.
      - apply Qeq_bool_iff in E1. rewrite E1 in Hlow. split; lra.
      - apply Qeq_bool_false in E1.
        apply (hardness_remap_bounds radius hardness d); try assumption; [lra|].
        field. split; lra. }
    exact Hscalar.
Qed.

(** Radius 2, hardness 1/2: the distance 3/2 becomes 1. *)
Lemma hardness_never_pushes_outward_witness :
  let d := nth 0 [3 # 2] 0%Q in
  let remapped := nth 0 (apply_hardness_to_distances 2 (1 # 2) [3 # 2]) 0%Q in
  let scalar := sculpt_apply_hardness 2 (1 # 2) d in
  length (apply_hardness_to_distances 2 (1 # 2) [3 # 2]) = length [3 # 2] /\
  (0 <= remapped)%Q /\ (remapped <= d)%Q /\ (0 <= scalar)%Q /\ (scalar <= d)%Q.
Proof.
  apply (hardness_never_pushes_outward 2 (1 # 2) [3 # 2] 0%nat).
  - reflexivity.
  - vm_compute. discriminate.
  - vm_compute. discriminate.
  - cbn. lia.
  - vm_compute. discriminate.
  - vm_compute. discriminate.
Defined.

(** ** Boundary vertices of the base mesh *)

(** X19.  [ensure_boundary_info] marks exactly the end points of the
    edges with fewer than two face corners: when no boundary information
    exists yet, the bit vector it builds has one bit per vertex, and the bit
    of a vertex is set exactly when the vertex is an end point of an edge
    that [count_indices] counts less than twice among the corner edges.
    Boundary information that exists already is left as it is. *)
Theorem boundary_info_marks_open_edges
    (count_indices : list Z -> list Z -> list Z) (boundary : list bool) (verts_num : Z)
    (edges : list (Z * Z)) (corner_edges : list Z) (v : Z) :
  (0 <= verts_num)%Z ->
  (forall edge, In edge edges ->
                (0 <= fst edge < verts_num)%Z /\ (0 <= snd edge < verts_num)%Z) ->
  (0 <= v < verts_num)%Z ->
  let result := ensure_boundary_info count_indices boundary verts_num edges corner_edges in
  (boundary <> [] -> result = boundary) /\
  (boundary = [] ->
   size result = verts_num /\
   (at_index false result v = true <->
    exists e, (0 <= e < size edges)%Z /\
              (at_index 0 (count_indices corner_edges (repeat 0 (length edges))) e < 2)%Z /\
              (fst (at_index (0, 0) edges e) = v \/ snd (at_index (0, 0) edges e) = v)%Z)).
Proof.
  intros Hverts Hedges Hv. cbv zeta. unfold ensure_boundary_info. split.
  - intros Hne. destruct boundary; [contradiction | reflexivity].
  - intros ->. change (size (@nil bool) =? 0)%Z with true. cbn [negb].
    set (count := count_indices corner_edges (repeat 0%Z (length edges))).
    destruct (Z_lt_le_dec (size edges - 1) 0) as [Hempty | Hloop].
    { rewrite for_range_empty by exact Hempty.
      split; [unfold size; rewrite repeat_length; lia|].
      rewrite at_index_repeat by lia. split; [discriminate|].
      intros [e [He _]]. lia. }
    match goal with
    | |- size ?final = _ /\ _ =>
        assert (Hend :
          (fun k (b : list bool) =>
             size b = verts_num /\
             forall w, (0 <= w < verts_num)%Z ->
               (at_index false b w = true <->
                exists e, (0 <= e < k)%Z /\ (at_index 0 count e < 2)%Z /\
                          (fst (at_index (0, 0)%Z edges e) = w \/
                           snd (at_index (0, 0)%Z edges e) = w)))
            (size edges - 1 + 1)%Z final)
    end.
    { apply for_range_ind.
      - lia.
      - split; [unfold size; rewrite repeat_length; lia|].
        intros w Hw. rewrite at_index_repeat by lia. split; [discriminate|].
        intros [e [He _]]. lia.
      - intros k b Hk [Hsize Hbits].
        destruct (at_index 0 count k <? 2)%Z eqn:Ecount.
        + apply Z.ltb_lt in Ecount. split; [rewrite !set_index_size; exact Hsize|].
          intros w Hw. set (edge := at_index (0, 0)%Z edges k).
          assert (Hin : (0 <= fst edge < verts_num)%Z /\ (0 <= snd edge < verts_num)%Z).
          { apply Hedges. unfold edge, at_index.
            destruct (k <? 0)%Z eqn:E; [apply Z.ltb_lt in E; lia|].
            apply nth_In. unfold size in Hk. lia. }
          destruct (Z.eq_dec (snd edge) w) as [Hs | Hs].
          { rewrite Hs, at_index_set_index_same
              by (rewrite set_index_size, Hsize; exact Hw).
            split; [intros _ | reflexivity].
            exists k. split; [lia|]. split; [exact Ecount | right; exact Hs]. }
          rewrite at_index_set_index_other by exact Hs.
          destruct (Z.eq_dec (fst edge) w) as [Hf | Hf].
          { rewrite Hf, at_index_set_index_same by (rewrite Hsize; exact Hw).
            split; [intros _ | reflexivity].
            exists k. split; [lia|]. split; [exact Ecount | left; exact Hf]. }
          rewrite at_index_set_index_other by exact Hf.
          rewrite (Hbits w Hw). split.
          * intros [e [He Hrest]]. exists e. split; [lia | exact Hrest].
          * intros [e [He [Hc Hends]]]. destruct (Z.eq_dec e k) as [-> | Hne].
            -- fold edge in Hends. destruct Hends; contradiction.
            -- exists e. split; [lia|]. split; assumption.
        + apply Z.ltb_ge in Ecount. split; [exact Hsize|].
          intros w Hw. rewrite (Hbits w Hw). split.
          * intros [e [He Hrest]]. exists e. split; [lia | exact Hrest].
          * intros [e [He [Hc Hends]]]. destruct (Z.eq_dec e k) as [-> | Hne]; [lia|].
            exists e. split; [lia|]. split; assumption. }
    cbv beta in Hend. replace (size edges - 1 + 1)%Z with (size edges) in Hend by lia.
    destruct Hend as [Hsize Hbits]. split; [exact Hsize | apply Hbits; exact Hv].
Qed.

(** The apex of the open tetrahedron. *)
Lemma boundary_info_marks_open_edges_witness :
  let count := count_occurrences open_tetrahedron_corner_edges (repeat 0%Z 6) in
  let result :=
    ensure_boundary_info count_occurrences [] 4 open_tetrahedron_edges
      open_tetrahedron_corner_edges in
  (@nil bool <> [] -> result = []) /\
  (@nil bool = [] ->
   size result = 4%Z /\
   (at_index false result 3 = true <->
    exists e, (0 <= e < size open_tetrahedron_edges)%Z /\
              (at_index 0 count e < 2)%Z /\
              (fst (at_index (0, 0) open_tetrahedron_edges e) = 3 \/
               snd (at_index (0, 0) open_tetrahedron_edges e) = 3)%Z)).
Proof.
  apply (boundary_info_marks_open_edges count_occurrences [] 4 open_tetrahedron_edges
           open_tetrahedron_corner_edges 3).
  - lia.
  - intros edge Hin. unfold open_tetrahedron_edges in Hin. cbn [In] in Hin.
    repeat (destruct Hin as [<- | Hin]; [cbn [fst snd]; lia|]). contradiction.
  - lia.
Defined.

(** ** The pass enumeration: what an invocation sees *)

Section PassGeometry.
Context {F : Type} `{FloatOps F}.
Variable RegionView3D : Type.
Variable View3D : Type.
Variable rotate_point : Z -> F -> float3 F -> float3 F.
Variable radial_angle : Z -> Z -> F.
Variable PAINT_TILE_X : Z.
Variable sd : Sculpt F.
Variable ob : Object F.
Variable c0 : StrokeCache F RegionView3D View3D.

Abbreviation gstate := (@DriverState F RegionView3D View3D).
Abbreviation geometry_ok :=
  (Forall (fun e : StrokeCache F RegionView3D View3D => pass_geometry rotate_point c0 e)).

(** [SCULPT_cache_calc_brushdata_symm] places the cache as the un-tiled
    invocation of the pass, when it is called with the mirror pass of the
    cache. *)
Lemma calc_brushdata_symm_at_pass_start (c : StrokeCache F RegionView3D View3D)
    (symm axis : Z) (angle : F) :
  true_fields c = true_fields c0 ->
  mirror_symmetry_pass c = symm ->
  let c' := SCULPT_cache_calc_brushdata_symm rotate_point c symm axis angle in
  at_pass_start rotate_point c0 c' /\
  mirror_symmetry_pass c' = symm /\
  radial_symmetry_pass c' = radial_symmetry_pass c.
Proof.
  intros Htrue Hm. cbv zeta. unfold true_fields in Htrue.
  injection Htrue as Hl Hi Hn Hg.
  unfold at_pass_start, pass_geometry, SCULPT_cache_calc_brushdata_symm, true_fields.
  destruct (truthy axis); cbn; rewrite Hl, Hi, Hn, Hg, Hm;
    repeat split; first [reflexivity | congruence].
Qed.

(** The invariant of the tile loops of [do_tiled] called on [st]. *)
Lemma do_tile_geometry (st s : gstate) (cur0 cur1 cur2 : Z) :
  at_pass_start rotate_point c0 (cache st) ->
  geometry_ok (trace s) /\ pass_fields (cache s) = pass_fields (cache st) /\
  (0 <= tile_pass (cache s))%Z ->
  let s' := do_tile sd (location (cache st)) (initial_location (cache st)) cur0 cur1 cur2 s in
  geometry_ok (trace s') /\ pass_fields (cache s') = pass_fields (cache st) /\
  (0 <= tile_pass (cache s'))%Z.
Proof.
  intros [Htrue Hgeo] (Htr & Hpf & Htile). cbv zeta. unfold do_tile.
  destruct ((cur0 =? 0)%Z && (cur1 =? 0)%Z && (cur2 =? 0)%Z);
    [split; [exact Htr | split; [exact Hpf | exact Htile]]|].
  unfold action. cbn [trace cache].
  split; [|split; [exact Hpf | cbn; lia]].
  apply Forall_app. split; [exact Htr|]. constructor; [|constructor].
  unfold pass_geometry in Hgeo. cbn in Hgeo.
  destruct Hgeo as (Hvn & Hgd & Hinv & Hz & _).
  destruct (Hz eq_refl) as (Hloc & Hini & _).
  unfold pass_fields in Hpf. injection Hpf as Hm Hrot Hrot' Hv Hg _ _ _ _.
  unfold pass_geometry. cbn.
  rewrite Hm, Hrot, Hrot', Hv, Hg, <- Hloc, <- Hini.
  split; [exact Hvn|]. split; [exact Hgd|]. split; [exact Hinv|].
  split; [intros Hzero; exfalso; lia|].
  intros _. split; reflexivity.
Qed.

(** [do_tiled], called on a cache placed by
    [SCULPT_cache_calc_brushdata_symm], invokes the action with the
    geometry of the pass and leaves the pass as it is. *)
Lemma do_tiled_geometry (st : gstate) :
  geometry_ok (trace st) ->
  at_pass_start rotate_point c0 (cache st) ->
  let st' := do_tiled PAINT_TILE_X sd ob st in
  geometry_ok (trace st') /\ pass_fields (cache st') = pass_fields (cache st).
Proof.
  intros Htr Hstart. cbv zeta.
  cut (geometry_ok (trace (do_tiled PAINT_TILE_X sd ob st)) /\
       pass_fields (cache (do_tiled PAINT_TILE_X sd ob st)) = pass_fields (cache st) /\
       (0 <= tile_pass (cache (do_tiled PAINT_TILE_X sd ob st)))%Z).
  { intros (A & B & _). split; assumption. }
  unfold do_tiled.
  apply (for_range_inv (fun s : gstate =>
           geometry_ok (trace s) /\ pass_fields (cache s) = pass_fields (cache st) /\
           (0 <= tile_pass (cache s))%Z)).
  - unfold action. cbn [trace cache].
    split; [|split; [reflexivity | cbn; lia]].
    apply Forall_app. split; [exact Htr|]. constructor; [|constructor].
    exact (proj2 Hstart).
  - intros cur0 s0 _ H0. apply for_range_inv; [exact H0|].
    intros cur1 s1 _ H1. apply for_range_inv; [exact H1|].
    intros cur2 s2 _ H2. apply do_tile_geometry; assumption.
Qed.

Lemma pass_fields_true_fields (a b : StrokeCache F RegionView3D View3D) :
  pass_fields a = pass_fields b ->
  true_fields a = true_fields b /\ mirror_symmetry_pass a = mirror_symmetry_pass b.
Proof.
  unfold pass_fields, true_fields. intros Hpf.
  injection Hpf as Hm _ _ _ _ Hl Hi Hn Hg. rewrite Hm, Hl, Hi, Hn, Hg. split; reflexivity.
Qed.

(** A pass: the cache placed by [SCULPT_cache_calc_brushdata_symm] and
    handed to [do_tiled]. *)
Lemma placed_pass_geometry (s : gstate) (c : StrokeCache F RegionView3D View3D)
    (symm axis : Z) (angle : F) :
  geometry_ok (trace s) ->
  true_fields c = true_fields c0 ->
  mirror_symmetry_pass c = symm ->
  let s' := do_tiled PAINT_TILE_X sd ob
              (mkDriver (SCULPT_cache_calc_brushdata_symm rotate_point c symm axis angle)
                        (trace s)) in
  geometry_ok (trace s') /\ true_fields (cache s') = true_fields c0 /\
  mirror_symmetry_pass (cache s') = symm.
Proof.
  intros Htr Htrue Hm. cbv zeta.
  destruct (calc_brushdata_symm_at_pass_start c symm axis angle Htrue Hm)
    as (Hstart & Hm' & _).
  set (c' := SCULPT_cache_calc_brushdata_symm rotate_point c symm axis angle) in *.
  clearbody c'.
  destruct (do_tiled_geometry (mkDriver c' (trace s)) Htr Hstart) as [Hgeo Hpf].
  set (s' := do_tiled PAINT_TILE_X sd ob (mkDriver c' (trace s))) in *. clearbody s'.
  cbn [cache] in Hpf. destruct (pass_fields_true_fields _ _ Hpf) as [Ht Hmp].
  split; [exact Hgeo|]. split.
  - rewrite Ht. exact (proj1 Hstart).
  - rewrite Hmp. exact Hm'.
Qed.

Lemma do_radial_symmetry_geometry (symm axis : Z) (st : gstate) :
  geometry_ok (trace st) ->
  true_fields (cache st) = true_fields c0 ->
  mirror_symmetry_pass (cache st) = symm ->
  let st' := do_radial_symmetry rotate_point radial_angle PAINT_TILE_X sd ob symm axis st in
  geometry_ok (trace st') /\ true_fields (cache st') = true_fields c0 /\
  mirror_symmetry_pass (cache st') = symm.
Proof.
  intros Htr Htrue Hm. cbv zeta. unfold do_radial_symmetry.
  apply (for_range_inv (fun s : gstate =>
           geometry_ok (trace s) /\ true_fields (cache s) = true_fields c0 /\
           mirror_symmetry_pass (cache s) = symm)).
  - split; [exact Htr|]. split; [exact Htrue | exact Hm].
  - intros i s _ (Hs & Ht & Hms).
    apply placed_pass_geometry; [exact Hs | exact Ht | exact Hms].
Qed.

Lemma mirror_iteration_geometry (symm i : Z) (st : gstate) :
  geometry_ok (trace st) ->
  true_fields (cache st) = true_fields c0 ->
  let st' := mirror_iteration rotate_point radial_angle PAINT_TILE_X sd ob symm i st in
  geometry_ok (trace st') /\ true_fields (cache st') = true_fields c0.
Proof.
  intros Htr Htrue. cbv zeta. unfold mirror_iteration.
  destruct (SCULPT_is_symmetry_iteration_valid i symm); cbn [negb];
    [|split; assumption].
  destruct (placed_pass_geometry st
              (set_radial_symmetry_pass (set_mirror_symmetry_pass (cache st) i) 0)
              i 0%Z fzero Htr Htrue eq_refl) as (H1 & T1 & M1).
  match type of H1 with geometry_ok (trace ?x) => set (st1 := x) in * end. clearbody st1.
  destruct (do_radial_symmetry_geometry i char_X st1 H1 T1 M1) as (H2 & T2 & M2).
  match type of H2 with geometry_ok (trace ?x) => set (st2 := x) in * end. clearbody st2.
  destruct (do_radial_symmetry_geometry i char_Y st2 H2 T2 M2) as (H3 & T3 & M3).
  match type of H3 with geometry_ok (trace ?x) => set (st3 := x) in * end. clearbody st3.
  destruct (do_radial_symmetry_geometry i char_Z st3 H3 T3 M3) as (H4 & T4 & _).
  split; assumption.
Qed.

Lemma do_symmetrical_brush_actions_geometry :
  geometry_ok (trace (do_symmetrical_brush_actions rotate_point radial_angle PAINT_TILE_X sd ob
                        (mkDriver c0 []))).
Proof.
  unfold do_symmetrical_brush_actions. cbn [cache trace].
  apply (proj1 (A := _) (B := true_fields (cache
           (for_range 0 (mesh_symmetry_xyz ob)
              (mirror_iteration rotate_point radial_angle PAINT_TILE_X sd ob (mesh_symmetry_xyz ob))
              (mkDriver (set_symmetry c0 (mesh_symmetry_xyz ob)) []))) = true_fields c0)).
  apply (for_range_inv (fun s : gstate =>
           geometry_ok (trace s) /\ true_fields (cache s) = true_fields c0)).
  - split; [constructor | reflexivity].
  - intros i s _ [Hs Ht]. apply mirror_iteration_geometry; assumption.
Qed.
End PassGeometry.

(** X10.  Where every invocation of the brush action made by
    [do_symmetrical_brush_actions] is placed, in terms of the stroke cache
    [c] the step started from.  The view normal is the true view normal
    mirrored by the mirror pass of the invocation, and is not rotated; the
    symmetry grab delta is the grab delta mirrored and then rotated; the
    inverse rotation is built about the same axis with the opposite angle.
    In an un-tiled invocation the location is the true location mirrored and
    then rotated, the initial location the true initial location mirrored,
    not rotated, and the plane offset is zero; in a tiled repeat both are
    those of the un-tiled invocation of the pass shifted by the plane offset
    of the tile.  This holds for any arithmetic and any rotation. *)
Theorem every_invocation_geometry
    (F : Type) (ops : FloatOps F) (RegionView3D View3D : Type)
    (rotate_point : Z -> F -> float3 F -> float3 F) (radial_angle : Z -> Z -> F) (PAINT_TILE_X : Z)
    (sd : Sculpt F) (ob : Object F) (c e : StrokeCache F RegionView3D View3D) :
  In e (trace (do_symmetrical_brush_actions rotate_point radial_angle PAINT_TILE_X sd ob
                 (mkDriver c []))) ->
  pass_geometry rotate_point c e.
Proof.
  intros Hin.
  pose proof (do_symmetrical_brush_actions_geometry RegionView3D View3D rotate_point radial_angle
                PAINT_TILE_X sd ob c) as Hall.
  rewrite Forall_forall in Hall. exact (Hall e Hin).
Qed.

(** The last invocation of [placed_trace]: the tiled repeat of
    the radial pass about X in mirror combination 1. *)
Lemma every_invocation_geometry_witness :
  pass_geometry quarter_turn_x placed_cache (nth 7 placed_trace placed_cache).
Proof.
  apply (every_invocation_geometry Q Q_ops unit unit quarter_turn_x demo_angle 16
           (tiled_x_settings (mkint3 2 1 1)) (mirrored_object 1) placed_cache
           (nth 7 placed_trace placed_cache)).
  vm_compute. do 7 right. left. reflexivity.
Defined.

